(** * ModpackUtils: the web synchronisation flow

    A shallow embedding of [src/web.ts] and [src/index.ts].  Synchronous
    code is written in a small writer/error monad over an explicit trace
    of observable events; the [Promise.all] fan-out of [updateWeb] is a
    state machine driven by the order in which the network settles the
    requests that are in flight. *)

From Stdlib Require Import String Ascii List Bool Arith ZArith Lia Permutation
  Sorted.
Import ListNotations.

Set Warnings "-register-all".

Local Open Scope string_scope.
Local Open Scope list_scope.

(** String concatenation, written as JavaScript's [+] on strings. *)
Infix "+++" := String.append (right associativity, at level 60).

(** ** Node's [path] module (POSIX flavour) *)

Module Path.
Definition is_sep (c : ascii) : bool := Ascii.eqb c "/"%char.
Definition is_dot (c : ascii) : bool := Ascii.eqb c "."%char.

(** [s.split("/")]: an empty string gives one empty segment. *)
Fixpoint split (s : string) : list string :=
  match s with
  | EmptyString => [""]
  | String c rest =>
      if is_sep c then "" :: split rest
      else match split rest with
           | seg :: segs => String c seg :: segs
           | [] => [String c ""]
           end
  end.

Fixpoint has_sep (s : string) : bool :=
  match s with
  | EmptyString => false
  | String c rest => is_sep c || has_sep rest
  end.

Definition nonempty (s : string) : bool :=
  match s with EmptyString => false | _ => true end.

Definition starts_with_sep (s : string) : bool :=
  match s with String c _ => is_sep c | EmptyString => false end.

Fixpoint ends_with_sep (s : string) : bool :=
  match s with
  | EmptyString => false
  | String c EmptyString => is_sep c
  | String _ rest => ends_with_sep rest
  end.

(** One step of [normalizeString]: the stack holds the segments kept so
    far, innermost first. *)
Definition push_segment (allowAboveRoot : bool) (stack : list string)
           (seg : string) : list string :=
  if String.eqb seg "" || String.eqb seg "." then stack
  else if String.eqb seg ".." then
    match stack with
    | top :: below =>
        if String.eqb top ".." then
          (if allowAboveRoot then seg :: stack else stack)
        else below
    | [] => if allowAboveRoot then [seg] else []
    end
  else seg :: stack.

Definition normalizeString (path : string) (allowAboveRoot : bool) : string :=
  String.concat "/"
    (rev (fold_left (push_segment allowAboveRoot) (split path) [])).

Definition normalize (path : string) : string :=
  if String.eqb path "" then "."
  else
    let isAbsolute := starts_with_sep path in
    let trailingSeparator := ends_with_sep path in
    let p := normalizeString path (negb isAbsolute) in
    if String.eqb p "" then
      (if isAbsolute then "/" else if trailingSeparator then "./" else ".")
    else
      let p := if trailingSeparator then p +++ "/" else p in
      if isAbsolute then "/" +++ p else p.

(** [path.join(...args)]: empty arguments are dropped, the rest are
    glued with [/] and normalised. *)
Definition join (args : list string) : string :=
  let joined := String.concat "/" (filter nonempty args) in
  if String.eqb joined "" then "." else normalize joined.

(** The last path component, trailing separators ignored. *)
Definition last_component (path : string) : string :=
  last (filter nonempty (split path)) "".

Definition basename (path : string) : string := last_component path.

(** The suffix of [s] starting at its last dot, with the number of
    characters before that dot. *)
Fixpoint last_dot (s : string) : option (nat * string) :=
  match s with
  | EmptyString => None
  | String c rest =>
      match last_dot rest with
      | Some (n, ext) => Some (S n, ext)
      | None => if is_dot c then Some (0, s) else None
      end
  end.

Definition extname (path : string) : string :=
  let base := last_component path in
  match last_dot base with
  | None => ""
  | Some (0, _) => ""
  | Some (_, ext) => if String.eqb base ".." then "" else ext
  end.

End Path.

(** ** JSON values and JavaScript objects *)

(** A parsed JSON or YAML document.  Numbers are kept as integers: the
    program never computes with them, it only passes them through. *)
Inductive value : Type :=
| VNull
| VBool (b : bool)
| VNum (n : Z)
| VStr (s : string)
| VArr (items : list value)
| VObj (fields : list (string * value)).

(** An object is its list of own properties, in the order in which
    JavaScript enumerates them: the array indices first, in ascending
    order, then the other keys in the order of their creation. *)
Definition object : Type := list (string * value).

Fixpoint obj_get (k : string) (o : object) : option value :=
  match o with
  | [] => None
  | (k', v) :: rest => if String.eqb k' k then Some v else obj_get k rest
  end.

Definition digit (c : ascii) : option N :=
  let n := N_of_ascii c in
  if N.leb 48 n && N.leb n 57 then Some (N.sub n 48) else None.

Fixpoint decimal (s : string) (acc : N) : option N :=
  match s with
  | EmptyString => Some acc
  | String c rest =>
      match digit c with
      | Some d => decimal rest (N.add (N.mul 10 acc) d)
      | None => None
      end
  end.

(** A key that is an array index: the canonical decimal writing, with
    no leading zero, of an integer below [2^32 - 1]. *)
Definition array_index (k : string) : option N :=
  match k with
  | EmptyString => None
  | String c rest =>
      if Ascii.eqb c "0"%char && negb (String.eqb rest "") then None
      else match decimal k 0 with
           | Some n => if N.ltb n 4294967295 then Some n else None
           | None => None
           end
  end.

Definition obj_has (k : string) (o : object) : bool :=
  match obj_get k o with Some _ => true | None => false end.

(** Assignment to a property that is there: it keeps its position. *)
Fixpoint obj_update (k : string) (v : value) (o : object) : object :=
  match o with
  | [] => []
  | (k', v') :: rest =>
      if String.eqb k' k then (k', v) :: rest
      else (k', v') :: obj_update k v rest
  end.

(** A new array index [n] takes its place among the array indices. *)
Fixpoint obj_add_index (n : N) (k : string) (v : value) (o : object)
  : object :=
  match o with
  | [] => [(k, v)]
  | (k', v') :: rest =>
      match array_index k' with
      | Some n' =>
          if N.ltb n' n then (k', v') :: obj_add_index n k v rest
          else (k, v) :: o
      | None => (k, v) :: o
      end
  end.

(** Assignment to a property: an existing key keeps its position, a new
    array index is placed among the array indices, any other new key
    comes last. *)
Definition obj_set (k : string) (v : value) (o : object) : object :=
  if obj_has k o then obj_update k v o
  else match array_index k with
       | Some n => obj_add_index n k v o
       | None => o ++ [(k, v)]
       end.

(** [{ ...target, ...src }]: the properties of [src] are assigned onto
    [target] one after the other. *)
Definition obj_spread (target src : object) : object :=
  fold_left (fun acc kv => obj_set (fst kv) (snd kv) acc) src target.

(** ** Errors *)

Inductive error : Type :=
| Error (message : string)
| TypeError (message : string)
| AxiosError (message : string) (url : string) (response_data : option value).

Definition message_of (e : error) : string :=
  match e with
  | Error m | TypeError m | AxiosError m _ _ => m
  end.

Inductive result (A : Type) : Type :=
| Ok (a : A)
| Err (e : error).
Arguments Ok {A} a.
Arguments Err {A} e.

(** What a call into [fs], [JSON] or [yaml] gives: a value, or an
    exception of the library with its message. *)
Inductive attempt (A : Type) : Type :=
| Done (a : A)
| Threw (message : string).
Arguments Done {A} a.
Arguments Threw {A} message.

(** ** Requests and observable events *)

Record Api : Type := mkApi {
  baseURL : string;
  headers : list (string * string)
}.

(** One [data.append(name, createReadStream(path))]. *)
Record Part : Type := mkPart {
  field : string;
  stream : string
}.

(** A [FormData]; the boundary is drawn at random when it is created. *)
Record FormData : Type := mkForm {
  boundary : string;
  parts : list Part
}.

Definition getHeaders (f : FormData) : list (string * string) :=
  [("content-type", "multipart/form-data; boundary=" +++ boundary f)].

Inductive body : Type :=
| Json (v : value)
| Multipart (f : FormData).

(** [api.put(url, data, config)]. *)
Record Request : Type := mkRequest {
  via : Api;
  url : string;
  data : body;
  config_headers : option (list (string * string))
}.

(** How the network settles a request: a 2xx response with its body, or
    a failure, with the response body when there was a response. *)
Inductive reply : Type :=
| Status2xx (response : value)
| Failure (message : string) (response_data : option value).

(** A template literal: its literal pieces and the interpolated values
    ([None] is [undefined]). *)
Inductive fragment : Type :=
| Lit (s : string)
| Interp (v : option value).

Definition message : Type := list fragment.

Inductive event : Type :=
| StartGroup (name : string)
| EndGroup
| Info (m : message)
| Warning (m : string)
| ConsoleError (m : message)
| SetFailed (m : string)
| Put (r : Request)
| Settled (r : Request) (rp : reply).

Definition trace : Type := list event.

(** ** Synchronous code: a trace and a result *)

Definition Sync (A : Type) : Type := (trace * result A)%type.

Definition ret {A} (a : A) : Sync A := ([], Ok a).
Definition throw {A} (e : error) : Sync A := ([], Err e).
Definition emit (ev : event) : Sync unit := ([ev], Ok tt).
Definition lift {A} (r : result A) : Sync A := ([], r).
Definition try {A} (x : attempt A) : Sync A :=
  match x with
  | Done a => ret a
  | Threw m => throw (Error m)
  end.

Definition bind {A B} (m : Sync A) (k : A -> Sync B) : Sync B :=
  match m with
  | (t, Err e) => (t, Err e)
  | (t, Ok a) => let (t', r) := k a in (t ++ t', r)
  end.

Notation "x <- m ;; k" := (bind m (fun x => k))
  (at level 61, m at next level, right associativity).
Notation "m ;; k" := (bind m (fun _ => k))
  (at level 61, right associativity).

Fixpoint mapM {A B} (f : A -> Sync B) (l : list A) : Sync (list B) :=
  match l with
  | [] => ret []
  | a :: rest => b <- f a ;; bs <- mapM f rest ;; ret (b :: bs)
  end.

(** [array.filter(p)] for a callback that may throw. *)
Fixpoint filterM {A} (p : A -> result bool) (l : list A) : result (list A) :=
  match l with
  | [] => Ok []
  | a :: rest =>
      match p a with
      | Err e => Err e
      | Ok keep =>
          match filterM p rest with
          | Err e => Err e
          | Ok kept => Ok (if keep then a :: kept else kept)
          end
      end
  end.

Definition dispatched (t : trace) : list Request :=
  flat_map (fun ev => match ev with Put r => [r] | _ => [] end) t.

(** ** Promises *)

(** An async function suspended at its [await api.put(...)]: the request
    it waits for and the rest of its body. *)
Record Pending : Type := mkPending {
  request : Request;
  resume : Sync unit
}.

Inductive promise : Type :=
| Fulfilled
| Rejected (e : error)
| InFlight (p : Pending).

(** Calling an async function whose body has at most one [await]. *)
Definition async (body : Sync (option Pending)) : Sync promise :=
  match body with
  | (t, Err e) => (t, Ok (Rejected e))
  | (t, Ok None) => (t, Ok Fulfilled)
  | (t, Ok (Some p)) => (t, Ok (InFlight p))
  end.

Definition settle (p : Pending) (rp : reply) : trace * promise :=
  match rp with
  | Status2xx _ =>
      match resume p with
      | (t, Ok _) => (Settled (request p) rp :: t, Fulfilled)
      | (t, Err e) => (Settled (request p) rp :: t, Rejected e)
      end
  | Failure m d =>
      ([Settled (request p) rp], Rejected (AxiosError m (url (request p)) d))
  end.

Definition is_fulfilled (b : promise) : bool :=
  match b with Fulfilled => true | _ => false end.

Definition is_in_flight (b : promise) : bool :=
  match b with InFlight _ => true | _ => false end.

Fixpoint first_rejected (bs : list promise) : option error :=
  match bs with
  | [] => None
  | Rejected e :: _ => Some e
  | _ :: rest => first_rejected rest
  end.

Fixpoint set_nth {A} (i : nat) (a : A) (l : list A) : list A :=
  match l, i with
  | [], _ => []
  | _ :: rest, O => a :: rest
  | x :: rest, S j => x :: set_nth j a rest
  end.

(** [Promise.all(branches)]: the branches and the state of the combined
    promise ([None] while it is pending). *)
Record Joined : Type := mkJoined {
  branches : list promise;
  outcome : option (result unit)
}.

Definition Promise_all (bs : list promise) : Joined :=
  {| branches := bs;
     outcome := match first_rejected bs with
                | Some e => Some (Err e)
                | None => if forallb is_fulfilled bs then Some (Ok tt) else None
                end |}.

(** The network settles the request of branch [i]. *)
Definition step (st : Joined) (d : nat * reply) : trace * Joined :=
  match nth_error (branches st) (fst d) with
  | Some (InFlight p) =>
      let (t, b) := settle p (snd d) in
      let bs := set_nth (fst d) b (branches st) in
      (t, {| branches := bs;
             outcome := match outcome st with
                        | Some r => Some r
                        | None =>
                            match b with
                            | Rejected e => Some (Err e)
                            | _ => if forallb is_fulfilled bs
                                   then Some (Ok tt) else None
                            end
                        end |})
  | _ => ([], st)
  end.

(** [await Promise.all(...)]: the event loop runs until the combined
    promise settles; what is left of the schedule is returned. *)
Fixpoint await (st : Joined) (sched : list (nat * reply))
  : trace * Joined * list (nat * reply) :=
  match outcome st with
  | Some _ => ([], st, sched)
  | None =>
      match sched with
      | [] => ([], st, [])
      | d :: rest =>
          let (t, st') := step st d in
          let '(t', st'', rest') := await st' rest in
          (t ++ t', st'', rest')
      end
  end.

(** The event loop runs the whole schedule. *)
Fixpoint drain (st : Joined) (sched : list (nat * reply)) : trace * Joined :=
  match sched with
  | [] => ([], st)
  | d :: rest =>
      let (t, st') := step st d in
      let (t', st'') := drain st' rest in
      (t ++ t', st'')
  end.

(** ** The program *)

(** A string of the program is kept as the bytes of its UTF-8 encoding,
    which is how the inputs of the action reach it in the environment. *)
Definition utf8 (bytes : list nat) : string :=
  fold_right (fun n s => String (ascii_of_nat n) s) EmptyString bytes.

(** The code points that [String.prototype.trim] takes off both ends of
    a string: the WhiteSpace and LineTerminator productions of
    ECMAScript, each as its UTF-8 bytes. *)
Definition white_space : list string :=
  map utf8
    [[9]; [10]; [11]; [12]; [13]; [32];
     [194; 160];
     [225; 154; 128];
     [226; 128; 128]; [226; 128; 129]; [226; 128; 130]; [226; 128; 131];
     [226; 128; 132]; [226; 128; 133]; [226; 128; 134]; [226; 128; 135];
     [226; 128; 136]; [226; 128; 137]; [226; 128; 138];
     [226; 128; 168]; [226; 128; 169];
     [226; 128; 175];
     [226; 129; 159];
     [227; 128; 128];
     [239; 187; 191]].

(** [s] without its prefix [p], when it starts with [p]. *)
Fixpoint after_prefix (p s : string) : option string :=
  match p, s with
  | EmptyString, _ => Some s
  | String a p', String b s' =>
      if Ascii.eqb a b then after_prefix p' s' else None
  | String _ _, EmptyString => None
  end.

(** [s] without the first of the strings [us] that it starts with. *)
Definition after_any (us : list string) (s : string) : option string :=
  fold_right (fun u found =>
                match after_prefix u s with
                | Some rest => Some rest
                | None => found
                end) None us.

(** [s] without the white space code point it starts with. *)
Definition after_white_space (s : string) : option string :=
  after_any white_space s.

(** At most [n] white space code points taken off the start of [s]. *)
Fixpoint trimStart_upto (n : nat) (s : string) : string :=
  match n with
  | 0 => s
  | S n' =>
      match after_white_space s with
      | Some rest => trimStart_upto n' rest
      | None => s
      end
  end.

Definition trimStart (s : string) : string :=
  trimStart_upto (String.length s) s.

(** A string of white space only. *)
Definition is_blank (s : string) : bool := String.eqb (trimStart s) "".

Fixpoint trimEnd (s : string) : string :=
  if is_blank s then EmptyString
  else match s with
       | String c rest => String c (trimEnd rest)
       | EmptyString => EmptyString
       end.

(** [String.prototype.trim] *)
Definition trim (s : string) : string := trimEnd (trimStart s).

Definition isAxiosError (e : error) : bool :=
  match e with AxiosError _ _ _ => true | _ => false end.

Definition webDir : string := "web".

(** [cfData.installedAddons], which must be an array for [.filter]. *)
Definition installedAddons_of (cfData : value) : result (list value) :=
  match cfData with
  | VObj o =>
      match obj_get "installedAddons" o with
      | Some (VArr addons) => Ok addons
      | Some VNull => Err (TypeError "Cannot read property 'filter' of null")
      | None => Err (TypeError "Cannot read property 'filter' of undefined")
      | Some _ =>
          Err (TypeError "cfData.installedAddons.filter is not a function")
      end
  | VNull =>
      Err (TypeError "Cannot read property 'installedAddons' of null")
  | _ => Err (TypeError "Cannot read property 'filter' of undefined")
  end.

(** [addon.installedFile.fileName], as an argument of [join], which
    accepts strings only. *)
Definition addon_fileName (addon : value) : result string :=
  match addon with
  | VObj a =>
      match obj_get "installedFile" a with
      | Some (VObj f) =>
          match obj_get "fileName" f with
          | Some (VStr name) => Ok name
          | _ => Err (TypeError "The 'path' argument must be of type string")
          end
      | Some (VStr _) | Some (VNum _) | Some (VBool _) | Some (VArr _) =>
          Err (TypeError "The 'path' argument must be of type string")
      | Some VNull =>
          Err (TypeError "Cannot read property 'fileName' of null")
      | None =>
          Err (TypeError "Cannot read property 'fileName' of undefined")
      end
  | VNull => Err (TypeError "Cannot read property 'installedFile' of null")
  | _ => Err (TypeError "Cannot read property 'fileName' of undefined")
  end.

(** [content.title] of a page. *)
Definition title_of (content : value) : result (option value) :=
  match content with
  | VNull => Err (TypeError "Cannot read property 'title' of null")
  | VObj o => Ok (obj_get "title" o)
  | _ => Ok None
  end.

(** [data.append(name, createReadStream(path))] *)
Definition append_part (form : FormData) (name path : string) : FormData :=
  {| boundary := boundary form; parts := parts form ++ [mkPart name path] |}.

(** [await api.put(...)] in a function that is itself awaited by its
    caller at once: the request, its settlement, and the response body
    or the transport error. *)
Definition await_put (req : Request) (rp : reply) : Sync value :=
  emit (Put req) ;;
  emit (Settled req rp) ;;
  match rp with
  | Status2xx response => ret response
  | Failure m d => throw (AxiosError m (url req) d)
  end.

(** [await api.put("/pack", packData); info("Updated pack data")] *)
Definition data_upload (api : Api) (packData : value) : Pending :=
  {| request := mkRequest api "/pack" (Json packData) None;
     resume := emit (Info [Lit "Updated pack data"]) |}.

(** The [reduce] of [updateAssets] over the paths of the assets. *)
Definition assets_form (bnd : string) (assets : list string) : FormData :=
  fold_left (fun data img => append_part data (Path.basename img) img)
            assets (mkForm bnd []).

(** [await api.put("/pack/assets", assetsData, { headers });
     info("Updated assets")] *)
Definition assets_upload (api : Api) (assetsData : FormData) : Pending :=
  {| request := mkRequest api "/pack/assets" (Multipart assetsData)
                          (Some (getHeaders assetsData));
     resume := emit (Info [Lit "Updated assets"]) |}.

(** [await api.put("pack/page", content);
     info(`Uploaded ${content.title}`)] *)
Definition page_upload (api : Api) (content : value) : Pending :=
  {| request := mkRequest api "pack/page" (Json content) None;
     resume := title <- lift (title_of content) ;;
               emit (Info [Lit "Uploaded "; Interp title]) |}.

(** A promise: its trace so far and how it settled, [None] while it is
    pending. *)
Definition Async (A : Type) : Type := (trace * option (result A))%type.

Definition is_SetFailed (ev : event) : bool :=
  match ev with SetFailed _ => true | _ => false end.

(** The run is marked as failed for the pipeline: [core.setFailed] was
    called.  A promise chain that ends rejected is a matter for the
    runtime, and is read off the result of the run, not off this mark. *)
Definition marked_failed (a : Async unit) : bool :=
  existsb is_SetFailed (fst a).

Section Web.

(** [./releases] is not part of the sources at hand: the type of a
    release event, its tag and [strip] are parameters. *)
Variable RawRelease : Type.
Variable tag_name : RawRelease -> string.
Variable strip : RawRelease -> object.

(** The parsers of the [JSON] global and of the [yaml] package. *)
Variable JSON_parse : string -> attempt value.
Variable yaml_parse : string -> attempt value.

(** What the program reads: the file system through [fs], the inputs of
    the action, and the event that triggered the workflow. *)
Record World : Type := mkWorld {
  existsSync : string -> bool;
  readdirSync : string -> attempt (list string);
  readFileSync : string -> attempt string;
  inputs : string -> string;
  eventName : string;
  release : RawRelease
}.

(** What the environment decides while the program runs: the reply to
    the release request, the boundary drawn for the form, and the order
    in which the requests of the fan-out are settled, each with its
    reply (a position in the array given to [Promise.all]). *)
Record Choices : Type := mkChoices {
  release_reply : reply;
  form_boundary : string;
  schedule : list (nat * reply)
}.

(** [./technic] is not part of the sources at hand either. *)
Variable technicRelease : World -> Async unit.

(** [core.getInput(name, { required })] *)
Definition getInput (w : World) (name : string) (required : bool)
  : result string :=
  let val := inputs w name in
  if required && negb (Path.nonempty val)
  then Err (Error ("Input required and not supplied: " +++ name))
  else Ok (trim val).

Definition getApi (w : World) : result Api :=
  match getInput w "web_token" true with
  | Err e => Err e
  | Ok token =>
      match getInput w "api" false with
      | Err e => Err e
      | Ok base =>
          Ok {| baseURL := base;
                headers := [("Content-Type", "application/json");
                            ("Authorization", "Bearer " +++ token)] |}
      end
  end.

Definition updateData (w : World) : Sync promise :=
  async (
    api <- lift (getApi w) ;;
    let file := Path.join [webDir; "pack.yml"] in
    if negb (existsSync w file) then
      emit (Warning "Skip updating pack data") ;;
      ret None
    else
      content <- try (readFileSync w file) ;;
      packData <- try (yaml_parse content) ;;
      let upload := data_upload api packData in
      emit (Put (request upload)) ;;
      ret (Some upload)).

(** The callback of [cfData.installedAddons.filter]. *)
Definition addon_present (w : World) (dir : string) (addon : value)
  : result bool :=
  match addon_fileName addon with
  | Err e => Err e
  | Ok fileName => Ok (existsSync w (Path.join [dir; "mods"; fileName]))
  end.

Definition release_payload (installedAddons : list value)
           (rel : RawRelease) : object :=
  obj_spread [("installedAddons", VArr installedAddons)] (strip rel).

Definition createRelease (w : World) (rel : RawRelease) (dir : string)
           (rp : reply) : Sync value :=
  api <- lift (getApi w) ;;
  let tag := tag_name rel in
  let cfFile := Path.join [dir; "minecraftinstance.json"] in
  if negb (existsSync w cfFile) then
    throw (Error "minecraftinstance.json file missing")
  else
    content <- try (readFileSync w cfFile) ;;
    cfData <- try (JSON_parse content) ;;
    addons <- lift (installedAddons_of cfData) ;;
    installedAddons <- lift (filterM (addon_present w dir) addons) ;;
    response <- await_put
      (mkRequest api ("/pack/release/" +++ tag)
                 (Json (VObj (release_payload installedAddons rel))) None)
      rp ;;
    emit (Info [Lit ("Created release for version '" +++ tag +++ "'")]) ;;
    ret response.

Definition updateAssets (w : World) (bnd : string) : Sync promise :=
  async (
    api <- lift (getApi w) ;;
    let assetsDir := Path.join [webDir; "assets"] in
    if negb (existsSync w assetsDir) then
      emit (Warning "No assets defined") ;;
      ret None
    else
      names <- try (readdirSync w assetsDir) ;;
      let assets := map (fun f => Path.join [assetsDir; f]) names in
      let assetsData := assets_form bnd assets in
      let upload := assets_upload api assetsData in
      emit (Put (request upload)) ;;
      ret (Some upload)).

(** The body of the [pages.map] callback of [updatePages]. *)
Definition parse_page (w : World) (page : string) : Sync value :=
  let ext := Path.extname page in
  content <- try (readFileSync w page) ;;
  if String.eqb ext ".json" then try (JSON_parse content)
  else if String.eqb ext ".yml" then try (yaml_parse content)
  else ret (VObj []).

(** The async callback of [parsed.map]. *)
Definition upload_page (api : Api) (content : value) : Sync promise :=
  async (
    let upload := page_upload api content in
    emit (Put (request upload)) ;;
    ret (Some upload)).

Definition updatePages (w : World) : Sync (list promise) :=
  api <- lift (getApi w) ;;
  let pageDir := Path.join [webDir; "pages"] in
  if negb (existsSync w pageDir) then
    emit (Warning "No pages defined") ;;
    ret []
  else
    names <- try (readdirSync w pageDir) ;;
    let pages := map (fun f => Path.join [pageDir; f]) names in
    parsed <- mapM (parse_page w) pages ;;
    mapM (upload_page api) parsed.

(** [updateWeb] up to its [await]: the array given to [Promise.all]. *)
Definition fanout (w : World) (bnd : string) : Sync (list promise) :=
  emit (StartGroup "Updating web") ;;
  pages <- updatePages w ;;
  d <- updateData w ;;
  a <- updateAssets w bnd ;;
  ret (pages ++ [d; a]).

Definition updateWeb (w : World) (bnd : string) (sched : list (nat * reply))
  : Async unit :=
  match fanout w bnd with
  | (t, Err e) => (t, Some (Err e))
  | (t, Ok bs) =>
      let '(t', st, _) := await (Promise_all bs) sched in
      match outcome st with
      | Some (Ok _) => (t ++ t' ++ [EndGroup], Some (Ok tt))
      | Some (Err e) => (t ++ t', Some (Err e))
      | None => (t ++ t', None)
      end
  end.

(** ** [index.ts] *)

Definition web (w : World) (c : Choices) : Async unit :=
  let first :=
    if String.eqb (eventName w) "release"
    then createRelease w (release w) "" (release_reply c) ;; ret tt
    else ret tt in
  match first with
  | (t, Err e) => (t, Some (Err e))
  | (t, Ok _) =>
      let (t', r) := updateWeb w (form_boundary c) (schedule c) in
      (t ++ t', r)
  end.

Definition run (w : World) (c : Choices) : Async unit :=
  match getInput w "action" true with
  | Err e => ([], Some (Err e))
  | Ok action =>
      if String.eqb action "web" then web w c
      else if String.eqb action "technic" then technicRelease w
      else ([], Some (Err (Error ("Invalid action '" +++ action +++ "'"))))
  end.

(** The callback given to [run().catch]. *)
Definition on_rejected (e : error) : Sync unit :=
  match e with
  | AxiosError _ u d =>
      emit (ConsoleError [Lit "API Request failed: "; Lit u]) ;;
      emit (ConsoleError [Lit "   "; Interp d]) ;;
      throw e
  | _ => emit (SetFailed (message_of e))
  end.

(** The module body of [index.ts]: [run().catch(...)]. *)
Definition main (w : World) (c : Choices) : Async unit :=
  match run w c with
  | (t, Some (Err e)) => let (t', r) := on_rejected e in (t ++ t', Some r)
  | unchanged => unchanged
  end.

End Web.

Arguments existsSync {RawRelease} w path : rename.
Arguments readdirSync {RawRelease} w path : rename.
Arguments readFileSync {RawRelease} w path : rename.
Arguments inputs {RawRelease} w name : rename.
Arguments eventName {RawRelease} w : rename.
Arguments release {RawRelease} w : rename.
Arguments getInput {RawRelease} w name required.
Arguments getApi {RawRelease} w.
Arguments addon_present {RawRelease} w dir addon.
Arguments updateData {RawRelease} yaml_parse w.
Arguments createRelease {RawRelease} tag_name strip JSON_parse w rel dir rp.
Arguments release_payload {RawRelease} strip installedAddons rel.
Arguments updateAssets {RawRelease} w bnd.
Arguments parse_page {RawRelease} JSON_parse yaml_parse w page.
Arguments updatePages {RawRelease} JSON_parse yaml_parse w.
Arguments fanout {RawRelease} JSON_parse yaml_parse w bnd.
Arguments updateWeb {RawRelease} JSON_parse yaml_parse w bnd sched.
Arguments web {RawRelease} tag_name strip JSON_parse yaml_parse w c.
Arguments run {RawRelease} tag_name strip JSON_parse yaml_parse technicRelease w c.
Arguments main {RawRelease} tag_name strip JSON_parse yaml_parse technicRelease w c.

(** ** Vocabulary of the properties *)

Fixpoint has_prefix (p s : string) : bool :=
  match p, s with
  | EmptyString, _ => true
  | String a p', String b s' => Ascii.eqb a b && has_prefix p' s'
  | String _ _, EmptyString => false
  end.

(** The request of [createRelease]. *)
Definition is_release_request (r : Request) : bool :=
  has_prefix "/pack/release/" (url r).

(** The categories that [updateWeb] synchronises, and the endpoint of
    each. *)
Inductive category : Type := Pages | Metadata | Assets.

Definition endpoint (c : category) : string :=
  match c with
  | Pages => "pack/page"
  | Metadata => "/pack"
  | Assets => "/pack/assets"
  end.

Definition local_path (c : category) : string :=
  match c with
  | Pages => Path.join [webDir; "pages"]
  | Metadata => Path.join [webDir; "pack.yml"]
  | Assets => Path.join [webDir; "assets"]
  end.

Definition requests_to (c : category) (t : trace) : list Request :=
  filter (fun r => String.eqb (url r) (endpoint c)) (dispatched t).

(** The requests that the promises of an array wait for. *)
Definition awaited (bs : list promise) : list Request :=
  flat_map (fun b => match b with InFlight p => [request p] | _ => [] end) bs.

(** The rest of a suspended function sends nothing. *)
Definition quiet (b : promise) : Prop :=
  match b with
  | InFlight p => dispatched (fst (resume p)) = []
  | _ => True
  end.

(** An addon of a manifest that follows the [MinecraftInstance]
    interface names its file. *)
Definition names_file (addon : value) : Prop :=
  exists fileName, addon_fileName addon = Ok fileName.

(** The addon names a file that is there under [dir/mods]. *)
Definition shipped {RawRelease} (w : World RawRelease) (dir : string)
           (addon : value) : bool :=
  match addon_present w dir addon with
  | Ok present => present
  | Err _ => false
  end.

(** The name of a directory entry, as [readdirSync] lists them. *)
Definition entry_name (f : string) : bool :=
  Path.nonempty f && negb (Path.has_sep f)
  && negb (String.eqb f ".") && negb (String.eqb f "..").


(** [fileName] is an entry of the directory [<dir>/mods] and a file
    that can be read there. *)
Definition file_under_mods {RawRelease} (w : World RawRelease)
           (dir fileName : string) : Prop :=
  exists names content,
    readdirSync w (Path.join [dir; "mods"]) = Done names /\
    In fileName names /\
    readFileSync w (Path.join [dir; "mods"; fileName]) = Done content.

(** [f] is a stem that is not empty, followed by [ext]. *)
Fixpoint has_extension (f ext : string) : bool :=
  match f with
  | EmptyString => false
  | String _ rest => String.eqb rest ext || has_extension rest ext
  end.

(** A string of white space code points. *)
Inductive blank : string -> Prop :=
| blank_empty : blank ""
| blank_more (u s : string) :
    In u white_space -> blank s -> blank (u +++ s).

(** [t] is [raw] without the white space at its two ends: white space
    comes before and after it, and it neither starts nor ends with a
    white space code point. *)
Definition trimmed_of (raw t : string) : Prop :=
  exists pre post,
    raw = pre +++ t +++ post /\ blank pre /\ blank post /\
    (forall u r, In u white_space -> t <> u +++ r) /\
    (forall u r, In u white_space -> t <> r +++ u).

(** No string of [us] starts another one. *)
Definition prefix_free (us : list string) : bool :=
  forallb (fun u =>
             forallb (fun u' => String.eqb u u' || negb (has_prefix u u'))
                     us) us.

Fixpoint occurs (c : ascii) (s : string) : bool :=
  match s with
  | EmptyString => false
  | String c' rest => Ascii.eqb c c' || occurs c rest
  end.

(** No string of [us] starts with a byte that a string of [us] has
    after its first byte. *)
Definition self_synchronising (us : list string) : bool :=
  forallb (fun u =>
             forallb (fun u' =>
                        match u, u' with
                        | String _ tl, String h _ => negb (occurs h tl)
                        | _, _ => false
                        end) us) us.

(** Two requests that differ at most in the boundary drawn for a
    multipart body and in the header that announces it. *)
Definition same_shape (r1 r2 : Request) : Prop :=
  via r1 = via r2 /\ url r1 = url r2 /\
  match data r1, data r2 with
  | Json v1, Json v2 => v1 = v2 /\ config_headers r1 = config_headers r2
  | Multipart f1, Multipart f2 =>
      parts f1 = parts f2 /\
      config_headers r1 = Some (getHeaders f1) /\
      config_headers r2 = Some (getHeaders f2)
  | _, _ => False
  end.


(** The states of [Promise.all] that the event loop can reach. *)
Definition consistent (st : Joined) : Prop :=
  match outcome st with
  | None =>
      first_rejected (branches st) = None /\
      forallb is_fulfilled (branches st) = false
  | Some (Ok _) => forallb is_fulfilled (branches st) = true
  | Some (Err e) => exists i, nth_error (branches st) i = Some (Rejected e)
  end.


(** A request as the program builds them for category [c]. *)
Definition request_to (c : category) (r : Request) : Prop :=
  url r = endpoint c /\ same_shape r r.

(** What a category puts into the array given to [Promise.all]: every
    promise in flight waits for a request that was sent, to the endpoint
    of the category, and nothing else was sent. *)
Definition launched_to (c : category) (m : Sync (list promise)) : Prop :=
  match m with
  | (t, Ok bs) =>
      dispatched t = awaited bs /\ Forall quiet bs /\
      Forall (request_to c) (awaited bs)
  | (t, Err _) => dispatched t = []
  end.

Section Vocabulary.

Context {RawRelease : Type}.
Variable JSON_parse : string -> attempt value.
Variable yaml_parse : string -> attempt value.

(** The body that a page file stands for: its JSON parse when its
    extension is [.json], its YAML parse when it is [.yml], the empty
    object for any other extension. *)
Definition is_page_body (w : World RawRelease) (page : string)
           (body : value) : Prop :=
  exists content,
    readFileSync w page = Done content /\
    ((Path.extname page = ".json" /\ JSON_parse content = Done body) \/
     (Path.extname page = ".yml" /\ yaml_parse content = Done body) \/
     (Path.extname page <> ".json" /\ Path.extname page <> ".yml" /\
      body = VObj [])).

(** The document of the entry [f] of the pages directory: the JSON
    parse of the file [web/pages/f] when [f] ends in [.json], its YAML
    parse when [f] ends in [.yml], the empty object otherwise. *)
Definition page_document (w : World RawRelease) (f : string)
           (body : value) : Prop :=
  exists content,
    readFileSync w ("web/pages/" +++ f) = Done content /\
    if has_extension f ".json" then JSON_parse content = Done body
    else if has_extension f ".yml" then yaml_parse content = Done body
    else body = VObj [].



End Vocabulary.

(** ** Four sentences of the specification, as it states them *)

Section Stated.

Context {RawRelease : Type}.
Variable tag_name : RawRelease -> string.
Variable strip : RawRelease -> object.
Variable JSON_parse : string -> attempt value.
Variable yaml_parse : string -> attempt value.
Variable technicRelease : World RawRelease -> Async unit.


(** One PUT is sent for each file of the pages directory. *)
Definition sends_every_page (w : World RawRelease) : Prop :=
  forall names,
    readdirSync w "web/pages" = Done names ->
    length (dispatched (fst (updatePages JSON_parse yaml_parse w)))
    = length names.



(** The payload carries the filtered list only when the fields of
    [strip(release)] hold no key named [installedAddons]. *)
Definition filtered_list_only_without_collision (w : World RawRelease)
           (rel : RawRelease) (dir : string) (rp : reply) : Prop :=
  forall text cf addons r payload,
    readFileSync w (Path.join [dir; "minecraftinstance.json"]) = Done text ->
    JSON_parse text = Done (VObj cf) ->
    obj_get "installedAddons" cf = Some (VArr addons) ->
    dispatched (fst (createRelease tag_name strip JSON_parse w rel dir rp))
    = [r] ->
    data r = Json (VObj payload) ->
    obj_get "installedAddons" payload
    = Some (VArr (filter (shipped w dir) addons)) ->
    obj_get "installedAddons" (strip rel) = None.

End Stated.

(** ** Sample runs

    A concrete file system, concrete parsers and a concrete release
    type, on which the definitions above can be evaluated. *)

Module Sample.

Inductive node : Type :=
| File (content : string)
| Dir (entries : list string).

Definition disk : Type := list (string * node).

Fixpoint lookup (d : disk) (path : string) : option node :=
  match d with
  | [] => None
  | (p, n) :: rest => if String.eqb p path then Some n else lookup rest path
  end.

Definition exists_on (d : disk) (path : string) : bool :=
  match lookup d path with Some _ => true | None => false end.

Definition readdir_on (d : disk) (path : string) : attempt (list string) :=
  match lookup d path with
  | Some (Dir names) => Done names
  | Some (File _) => Threw ("ENOTDIR: not a directory, scandir " +++ path)
  | None => Threw ("ENOENT: no such file or directory, scandir " +++ path)
  end.

Definition readFile_on (d : disk) (path : string) : attempt string :=
  match lookup d path with
  | Some (File content) => Done content
  | Some (Dir _) => Threw "EISDIR: illegal operation on a directory, read"
  | None => Threw ("ENOENT: no such file or directory, open " +++ path)
  end.

(** A parser given by the documents it accepts. *)
Definition parse_table (table : list (string * value)) (text : string)
  : attempt value :=
  match find (fun entry => String.eqb (fst entry) text) table with
  | Some entry => Done (snd entry)
  | None => Threw "Unexpected token"
  end.

(** Writes a JSON text with single quotes in place of double quotes. *)
Fixpoint json_text (s : string) : string :=
  match s with
  | EmptyString => EmptyString
  | String c rest =>
      String (if Ascii.eqb c "'"%char then ascii_of_nat 34 else c)
             (json_text rest)
  end.

(** The release of a GitHub release event, cut down to what is used. *)
Record GithubRelease : Type := mkRelease {
  tag : string;
  name : string;
  notes : string;
  prerelease : bool
}.

(** The descriptive fields the specification names for [strip]. *)
Definition strip_fields (r : GithubRelease) : object :=
  [("name", VStr (name r)); ("body", VStr (notes r));
   ("prerelease", VBool (prerelease r))].

Definition v120 : GithubRelease :=
  {| tag := "v1.2.0"; name := "Spring update"; notes := "New mods";
     prerelease := false |}.

Definition addon (id : Z) (file : string) : value :=
  VObj [("addonID", VNum id);
        ("installedFile", VObj [("id", VNum (100 + id));
                                ("fileName", VStr file)])].

Definition manifest_text : string :=
  json_text "{'installedAddons':[{'addonID':1,'installedFile':{'id':101,'fileName':'mod1.jar'}},{'addonID':2,'installedFile':{'id':102,'fileName':'mod2.jar'}}]}".

Definition manifest : value :=
  VObj [("installedAddons", VArr [addon 1 "mod1.jar"; addon 2 "mod2.jar"])].

Definition JSON_parse : string -> attempt value :=
  parse_table
    [(manifest_text, manifest);
     (json_text "{'title':'Home'}", VObj [("title", VStr "Home")]);
     ("{}", VObj []);
     ("null", VNull)].

Definition yaml_parse : string -> attempt value :=
  parse_table
    [("name: Demo pack", VObj [("name", VStr "Demo pack")]);
     ("title: About", VObj [("title", VStr "About")]);
     ("", VNull)].

Definition action_inputs (name : string) : string :=
  if String.eqb name "action" then "web"
  else if String.eqb name "api" then "https://packs.example/api"
  else if String.eqb name "web_token" then "s3cret"
  else "".

Definition world_on (d : disk) (event : string) : World GithubRelease :=
  {| existsSync := exists_on d;
     readdirSync := readdir_on d;
     readFileSync := readFile_on d;
     inputs := action_inputs;
     eventName := event;
     release := v120 |}.

(** A project with metadata, three pages, two assets, and a manifest
    that lists [mod1.jar] (shipped) and [mod2.jar] (not shipped). *)
Definition project : disk :=
  [("web", Dir ["pack.yml"; "pages"; "assets"]);
   ("web/pack.yml", File "name: Demo pack");
   ("web/pages", Dir ["home.json"; "about.yml"; "notes.txt"]);
   ("web/pages/home.json", File (json_text "{'title':'Home'}"));
   ("web/pages/about.yml", File "title: About");
   ("web/pages/notes.txt", File "to do");
   ("web/assets", Dir ["logo.png"; "icon.svg"]);
   ("web/assets/logo.png", File "PNG");
   ("web/assets/icon.svg", File "<svg/>");
   ("minecraftinstance.json", File manifest_text);
   ("mods", Dir ["mod1.jar"]);
   ("mods/mod1.jar", File "PK")].

(** Metadata and assets only. *)
Definition small_project : disk :=
  [("web", Dir ["pack.yml"; "assets"]);
   ("web/pack.yml", File "name: Demo pack");
   ("web/assets", Dir ["logo.png"]);
   ("web/assets/logo.png", File "PNG")].

(** Nothing to synchronise. *)
Definition empty_project : disk := [].

Definition no_technic : World GithubRelease -> Async unit :=
  fun _ => ([], Some (Ok tt)).

(** The metadata request fails, then the assets request succeeds. *)
Definition metadata_fails_first : list (nat * reply) :=
  [(0, Failure "Request failed with status code 500"
               (Some (VStr "Internal Server Error")));
   (1, Status2xx (VObj []))].

Definition api : Api :=
  {| baseURL := "https://packs.example/api";
     headers := [("Content-Type", "application/json");
                 ("Authorization", "Bearer s3cret")] |}.

(** The three worlds of the runs below. *)
Definition released : World GithubRelease := world_on project "release".
Definition pushed : World GithubRelease := world_on small_project "push".
Definition bare : World GithubRelease := world_on empty_project "release".

Definition addons : list value := [addon 1 "mod1.jar"; addon 2 "mod2.jar"].

(** A [strip] that lets a key named [installedAddons] through. *)
Definition strip_all (r : GithubRelease) : object :=
  ("installedAddons", VStr "as released") :: strip_fields r.

(** The run on [pushed] in which the metadata request fails first. *)
Definition server_error : reply :=
  Failure "Request failed with status code 500"
          (Some (VStr "Internal Server Error")).

Definition metadata : Pending :=
  data_upload api (VObj [("name", VStr "Demo pack")]).

Definition assets : Pending :=
  assets_upload api (mkForm "B1" [mkPart "logo.png" "web/assets/logo.png"]).

Definition launch : trace :=
  [StartGroup "Updating web"; Warning "No pages defined";
   Put (request metadata); Put (request assets)].

Definition metadata_error : error :=
  AxiosError "Request failed with status code 500" "/pack"
             (Some (VStr "Internal Server Error")).

Definition at_rejection : Joined :=
  {| branches := [Rejected metadata_error; InFlight assets];
     outcome := Some (Err metadata_error) |}.

Definition choices : Choices :=
  {| release_reply := Status2xx (VObj [("id", VNum 7)]);
     form_boundary := "B1";
     schedule := metadata_fails_first |}.

End Sample.

(** ** Vocabulary of the further properties *)

(** The three suspended functions of [web.ts] that wait for a request
    of the client [api]. *)
Inductive uploads (api : Api) : Pending -> Prop :=
| uploads_page (content : value) : uploads api (page_upload api content)
| uploads_data (packData : value) : uploads api (data_upload api packData)
| uploads_assets (form : FormData) : uploads api (assets_upload api form).

(** A promise of the array of [updateWeb] when the client is [api]:
    fulfilled by a skip, rejected by an exception of [fs] or [yaml], or
    waiting for one of the three uploads. *)
Definition branch_from (api : Api) (b : promise) : Prop :=
  match b with
  | Fulfilled => True
  | Rejected e => exists m, e = Error m
  | InFlight p => uploads api p
  end.

(** What the functions of [web.ts] leave in the trace when the client
    is [api]: log lines, and requests that go through [api]; never a
    [console.error] or a [core.setFailed]. *)
Definition web_event (api : Api) (ev : event) : Prop :=
  match ev with
  | StartGroup _ | EndGroup | Info _ | Warning _ => True
  | Put r | Settled r _ => via r = api
  | ConsoleError _ | SetFailed _ => False
  end.

(** A promise of the array while the event loop runs: what is in
    flight is one of the uploads. *)
Definition pending_from (api : Api) (b : promise) : Prop :=
  match b with
  | InFlight p => uploads api p
  | _ => True
  end.

Definition is_Settled (ev : event) : bool :=
  match ev with Settled _ _ => true | _ => false end.

Definition is_EndGroup (ev : event) : bool :=
  match ev with EndGroup => true | _ => false end.

(** A branch that a 2xx reply fulfils. *)
Definition resumes_well (b : promise) : Prop :=
  match b with
  | InFlight p => snd (resume p) = Ok tt
  | Fulfilled => True
  | Rejected _ => False
  end.

Definition is_2xx (rp : reply) : bool :=
  match rp with Status2xx _ => true | Failure _ _ => false end.

(** The keys that JavaScript lists first, and the number each one
    writes. *)
Definition is_index (k : string) : bool :=
  match array_index k with Some _ => true | None => false end.

(** The keys of an object that are not array indices, in their order. *)
Definition named_keys (o : object) : list string :=
  filter (fun k => negb (is_index k)) (map fst o).

Definition index_of (k : string) : N :=
  match array_index k with Some n => n | None => 0%N end.

(** The array indices of an object come before its other keys, in
    ascending order. *)
Definition indices_first (o : object) : Prop :=
  exists indices,
    map fst o = indices ++ named_keys o /\
    Forall (fun k => is_index k = true) indices /\
    Sorted (fun a b => N.le (index_of a) (index_of b)) indices.

(** Further sample worlds. *)
Module Edge.

(** No [web_token]. *)
Definition anonymous_inputs (name : string) : string :=
  if String.eqb name "action" then "web"
  else if String.eqb name "api" then "https://packs.example/api"
  else "".

Definition anonymous : World Sample.GithubRelease :=
  {| existsSync := Sample.exists_on Sample.project;
     readdirSync := Sample.readdir_on Sample.project;
     readFileSync := Sample.readFile_on Sample.project;
     inputs := anonymous_inputs;
     eventName := "release";
     release := Sample.v120 |}.

(** White space that is not ASCII: a no-break space and a byte order
    mark. *)
Definition nbsp : string := utf8 [194; 160].
Definition bom : string := utf8 [239; 187; 191].

(** An action that the dispatcher does not know, with white space
    around it. *)
Definition deploy_inputs (name : string) : string :=
  if String.eqb name "action" then " deploy" +++ nbsp
  else Sample.action_inputs name.

Definition deploying : World Sample.GithubRelease :=
  {| existsSync := Sample.exists_on Sample.project;
     readdirSync := Sample.readdir_on Sample.project;
     readFileSync := Sample.readFile_on Sample.project;
     inputs := deploy_inputs;
     eventName := "push";
     release := Sample.v120 |}.

(** A page whose document is [null], beside a good one. *)
Definition null_page : World Sample.GithubRelease :=
  Sample.world_on
    [("web/pages", Sample.Dir ["home.json"; "empty.json"]);
     ("web/pages/home.json", Sample.File (Sample.json_text "{'title':'Home'}"));
     ("web/pages/empty.json", Sample.File "null")] "push".

(** A page that does not parse, beside metadata and assets. *)
Definition broken_page : World Sample.GithubRelease :=
  Sample.world_on
    [("web/pack.yml", Sample.File "name: Demo pack");
     ("web/pages", Sample.Dir ["home.json"; "draft.json"]);
     ("web/pages/home.json", Sample.File (Sample.json_text "{'title':'Home'}"));
     ("web/pages/draft.json", Sample.File "{");
     ("web/assets", Sample.Dir ["logo.png"]);
     ("web/assets/logo.png", Sample.File "PNG")] "push".

(** Metadata that does not parse, beside a page and an asset. *)
Definition broken_metadata : World Sample.GithubRelease :=
  Sample.world_on
    [("web/pack.yml", Sample.File "name: [");
     ("web/pages", Sample.Dir ["home.json"]);
     ("web/pages/home.json", Sample.File (Sample.json_text "{'title':'Home'}"));
     ("web/assets", Sample.Dir ["logo.png"]);
     ("web/assets/logo.png", Sample.File "PNG")] "push".

(** The two directories are there and empty. *)
Definition empty_directories : World Sample.GithubRelease :=
  Sample.world_on
    [("web/pages", Sample.Dir []); ("web/assets", Sample.Dir [])] "push".

(** Every request of the full sample project is answered with success,
    the assets first. *)
Definition all_succeed : list (nat * reply) :=
  [(4, Status2xx VNull); (0, Status2xx VNull); (3, Status2xx VNull);
   (2, Status2xx VNull); (1, Status2xx VNull)].

(** The branches of [updateWeb] on the full sample project. *)
Definition page_bodies : list value :=
  [VObj [("title", VStr "Home")]; VObj [("title", VStr "About")]; VObj []].

Definition released_pages : list promise :=
  map (fun body => InFlight (page_upload Sample.api body)) page_bodies.

Definition released_branches : list promise :=
  released_pages
    ++ [InFlight Sample.metadata;
        InFlight
          (assets_upload Sample.api
             (mkForm "B1" [mkPart "logo.png" "web/assets/logo.png";
                           mkPart "icon.svg" "web/assets/icon.svg"]))].

Definition succeeding : Choices :=
  {| release_reply := Status2xx (VObj [("id", VNum 7)]);
     form_boundary := "B1";
     schedule := all_succeed |}.

Definition home_page : Pending :=
  page_upload Sample.api (VObj [("title", VStr "Home")]).

(** The inputs of the sample project with white space around them. *)
Definition padded_inputs (name : string) : string :=
  if String.eqb name "api" then "https://packs.example/api" +++ bom
  else if String.eqb name "web_token" then nbsp +++ "s3cret" +++ utf8 [10]
  else Sample.action_inputs name.

Definition padded : World Sample.GithubRelease :=
  {| existsSync := Sample.exists_on Sample.project;
     readdirSync := Sample.readdir_on Sample.project;
     readFileSync := Sample.readFile_on Sample.project;
     inputs := padded_inputs;
     eventName := "release";
     release := Sample.v120 |}.

(** A manifest of which four addons name no file of [mods]: an empty
    name, the directory itself, a directory in it, and a path that
    leaves it; the fifth names a file that is not there. *)
Definition stray_addons : list value :=
  [Sample.addon 1 ""; Sample.addon 2 "."; Sample.addon 3 "libs";
   Sample.addon 4 "../minecraftinstance.json"; Sample.addon 5 "mod5.jar"].

Definition stray_text : string :=
  Sample.json_text "{'installedAddons':[{'addonID':1,'installedFile':{'id':101,'fileName':''}},{'addonID':2,'installedFile':{'id':102,'fileName':'.'}},{'addonID':3,'installedFile':{'id':103,'fileName':'libs'}},{'addonID':4,'installedFile':{'id':104,'fileName':'../minecraftinstance.json'}},{'addonID':5,'installedFile':{'id':105,'fileName':'mod5.jar'}}]}".

Definition stray_parse : string -> attempt value :=
  Sample.parse_table
    [(stray_text, VObj [("installedAddons", VArr stray_addons)])].

Definition stray : World Sample.GithubRelease :=
  Sample.world_on
    [("minecraftinstance.json", Sample.File stray_text);
     ("mods", Sample.Dir ["libs"; "mod1.jar"]);
     ("mods/libs", Sample.Dir ["core.jar"]);
     ("mods/libs/core.jar", Sample.File "PK");
     ("mods/mod1.jar", Sample.File "PK")] "release".

(** Three pages, of which the first does not parse. *)
Definition draft_pages : World Sample.GithubRelease :=
  Sample.world_on
    [("web/pages", Sample.Dir ["draft.json"; "about.yml"; "notes.txt"]);
     ("web/pages/draft.json", Sample.File "{");
     ("web/pages/about.yml", Sample.File "title: About");
     ("web/pages/notes.txt", Sample.File "to do")] "push".

(** A [strip] that lets through a key named [installedAddons] whose
    value is the very list that the filter gives on the sample
    project. *)
Definition strip_same (r : Sample.GithubRelease) : object :=
  ("installedAddons", VArr [Sample.addon 1 "mod1.jar"])
    :: Sample.strip_fields r.

(** A [strip] that lets through keys that are array indices. *)
Definition strip_numbered (r : Sample.GithubRelease) : object :=
  [("10", VStr "ten"); ("name", VStr (Sample.name r)); ("2", VStr "two");
   ("body", VStr (Sample.notes r)); ("007", VStr "bond")].

(** Both requests of [Sample.pushed] fail, the metadata first. *)
Definition both_fail : Choices :=
  {| release_reply := Status2xx VNull;
     form_boundary := "B1";
     schedule := [(0, Sample.server_error); (1, Sample.server_error)] |}.

Definition assets_error : error :=
  AxiosError "Request failed with status code 500" "/pack/assets"
             (Some (VStr "Internal Server Error")).

End Edge.

(** * Properties *)

(** ** Objects *)

Lemma obj_get_update_same (k : string) (v : value) (o : object) :
  obj_has k o = true -> obj_get k (obj_update k v o) = Some v.
Proof.
  unfold obj_has. induction o as [|[k' v'] o IH]; simpl; [discriminate|].
  destruct (String.eqb k' k) eqn:E; simpl; rewrite E; auto.
Qed.

Lemma obj_get_update_other (k k0 : string) (v : value) (o : object) :
  k0 <> k -> obj_get k (obj_update k0 v o) = obj_get k o.
Proof.
  intros Hne. induction o as [|[k' v'] o IH]; simpl; auto.
  destruct (String.eqb_spec k' k0) as [->|Hk]; simpl.
  - destruct (String.eqb_spec k0 k); congruence.
  - now rewrite IH.
Qed.

Lemma obj_get_add_index (n : N) (k k0 : string) (v : value) (o : object) :
  obj_get k0 o = None ->
  obj_get k (obj_add_index n k0 v o)
  = if String.eqb k0 k then Some v else obj_get k o.
Proof.
  induction o as [|[k' v'] o IH]; simpl; auto.
  destruct (String.eqb_spec k' k0) as [->|Hk0]; [discriminate|].
  intros Hnone.
  destruct (array_index k') as [n'|]; [destruct (N.ltb n' n)|]; simpl; auto.
  rewrite IH by assumption.
  destruct (String.eqb_spec k' k) as [->|Hk]; auto.
  destruct (String.eqb_spec k0 k); congruence.
Qed.

Lemma obj_get_app (k : string) (o1 o2 : object) :
  obj_get k (o1 ++ o2)
  = match obj_get k o1 with Some v => Some v | None => obj_get k o2 end.
Proof.
  induction o1 as [|[k' v'] o1 IH]; simpl; auto.
  destruct (String.eqb k' k); auto.
Qed.

Lemma obj_get_set (k k0 : string) (v : value) (o : object) :
  obj_get k (obj_set k0 v o)
  = if String.eqb k0 k then Some v else obj_get k o.
Proof.
  unfold obj_set.
  destruct (obj_has k0 o) eqn:Hhas.
  - destruct (String.eqb_spec k0 k) as [->|Hk].
    + now apply obj_get_update_same.
    + now apply obj_get_update_other.
  - assert (Hnone : obj_get k0 o = None).
    { unfold obj_has in Hhas. destruct (obj_get k0 o); congruence. }
    destruct (array_index k0) as [n|].
    + now apply obj_get_add_index.
    + rewrite obj_get_app. simpl.
      destruct (String.eqb_spec k0 k) as [->|Hk].
      * now rewrite Hnone.
      * destruct (obj_get k o); reflexivity.
Qed.

Lemma obj_get_set_same (k : string) (v : value) (o : object) :
  obj_get k (obj_set k v o) = Some v.
Proof. rewrite obj_get_set. now rewrite String.eqb_refl. Qed.

Lemma obj_get_set_other (k k0 : string) (v : value) (o : object) :
  k0 <> k -> obj_get k (obj_set k0 v o) = obj_get k o.
Proof.
  intros Hne. rewrite obj_get_set.
  destruct (String.eqb_spec k0 k); congruence.
Qed.

Lemma obj_get_absent (k : string) (o : object) :
  ~ In k (map fst o) -> obj_get k o = None.
Proof.
  induction o as [|[k' v'] o IH]; simpl; intros Hnot; auto.
  destruct (String.eqb_spec k' k) as [->|Hk]; [tauto|].
  apply IH. tauto.
Qed.

Lemma obj_get_None_absent (k : string) (o : object) :
  obj_get k o = None -> ~ In k (map fst o).
Proof.
  induction o as [|[k' v'] o IH]; simpl; intros Hget; [tauto|].
  destruct (String.eqb_spec k' k) as [->|Hk]; [discriminate|].
  intros [Heq|Hin]; [congruence|]. now apply IH.
Qed.

(** A spread property wins over the property of the same name that is
    already there; the other properties stay. *)
Lemma obj_spread_get (k : string) (src target : object) :
  NoDup (map fst src) ->
  obj_get k (obj_spread target src)
  = match obj_get k src with
    | Some v => Some v
    | None => obj_get k target
    end.
Proof.
  unfold obj_spread. revert target.
  induction src as [|[k0 v0] src IH]; intros target Hnd; simpl; auto.
  inversion Hnd as [|? ? Hnotin Hnd']; subst.
  rewrite IH by assumption.
  destruct (String.eqb_spec k0 k) as [->|Hk].
  - rewrite (obj_get_absent _ _ Hnotin). apply obj_get_set_same.
  - destruct (obj_get k src); auto. now apply obj_get_set_other.
Qed.

Lemma obj_spread_get_absent (k : string) (src target : object) :
  obj_get k src = None ->
  obj_get k (obj_spread target src) = obj_get k target.
Proof.
  unfold obj_spread. revert target.
  induction src as [|[k0 v0] src IH]; intros target Hget; simpl in *; auto.
  destruct (String.eqb_spec k0 k) as [->|Hk]; [discriminate|].
  rewrite IH by assumption. now apply obj_get_set_other.
Qed.

(** ** Strings and white space *)

Lemma append_assoc (a b c : string) : (a +++ b) +++ c = a +++ b +++ c.
Proof. induction a as [|x a IH]; simpl; [|rewrite IH]; reflexivity. Qed.

Lemma append_empty (a : string) : a +++ "" = a.
Proof. induction a as [|x a IH]; simpl; [|rewrite IH]; reflexivity. Qed.

Lemma length_append (a b : string) :
  String.length (a +++ b) = String.length a + String.length b.
Proof. induction a as [|x a IH]; simpl; [|rewrite IH]; reflexivity. Qed.

Lemma append_cancel (a b c : string) : a +++ b = a +++ c -> b = c.
Proof. induction a as [|x a IH]; simpl; intros H; [|inversion H]; auto. Qed.

Lemma after_prefix_Some (p s r : string) :
  after_prefix p s = Some r <-> s = p +++ r.
Proof.
  revert s. induction p as [|a p IH]; intros s; simpl.
  - split; [intros H; now inversion H|intros ->; reflexivity].
  - destruct s as [|b s].
    + split; discriminate.
    + destruct (Ascii.eqb_spec a b) as [->|Hab].
      * rewrite IH. split; [intros ->; reflexivity|intros H; now inversion H].
      * split; [discriminate|intros H; inversion H; congruence].
Qed.

Lemma has_prefix_spec (p s : string) :
  has_prefix p s = true <-> exists r, s = p +++ r.
Proof.
  revert s. induction p as [|a p IH]; intros s; simpl.
  - split; eauto.
  - destruct s as [|b s].
    + split; [discriminate|intros [r H]; discriminate].
    + rewrite andb_true_iff, IH. split.
      * intros [Hab [r ->]]. apply Ascii.eqb_eq in Hab. subst. eauto.
      * intros [r H]. inversion H; subst. split; [apply Ascii.eqb_refl|eauto].
Qed.

Lemma after_any_Some (us : list string) (s r : string) :
  after_any us s = Some r -> exists u, In u us /\ s = u +++ r.
Proof.
  induction us as [|u us IH]; simpl; [discriminate|].
  destruct (after_prefix u s) as [rest|] eqn:E.
  - intros H; inversion H; subst. apply after_prefix_Some in E. eauto.
  - intros H. destruct (IH H) as (u' & Hin & Hs). eauto.
Qed.

Lemma after_any_None (us : list string) (s : string) :
  after_any us s = None <-> forall u r, In u us -> s <> u +++ r.
Proof.
  induction us as [|u us IH]; simpl.
  - split; [intros _ u r []|reflexivity].
  - destruct (after_prefix u s) as [rest|] eqn:E.
    + apply after_prefix_Some in E. split; [discriminate|].
      intros H. exfalso. apply (H u rest); auto.
    + rewrite IH. split.
      * intros H u' r [<-|Hin]; [|now apply H].
        intros Hs. apply after_prefix_Some in Hs. congruence.
      * intros H u' r Hin. apply H. auto.
Qed.

(** Two prefixes of one string: one is a prefix of the other. *)
Lemma prefixes_compare (a b r r' : string) :
  a +++ r = b +++ r' ->
  (exists d, b = a +++ d /\ r = d +++ r') \/
  (exists d, d <> "" /\ a = b +++ d /\ r' = d +++ r).
Proof.
  revert b. induction a as [|x a IH]; intros b; simpl.
  - intros ->. left. eauto.
  - destruct b as [|y b]; simpl.
    + intros <-. right. exists (String x a). repeat split; auto. discriminate.
    + intros H. inversion H; subst.
      destruct (IH _ H2) as [(d & -> & ->)|(d & Hd & -> & ->)]; eauto.
Qed.

Lemma prefix_free_spec (us : list string) (u u' : string) :
  prefix_free us = true -> In u us -> In u' us ->
  has_prefix u u' = true -> u = u'.
Proof.
  unfold prefix_free. rewrite forallb_forall. intros H Hu Hu' Hp.
  specialize (H u Hu). rewrite forallb_forall in H. specialize (H u' Hu').
  rewrite Hp in H. simpl in H. rewrite orb_false_r in H.
  now apply String.eqb_eq.
Qed.

Lemma occurs_append (h : ascii) (t v : string) :
  occurs h (t +++ String h v) = true.
Proof.
  induction t as [|x t IH]; simpl.
  - now rewrite Ascii.eqb_refl.
  - rewrite IH. apply orb_true_r.
Qed.

Lemma self_synchronising_spec (us : list string) (u u' t v r : string) :
  self_synchronising us = true -> In u us -> In u' us ->
  t <> "" -> v <> "" -> u = t +++ v -> has_prefix u' (v +++ r) = false.
Proof.
  unfold self_synchronising. rewrite forallb_forall.
  intros H Hu Hu' Ht Hv ->.
  specialize (H _ Hu). rewrite forallb_forall in H. specialize (H _ Hu').
  destruct t as [|x t]; [congruence|]. destruct v as [|h v]; [congruence|].
  simpl in H. destruct u' as [|h' tl']; [discriminate|].
  simpl. destruct (Ascii.eqb_spec h' h) as [->|]; auto.
  rewrite occurs_append in H. discriminate.
Qed.

Lemma white_space_nonempty : forallb Path.nonempty white_space = true.
Proof. reflexivity. Qed.

Lemma white_space_prefix_free : prefix_free white_space = true.
Proof. vm_compute. reflexivity. Qed.

Lemma white_space_synchronising : self_synchronising white_space = true.
Proof. vm_compute. reflexivity. Qed.

Lemma white_space_length (u : string) :
  In u white_space -> exists c rest, u = String c rest.
Proof.
  intros Hin. pose proof white_space_nonempty as H.
  rewrite forallb_forall in H. specialize (H u Hin).
  destruct u; [discriminate|eauto].
Qed.

Lemma after_white_space_unit (u r : string) :
  In u white_space -> after_white_space (u +++ r) = Some r.
Proof.
  intros Hin. unfold after_white_space.
  destruct (after_any white_space (u +++ r)) as [r'|] eqn:E.
  - destruct (after_any_Some _ _ _ E) as (u' & Hin' & Heq).
    assert (u = u').
    { destruct (prefixes_compare _ _ _ _ Heq)
        as [(d & Hd & _)|(d & _ & Hd & _)].
      - apply (prefix_free_spec white_space); auto.
        apply has_prefix_spec. eauto.
      - symmetry. apply (prefix_free_spec white_space); auto.
        apply has_prefix_spec. eauto. }
    subst u'. apply append_cancel in Heq. now subst.
  - exfalso. rewrite after_any_None in E. now apply (E u r).
Qed.

Lemma after_white_space_shorter (s r : string) :
  after_white_space s = Some r -> String.length r < String.length s.
Proof.
  intros H. destruct (after_any_Some _ _ _ H) as (u & Hin & ->).
  destruct (white_space_length u Hin) as (c & rest & ->).
  rewrite length_append. simpl. lia.
Qed.

Lemma trimStart_upto_enough (n m : nat) (s : string) :
  String.length s <= n -> String.length s <= m ->
  trimStart_upto n s = trimStart_upto m s.
Proof.
  revert m s. induction n as [|n IH]; intros [|m] s Hn Hm; simpl; auto.
  - destruct s; [reflexivity|simpl in Hn; lia].
  - destruct s; [reflexivity|simpl in Hm; lia].
  - destruct (after_white_space s) as [r|] eqn:E; auto.
    apply after_white_space_shorter in E. apply IH; lia.
Qed.

Lemma trimStart_unit (u r : string) :
  In u white_space -> trimStart (u +++ r) = trimStart r.
Proof.
  intros Hin. unfold trimStart.
  destruct (white_space_length u Hin) as (c & rest & ->).
  simpl String.length. cbn [trimStart_upto].
  change (String c (rest +++ r)) with (String c rest +++ r).
  rewrite after_white_space_unit by assumption.
  apply trimStart_upto_enough; rewrite ?length_append; lia.
Qed.

Lemma trimStart_blank (pre s : string) :
  blank pre -> trimStart (pre +++ s) = trimStart s.
Proof.
  induction 1 as [|u pre Hin _ IH]; auto.
  rewrite append_assoc, trimStart_unit; assumption.
Qed.

Lemma trimStart_kept (s : string) :
  after_white_space s = None -> trimStart s = s.
Proof.
  intros H. unfold trimStart. destruct (String.length s); simpl; auto.
  now rewrite H.
Qed.

Lemma is_blank_blank (s : string) : is_blank s = true <-> blank s.
Proof.
  unfold is_blank. rewrite String.eqb_eq. split.
  - unfold trimStart. generalize (String.length s) as n. intros n.
    revert s. induction n as [|n IH]; intros s; simpl.
    + intros ->. constructor.
    + destruct (after_white_space s) as [r|] eqn:E.
      * destruct (after_any_Some _ _ _ E) as (u & Hin & ->).
        intros H. constructor; auto.
      * intros ->. constructor.
  - intros H. rewrite <- (append_empty s). now rewrite trimStart_blank.
Qed.

(** A string that does not start with white space still does not when
    white space is put after it. *)
Lemma no_white_space_across (t post u r : string) :
  t <> "" -> blank post -> In u white_space ->
  t +++ post = u +++ r -> exists t', t = u +++ t'.
Proof.
  intros Ht Hpost Hin Heq.
  destruct (prefixes_compare _ _ _ _ Heq)
    as [(d & Hu & Hpost')|(d & Hd & -> & _)]; [|eauto].
  destruct d as [|c d].
  { rewrite append_empty in Hu. subst u. exists "". now rewrite append_empty. }
  exfalso. inversion Hpost as [Hp|u' s' Hin' Hs' Hp].
  - rewrite <- Hp in Hpost'. discriminate.
  - assert (Hfalse : has_prefix u' (String c d +++ r) = false).
    { apply (self_synchronising_spec white_space u u' t);
        first [ apply white_space_synchronising | assumption
              | discriminate ]. }
    rewrite <- Hpost', <- Hp in Hfalse.
    assert (has_prefix u' (u' +++ s') = true) by (apply has_prefix_spec; eauto).
    congruence.
Qed.

Lemma blank_cancel (t post : string) :
  blank (t +++ post) -> blank post -> blank t.
Proof.
  intros H. remember (t +++ post) as x eqn:Hx. revert t post Hx.
  induction H as [|u s Hin Hs IH]; intros t post Hx Hpost.
  - destruct t; [constructor|discriminate].
  - destruct t as [|c t]; [constructor|].
    destruct (no_white_space_across (String c t) post u s)
      as [t' Ht']; auto; [discriminate|].
    rewrite Ht'. constructor; auto.
    apply (IH t' post); auto.
    rewrite Ht', append_assoc in Hx. now apply append_cancel in Hx.
Qed.

Lemma blank_ends (s : string) :
  blank s -> s <> "" -> exists r u, In u white_space /\ s = r +++ u.
Proof.
  induction 1 as [|u s Hin Hs IH]; [congruence|]. intros _.
  destruct s as [|c s].
  - exists "", u. now rewrite append_empty.
  - destruct IH as (r & u' & Hin' & Heq); [discriminate|].
    exists (u +++ r), u'. split; auto. now rewrite Heq, append_assoc.
Qed.

Lemma trimEnd_blank (post : string) : blank post -> trimEnd post = "".
Proof.
  intros H. apply is_blank_blank in H.
  destruct post; cbn [trimEnd]; now rewrite H.
Qed.

Lemma trimEnd_kept (t post : string) :
  (forall u r, In u white_space -> t <> r +++ u) ->
  blank post -> trimEnd (t +++ post) = t.
Proof.
  intros Hend Hpost. induction t as [|c t IH].
  - now apply trimEnd_blank.
  - change (String c t +++ post) with (String c (t +++ post)).
    cbn [trimEnd].
    destruct (is_blank (String c (t +++ post))) eqn:E.
    + exfalso. apply is_blank_blank in E.
      change (String c (t +++ post)) with (String c t +++ post) in E.
      apply (blank_cancel (String c t) post) in E; [|assumption].
      destruct (blank_ends _ E) as (r & u & Hin & Heq); [discriminate|].
      now apply (Hend u r).
    + f_equal. apply IH. intros u r Hin ->.
      now apply (Hend u (String c r)).
Qed.

(** [trim] gives what is left of a string between the white space at
    its two ends. *)
Lemma trim_trimmed (raw t : string) : trimmed_of raw t -> trim raw = t.
Proof.
  intros (pre & post & -> & Hpre & Hpost & Hstart & Hend).
  unfold trim. rewrite trimStart_blank by assumption.
  destruct t as [|c t].
  - simpl. rewrite <- (append_empty post), trimStart_blank by assumption.
    reflexivity.
  - rewrite trimStart_kept.
    + now apply trimEnd_kept.
    + apply after_any_None. intros u r Hin Heq.
      destruct (no_white_space_across (String c t) post u r)
        as [t' Ht']; auto; [discriminate|].
      now apply (Hstart u t').
Qed.

Lemma after_white_space_empty : after_white_space "" = None.
Proof. reflexivity. Qed.

Lemma trimStart_upto_split (n : nat) (s : string) :
  exists pre, blank pre /\ s = pre +++ trimStart_upto n s.
Proof.
  revert s. induction n as [|n IH]; intros s; simpl.
  - exists "". split; [constructor|reflexivity].
  - destruct (after_white_space s) as [r|] eqn:E.
    + destruct (after_any_Some _ _ _ E) as (u & Hin & ->).
      destruct (IH r) as (pre & Hpre & Hr).
      exists (u +++ pre). split; [now constructor|].
      rewrite append_assoc. now rewrite <- Hr.
    + exists "". split; [constructor|reflexivity].
Qed.

Lemma trimStart_upto_done (n : nat) (s : string) :
  String.length s <= n -> after_white_space (trimStart_upto n s) = None.
Proof.
  revert s. induction n as [|n IH]; intros s Hn; simpl.
  - destruct s; [reflexivity|simpl in Hn; lia].
  - destruct (after_white_space s) as [r|] eqn:E; auto.
    apply after_white_space_shorter in E. apply IH. lia.
Qed.

Lemma trimEnd_split (s : string) :
  exists post,
    blank post /\ s = trimEnd s +++ post /\
    forall u r, In u white_space -> trimEnd s <> r +++ u.
Proof.
  assert (Hnone : forall u r, In u white_space -> "" <> r +++ u).
  { intros u r Hin H. destruct (white_space_length u Hin) as (c & x & ->).
    destruct r; discriminate. }
  induction s as [|c s IH].
  - exists "". cbn [trimEnd]. destruct (is_blank ""); repeat split; auto;
      constructor.
  - cbn [trimEnd]. destruct (is_blank (String c s)) eqn:E.
    + exists (String c s). split; [now apply is_blank_blank|]. auto.
    + destruct IH as (post & Hpost & Hs & Hend).
      exists post. split; auto. split.
      * simpl. now rewrite <- Hs.
      * intros u r Hin Heq. destruct r as [|c' r].
        -- simpl in Heq. subst u.
           assert (Hb : blank (String c s)).
           { rewrite Hs.
             change (String c (trimEnd s +++ post))
               with (String c (trimEnd s) +++ post).
             now constructor. }
           apply is_blank_blank in Hb. congruence.
        -- simpl in Heq. inversion Heq; subst. now apply (Hend u r).
Qed.

(** Every string has its trimmed form, which is what [trim] gives. *)
Lemma trim_is_trimmed (raw : string) : trimmed_of raw (trim raw).
Proof.
  unfold trim, trimStart.
  destruct (trimStart_upto_split (String.length raw) raw)
    as (pre & Hpre & Hraw).
  pose proof (trimStart_upto_done (String.length raw) raw (le_n _)) as Hdone.
  set (m := trimStart_upto (String.length raw) raw) in *.
  destruct (trimEnd_split m) as (post & Hpost & Hm & Hend).
  exists pre, post. repeat split; auto.
  - now rewrite <- Hm.
  - intros u r Hin Heq.
    unfold after_white_space in Hdone. rewrite after_any_None in Hdone.
    apply (Hdone u (r +++ post) Hin).
    rewrite Hm, Heq. apply append_assoc.
Qed.

Lemma trimmed_of_trim (raw t : string) : trimmed_of raw t <-> trim raw = t.
Proof.
  split; [apply trim_trimmed|]. intros <-. apply trim_is_trimmed.
Qed.

(** ** Paths of directory entries *)

Lemma split_plain (f : string) :
  Path.has_sep f = false -> Path.split f = [f].
Proof.
  induction f as [|c f IH]; simpl; auto.
  intros H. apply orb_false_iff in H. destruct H as [Hc Hf].
  rewrite Hc, (IH Hf). reflexivity.
Qed.

Lemma ends_with_sep_plain (f : string) :
  Path.has_sep f = false -> Path.ends_with_sep f = false.
Proof.
  induction f as [|c f IH]; simpl; auto.
  intros H. apply orb_false_iff in H. destruct H as [Hc Hf].
  destruct f; auto.
Qed.

Lemma ends_with_sep_app (p f : string) :
  Path.nonempty f = true ->
  Path.ends_with_sep (p +++ f) = Path.ends_with_sep f.
Proof.
  intros Hf. induction p as [|c p IH]; auto.
  change (String c p +++ f) with (String c (p +++ f)).
  destruct (p +++ f) as [|c' s] eqn:Happ.
  - destruct p; simpl in Happ; [subst f|]; discriminate.
  - exact IH.
Qed.

Lemma entry_name_inv (f : string) :
  entry_name f = true ->
  Path.nonempty f = true /\ Path.has_sep f = false /\
  String.eqb f "" = false /\ String.eqb f "." = false /\
  String.eqb f ".." = false.
Proof.
  unfold entry_name. rewrite !andb_true_iff, !negb_true_iff.
  intros [[[H1 H2] H3] H4]. repeat split; auto.
  destruct f; [discriminate|reflexivity].
Qed.

(** [join("web/assets", f)] and its base name, for a directory entry. *)
Lemma join_assets_entry (f : string) :
  entry_name f = true ->
  Path.join [Path.join [webDir; "assets"]; f] = "web/assets/" +++ f /\
  Path.basename (Path.join [Path.join [webDir; "assets"]; f]) = f.
Proof.
  intros Hf.
  destruct (entry_name_inv f Hf) as (Hne & Hsep & H0 & H1 & H2).
  assert (Hjoin : Path.join [Path.join [webDir; "assets"]; f]
                  = "web/assets/" +++ f).
  { change (Path.join [webDir; "assets"]) with "web/assets".
    unfold Path.join. cbn [filter Path.nonempty]. rewrite Hne.
    cbn [String.concat]. change ("web/assets" +++ "/" +++ f)
      with ("web/assets/" +++ f).
    assert (Hend : Path.ends_with_sep ("web/assets/" +++ f) = false).
    { rewrite ends_with_sep_app by assumption.
      now apply ends_with_sep_plain. }
    assert (Hnorm : Path.normalizeString ("web/assets/" +++ f) true
                    = "web/assets/" +++ f).
    { unfold Path.normalizeString. simpl Path.split.
      rewrite (split_plain f Hsep). simpl fold_left.
      unfold Path.push_segment at 1. rewrite H0, H1, H2. simpl.
      reflexivity. }
    assert (Hstart : Path.starts_with_sep ("web/assets/" +++ f) = false)
      by reflexivity.
    assert (Hnot : String.eqb ("web/assets/" +++ f) "" = false)
      by reflexivity.
    remember ("web/assets/" +++ f) as p eqn:Hp.
    unfold Path.normalize.
    rewrite Hnot, Hstart, Hend. simpl negb. rewrite Hnorm, Hnot.
    reflexivity. }
  split; [exact Hjoin|].
  rewrite Hjoin. unfold Path.basename, Path.last_component.
  simpl Path.split. rewrite (split_plain f Hsep).
  simpl. rewrite Hne. reflexivity.
Qed.

(** The same for the entries of the pages directory, and for the
    entries of [mods] under the root that [index.ts] uses. *)
Lemma normalize_under (prefix f : string) :
  entry_name f = true ->
  Path.starts_with_sep (prefix +++ f) = false ->
  String.eqb (prefix +++ f) "" = false ->
  Path.normalizeString (prefix +++ f) true = prefix +++ f ->
  Path.normalize (prefix +++ f) = prefix +++ f.
Proof.
  intros Hf Hstart Hnot Hnorm.
  destruct (entry_name_inv f Hf) as (Hne & Hsep & _).
  assert (Hend : Path.ends_with_sep (prefix +++ f) = false).
  { rewrite ends_with_sep_app by assumption.
    now apply ends_with_sep_plain. }
  remember (prefix +++ f) as p eqn:Hp.
  unfold Path.normalize.
  rewrite Hnot, Hstart, Hend. simpl negb. rewrite Hnorm, Hnot.
  reflexivity.
Qed.

Lemma join_pages_entry (f : string) :
  entry_name f = true ->
  Path.join [Path.join [webDir; "pages"]; f] = "web/pages/" +++ f /\
  Path.last_component ("web/pages/" +++ f) = f.
Proof.
  intros Hf.
  destruct (entry_name_inv f Hf) as (Hne & Hsep & H0 & H1 & H2).
  split.
  - change (Path.join [webDir; "pages"]) with "web/pages".
    unfold Path.join. cbn [filter Path.nonempty]. rewrite Hne.
    cbn [String.concat]. change ("web/pages" +++ "/" +++ f)
      with ("web/pages/" +++ f).
    replace (String.eqb ("web/pages/" +++ f) "") with false by reflexivity.
    apply normalize_under; auto.
    unfold Path.normalizeString. simpl Path.split.
    rewrite (split_plain f Hsep). simpl fold_left.
    unfold Path.push_segment at 1. rewrite H0, H1, H2. simpl.
    reflexivity.
  - unfold Path.last_component.
    simpl Path.split. rewrite (split_plain f Hsep).
    simpl. rewrite Hne. reflexivity.
Qed.


(** ** The filter of [createRelease] *)

Section Release.

Context {RawRelease : Type}.
Variable tag_name : RawRelease -> string.
Variable strip : RawRelease -> object.
Variable JSON_parse : string -> attempt value.

Lemma filterM_filter (w : World RawRelease) (dir : string)
      (addons : list value) :
  Forall names_file addons ->
  filterM (addon_present w dir) addons = Ok (filter (shipped w dir) addons).
Proof.
  induction 1 as [|a addons [fileName Hname] _ IH]; simpl; auto.
  unfold shipped at 1. unfold addon_present at 1 3.
  rewrite Hname, IH. reflexivity.
Qed.


Lemma getApi_error (w : World RawRelease) (e : error) :
  getApi w = Err e -> isAxiosError e = false.
Proof.
  unfold getApi, getInput. simpl.
  destruct (negb (Path.nonempty (inputs w "web_token"))); simpl.
  - intros H. now inversion H.
  - discriminate.
Qed.

(** What [createRelease] does once the manifest is read and typed. *)
Lemma createRelease_run (w : World RawRelease) (rel : RawRelease)
      (dir : string) (rp : reply) (api : Api) (text : string)
      (cfData : value) (addons : list value) :
  getApi w = Ok api ->
  existsSync w (Path.join [dir; "minecraftinstance.json"]) = true ->
  readFileSync w (Path.join [dir; "minecraftinstance.json"]) = Done text ->
  JSON_parse text = Done cfData ->
  installedAddons_of cfData = Ok addons ->
  Forall names_file addons ->
  createRelease tag_name strip JSON_parse w rel dir rp
  = (await_put
       (mkRequest api ("/pack/release/" +++ tag_name rel)
          (Json (VObj (release_payload strip
                         (filter (shipped w dir) addons) rel))) None) rp ;;
     emit (Info [Lit ("Created release for version '" +++ tag_name rel
                      +++ "'")]) ;;
     ret (match rp with Status2xx d => d | Failure _ _ => VNull end)).
Proof.
  intros Hapi Hex Hread Hparse Haddons Htyped.
  unfold createRelease.
  rewrite Hapi. cbn. rewrite Hex. cbn.
  rewrite Hread. cbn. rewrite Hparse. cbn. rewrite Haddons. cbn.
  rewrite (filterM_filter _ _ _ Htyped).
  destruct rp; reflexivity.
Qed.




(** C2. Without the manifest file [createRelease] throws an error that
    is not a transport error, and it does so before any request: its
    trace is empty.  With the inputs of the action in place the error
    is the one of line 91. *)
Theorem createRelease_manifest_missing
        (w : World RawRelease) (rel : RawRelease) (dir : string)
        (rp : reply) :
  existsSync w (Path.join [dir; "minecraftinstance.json"]) = false ->
  exists e,
    createRelease tag_name strip JSON_parse w rel dir rp = ([], Err e) /\
    isAxiosError e = false /\
    dispatched (fst (createRelease tag_name strip JSON_parse w rel dir rp))
    = [] /\
    (forall api, getApi w = Ok api ->
                 e = Error "minecraftinstance.json file missing").
Proof.
  intros Hmissing. unfold createRelease.
  destruct (getApi w) as [api|e] eqn:Hapi; cbn.
  - rewrite Hmissing. cbn.
    exists (Error "minecraftinstance.json file missing"). auto.
  - exists e. repeat split; auto.
    + eapply getApi_error; eassumption.
    + discriminate.
Qed.

(** C10. The fields of [strip(release)] are spread after the
    [installedAddons] key: when they hold a key of that name, its value
    is what the payload carries, in place of the filtered list; the
    payload carries the filtered list when they hold no such key. *)
Theorem createRelease_spread_overrides
        (w : World RawRelease) (rel : RawRelease) (dir : string)
        (rp : reply) (api : Api) (text : string) (cfData : value)
        (addons : list value) :
  getApi w = Ok api ->
  existsSync w (Path.join [dir; "minecraftinstance.json"]) = true ->
  readFileSync w (Path.join [dir; "minecraftinstance.json"]) = Done text ->
  JSON_parse text = Done cfData ->
  installedAddons_of cfData = Ok addons ->
  Forall names_file addons ->
  NoDup (map fst (strip rel)) ->
  exists payload : object,
    dispatched (fst (createRelease tag_name strip JSON_parse w rel dir rp))
    = [mkRequest api ("/pack/release/" +++ tag_name rel)
                 (Json (VObj payload)) None] /\
    payload = obj_spread
                [("installedAddons", VArr (filter (shipped w dir) addons))]
                (strip rel) /\
    (forall v, obj_get "installedAddons" (strip rel) = Some v ->
               obj_get "installedAddons" payload = Some v) /\
    (obj_get "installedAddons" (strip rel) = None ->
     obj_get "installedAddons" payload
     = Some (VArr (filter (shipped w dir) addons))) /\
    (obj_get "installedAddons" payload
     = Some (VArr (filter (shipped w dir) addons)) ->
     obj_get "installedAddons" (strip rel) = None \/
     obj_get "installedAddons" (strip rel)
     = Some (VArr (filter (shipped w dir) addons))).
Proof.
  intros Hapi Hex Hread Hparse Haddons Htyped Hnodup.
  exists (release_payload strip (filter (shipped w dir) addons) rel).
  rewrite (createRelease_run w rel dir rp api text cfData addons) by assumption.
  unfold release_payload.
  rewrite (obj_spread_get "installedAddons" (strip rel)) by assumption.
  repeat split.
  - destruct rp; reflexivity.
  - intros v ->. reflexivity.
  - intros ->. reflexivity.
  - destruct (obj_get "installedAddons" (strip rel)); auto.
Qed.

End Release.

(** ** The monad *)

(** Runs the monad and nothing else: paths and strings stay as written. *)
Ltac run_sync :=
  cbn [bind lift try ret throw emit async negb fst snd app].

Lemma bind_inv {A B} (m : Sync A) (k : A -> Sync B) (t : trace)
      (r : result B) :
  bind m k = (t, r) ->
  (exists e, m = (t, Err e) /\ r = Err e) \/
  (exists t1 a t2, m = (t1, Ok a) /\ k a = (t2, r) /\ t = t1 ++ t2).
Proof.
  unfold bind. destruct m as [t1 [a|e]].
  - destruct (k a) as [t2 r2] eqn:Hk. intros H. inversion H; subst.
    right. now exists t1, a, t2.
  - intros H. inversion H; subst. left. now exists e.
Qed.

Lemma dispatched_app (t1 t2 : trace) :
  dispatched (t1 ++ t2) = dispatched t1 ++ dispatched t2.
Proof. apply flat_map_app. Qed.

Lemma awaited_app (bs1 bs2 : list promise) :
  awaited (bs1 ++ bs2) = awaited bs1 ++ awaited bs2.
Proof. apply flat_map_app. Qed.

Lemma try_inv {A} (x : attempt A) (t : trace) (r : result A) :
  try x = (t, r) ->
  t = [] /\ ((exists a, x = Done a /\ r = Ok a) \/
             (exists m, x = Threw m /\ r = Err (Error m))).
Proof.
  destruct x as [a|m]; intros H; inversion H; subst; split; eauto.
Qed.

Lemma mapM_silent {A B} (f : A -> Sync B) (l : list A) :
  (forall a, fst (f a) = []) -> fst (mapM f l) = [].
Proof.
  intros Hf. induction l as [|a l IH]; simpl; auto.
  unfold bind. specialize (Hf a).
  destruct (f a) as [t [b|e]]; simpl in *; subst; auto.
  destruct (mapM f l) as [t' [bs|e]]; simpl in *; subst; auto.
Qed.

(** ** The fan-out of [updateWeb] *)

Section Fanout.

Context {RawRelease : Type}.
Variable JSON_parse : string -> attempt value.
Variable yaml_parse : string -> attempt value.

Implicit Types (w : World RawRelease) (t : trace) (bs : list promise).

Lemma parse_page_silent w (page : string) :
  fst (parse_page JSON_parse yaml_parse w page) = [].
Proof.
  unfold parse_page, bind.
  destruct (readFileSync w page) as [content|m]; simpl; auto.
  destruct (String.eqb (Path.extname page) ".json");
    [destruct (JSON_parse content); reflexivity|].
  destruct (String.eqb (Path.extname page) ".yml");
    [destruct (yaml_parse content); reflexivity|reflexivity].
Qed.

Lemma mapM_upload_page (api : Api) (parsed : list value) :
  mapM (upload_page api) parsed
  = (map (fun content => Put (request (page_upload api content))) parsed,
     Ok (map (fun content => InFlight (page_upload api content)) parsed)).
Proof.
  induction parsed as [|content parsed IH]; auto.
  cbn [mapM]. rewrite IH. cbn. now rewrite app_nil_r.
Qed.

Lemma page_uploads_launched (api : Api) (parsed : list value) :
  launched_to Pages (mapM (upload_page api) parsed).
Proof.
  rewrite mapM_upload_page. simpl.
  induction parsed as [|content parsed (IH1 & IH2 & IH3)]; simpl; auto.
  repeat split.
  - now f_equal.
  - constructor; auto. simpl.
    destruct (title_of content); reflexivity.
  - constructor; auto. repeat split.
Qed.

Lemma updatePages_launched w :
  launched_to Pages (updatePages JSON_parse yaml_parse w).
Proof.
  unfold updatePages.
  destruct (getApi w) as [api|e]; [|cbn; auto].
  destruct (existsSync w (Path.join [webDir; "pages"])); [|cbn; auto].
  destruct (readdirSync w (Path.join [webDir; "pages"])) as [names|m];
    [|cbn; auto].
  run_sync.
  set (pages := map _ names).
  pose proof (mapM_silent (parse_page JSON_parse yaml_parse w) pages
                (parse_page_silent w)) as Hsilent.
  destruct (mapM (parse_page JSON_parse yaml_parse w) pages)
    as [t [parsed|e]]; simpl in Hsilent; subst; [|cbn; auto].
  pose proof (page_uploads_launched api parsed) as H.
  run_sync. destruct (mapM (upload_page api) parsed) as [t [bs|e]]; exact H.
Qed.

Ltac launch_done :=
  run_sync; eexists _, _; split; [reflexivity|];
  cbn; repeat split; repeat constructor; repeat split.

Lemma updateData_launched w :
  exists t b, updateData yaml_parse w = (t, Ok b) /\
              launched_to Metadata (t, Ok [b]).
Proof.
  unfold updateData.
  destruct (getApi w) as [api|e]; [|launch_done].
  destruct (existsSync w (Path.join [webDir; "pack.yml"])); [|launch_done].
  destruct (readFileSync w (Path.join [webDir; "pack.yml"])) as [content|m];
    [|launch_done].
  run_sync. destruct (yaml_parse content) as [packData|m]; launch_done.
Qed.

Lemma updateAssets_launched w (bnd : string) :
  exists t b, updateAssets w bnd = (t, Ok b) /\
              launched_to Assets (t, Ok [b]).
Proof.
  unfold updateAssets.
  destruct (getApi w) as [api|e]; [|launch_done].
  destruct (existsSync w (Path.join [webDir; "assets"])); [|launch_done].
  destruct (readdirSync w (Path.join [webDir; "assets"])) as [names|m];
    launch_done.
Qed.

Lemma fanout_inv w (bnd : string) t (r : result (list promise)) :
  fanout JSON_parse yaml_parse w bnd = (t, r) ->
  (exists tp e,
      updatePages JSON_parse yaml_parse w = (tp, Err e) /\
      t = StartGroup "Updating web" :: tp /\ r = Err e) \/
  (exists tp pages td d ta a,
      updatePages JSON_parse yaml_parse w = (tp, Ok pages) /\
      updateData yaml_parse w = (td, Ok d) /\
      updateAssets w bnd = (ta, Ok a) /\
      t = StartGroup "Updating web" :: tp ++ td ++ ta /\
      r = Ok (pages ++ [d; a])).
Proof.
  unfold fanout. run_sync.
  destruct (updateData_launched w) as (td & d & Hd & _).
  destruct (updateAssets_launched w bnd) as (ta & a & Ha & _).
  destruct (updatePages JSON_parse yaml_parse w) as [tp [pages|e]].
  - rewrite Hd. run_sync. rewrite Ha. run_sync.
    intros H. inversion H; subst. right.
    exists tp, pages, td, d, ta, a. rewrite app_nil_r. auto.
  - intros H. inversion H; subst. left. now exists tp, e.
Qed.

(** Whatever [updateWeb] sends, it sends before it awaits: one request
    for each promise in flight, each to the endpoint of a category. *)
Lemma fanout_launched w (bnd : string) :
  match fanout JSON_parse yaml_parse w bnd with
  | (t, Ok bs) =>
      dispatched t = awaited bs /\ Forall quiet bs /\
      Forall (fun r => exists c, request_to c r) (awaited bs)
  | (t, Err _) => dispatched t = []
  end.
Proof.
  destruct (fanout JSON_parse yaml_parse w bnd) as [t r] eqn:Hf.
  apply fanout_inv in Hf.
  pose proof (updatePages_launched w) as Hp.
  destruct Hf as [(tp & e & Hpages & -> & ->)
                 |(tp & pages & td & d & ta & a
                   & Hpages & Hd & Ha & -> & ->)];
    rewrite Hpages in Hp; simpl in Hp.
  - exact Hp.
  - destruct Hp as (Hp1 & Hp2 & Hp3).
    destruct (updateData_launched w) as (td' & d' & Hd' & Hd1 & Hd2 & Hd3).
    destruct (updateAssets_launched w bnd)
      as (ta' & a' & Ha' & Ha1 & Ha2 & Ha3).
    rewrite Hd in Hd'. rewrite Ha in Ha'.
    inversion Hd'; inversion Ha'; subst td' d' ta' a'.
    change (pages ++ [d; a]) with (pages ++ [d] ++ [a]).
    rewrite !awaited_app.
    change (dispatched (StartGroup "Updating web" :: tp ++ td ++ ta))
      with (dispatched (tp ++ td ++ ta)).
    rewrite !dispatched_app, Hp1, Hd1, Ha1.
    repeat split.
    + rewrite !Forall_app. auto.
    + rewrite !Forall_app. repeat split;
        eapply Forall_impl; try eassumption; simpl; intros r Hr;
        [exists Pages|exists Metadata|exists Assets]; exact Hr.
Qed.

End Fanout.

(** ** [Promise.all] and the event loop *)

Lemma settle_quiet (p : Pending) (rp : reply) :
  quiet (InFlight p) ->
  dispatched (fst (settle p rp)) = [] /\ quiet (snd (settle p rp)).
Proof.
  unfold settle. simpl. intros Hq.
  destruct rp; [destruct (resume p) as [t [[]|e]]|]; simpl in *; auto.
Qed.

Lemma set_nth_Forall {A} (P : A -> Prop) (i : nat) (a : A) (l : list A) :
  P a -> Forall P l -> Forall P (set_nth i a l).
Proof.
  intros Ha Hl. revert i.
  induction Hl as [|x l Hx Hl IH]; intros [|i]; simpl; auto.
Qed.

Lemma step_quiet (st : Joined) (d : nat * reply) :
  Forall quiet (branches st) ->
  dispatched (fst (step st d)) = [] /\
  Forall quiet (branches (snd (step st d))).
Proof.
  intros Hq. unfold step.
  destruct (nth_error (branches st) (fst d)) as [[| |p]|] eqn:Hnth; auto.
  assert (Hp : quiet (InFlight p)).
  { rewrite Forall_forall in Hq. eapply Hq, nth_error_In; eassumption. }
  destruct (settle_quiet p (snd d) Hp) as [H1 H2].
  destruct (settle p (snd d)) as [t b]. simpl in *.
  split; auto. now apply set_nth_Forall.
Qed.

Lemma await_quiet (sched : list (nat * reply)) (st : Joined) :
  Forall quiet (branches st) ->
  dispatched (fst (fst (await st sched))) = [].
Proof.
  revert st. induction sched as [|d sched IH]; intros st Hq; simpl.
  - destruct (outcome st); reflexivity.
  - destruct (outcome st); [reflexivity|].
    destruct (step_quiet st d Hq) as [H1 H2].
    destruct (step st d) as [t st']. simpl in *.
    specialize (IH st' H2).
    destruct (await st' sched) as [[t' st''] rest]. simpl in *.
    now rewrite dispatched_app, H1, IH.
Qed.

Lemma drain_quiet (sched : list (nat * reply)) (st : Joined) :
  Forall quiet (branches st) ->
  dispatched (fst (drain st sched)) = [].
Proof.
  revert st. induction sched as [|d sched IH]; intros st Hq; simpl; auto.
  destruct (step_quiet st d Hq) as [H1 H2].
  destruct (step st d) as [t st']. simpl in *.
  specialize (IH st' H2).
  destruct (drain st' sched) as [t' st'']. simpl in *.
  now rewrite dispatched_app, H1, IH.
Qed.

Lemma set_nth_length {A} (i : nat) (a : A) (l : list A) :
  length (set_nth i a l) = length l.
Proof.
  revert i. induction l as [|x l IH]; intros [|i]; simpl; auto.
Qed.

Lemma nth_error_set_nth_same {A} (i : nat) (a x : A) (l : list A) :
  nth_error l i = Some x -> nth_error (set_nth i a l) i = Some a.
Proof.
  revert i. induction l as [|y l IH]; intros [|i]; simpl; try discriminate; auto.
Qed.

Lemma nth_error_set_nth_other {A} (i j : nat) (a : A) (l : list A) :
  i <> j -> nth_error (set_nth i a l) j = nth_error l j.
Proof.
  revert i j. induction l as [|y l IH]; intros [|i] [|j] Hne; simpl; auto;
    try congruence.
Qed.

Lemma first_rejected_Some (bs : list promise) (e : error) :
  first_rejected bs = Some e ->
  exists i, nth_error bs i = Some (Rejected e).
Proof.
  induction bs as [|b bs IH]; simpl; [discriminate|].
  destruct b as [|e'|p].
  - intros H. destruct (IH H) as [i Hi]. now exists (S i).
  - intros H. inversion H; subst. now exists 0.
  - intros H. destruct (IH H) as [i Hi]. now exists (S i).
Qed.


Lemma first_rejected_set_fulfilled (bs : list promise) (i : nat) :
  first_rejected bs = None ->
  first_rejected (set_nth i Fulfilled bs) = None.
Proof.
  revert i. induction bs as [|b bs IH]; intros [|i]; simpl; auto;
    destruct b; try discriminate; auto.
Qed.

Lemma all_fulfilled_nth (bs : list promise) (i : nat) (b : promise) :
  forallb is_fulfilled bs = true -> nth_error bs i = Some b -> b = Fulfilled.
Proof.
  rewrite forallb_forall. intros Hall Hnth.
  apply nth_error_In in Hnth. specialize (Hall b Hnth).
  destruct b; simpl in Hall; congruence.
Qed.

Lemma settle_cases (p : Pending) (rp : reply) :
  snd (settle p rp) = Fulfilled \/ exists e, snd (settle p rp) = Rejected e.
Proof.
  unfold settle.
  destruct rp; [destruct (resume p) as [t [[]|e]]|]; simpl; eauto.
Qed.

Lemma Promise_all_consistent (bs : list promise) :
  consistent (Promise_all bs).
Proof.
  unfold consistent, Promise_all. simpl.
  destruct (first_rejected bs) as [e|] eqn:Hrej.
  - now apply first_rejected_Some.
  - destruct (forallb is_fulfilled bs) eqn:Hall; auto.
Qed.

(** What [step] does to a branch in flight, whatever the state of the
    combined promise. *)
Lemma step_in_flight (st : Joined) (i : nat) (rp : reply) (p : Pending) :
  nth_error (branches st) i = Some (InFlight p) ->
  fst (step st (i, rp)) = fst (settle p rp) /\
  branches (snd (step st (i, rp)))
  = set_nth i (snd (settle p rp)) (branches st).
Proof.
  intros Hnth. unfold step. simpl. rewrite Hnth.
  destruct (settle p rp) as [t b]. auto.
Qed.

Lemma step_ignored (st : Joined) (d : nat * reply) :
  (forall p, nth_error (branches st) (fst d) <> Some (InFlight p)) ->
  step st d = ([], st).
Proof.
  intros Hnot. unfold step.
  destruct (nth_error (branches st) (fst d)) as [[| |p]|]; auto.
  now destruct (Hnot p).
Qed.

Lemma step_length (st : Joined) (d : nat * reply) :
  length (branches (snd (step st d))) = length (branches st).
Proof.
  unfold step.
  destruct (nth_error (branches st) (fst d)) as [[| |p]|]; auto.
  destruct (settle p (snd d)) as [t b]. simpl. apply set_nth_length.
Qed.

Lemma step_keeps (st : Joined) (d : nat * reply) (j : nat) (b : promise) :
  is_in_flight b = false ->
  nth_error (branches st) j = Some b ->
  nth_error (branches (snd (step st d))) j = Some b.
Proof.
  intros Hb Hj. unfold step.
  destruct (nth_error (branches st) (fst d)) as [[| |p]|] eqn:Hnth; auto.
  destruct (settle p (snd d)) as [t b']. simpl.
  rewrite nth_error_set_nth_other; auto.
  intros Heq. rewrite Heq, Hj in Hnth. inversion Hnth; subst. discriminate.
Qed.

Lemma step_consistent (st : Joined) (d : nat * reply) :
  consistent st -> consistent (snd (step st d)).
Proof.
  intros Hc. unfold step.
  destruct (nth_error (branches st) (fst d)) as [[| |p]|] eqn:Hnth; auto.
  pose proof (settle_cases p (snd d)) as Hcases.
  destruct (settle p (snd d)) as [t b]. simpl in Hcases.
  unfold consistent in *. simpl.
  destruct (outcome st) as [[[]|e]|].
  - apply (all_fulfilled_nth _ _ _ Hc) in Hnth. discriminate.
  - destruct Hc as [i Hi]. exists i.
    rewrite nth_error_set_nth_other; auto.
    intros Heq. rewrite Heq in Hnth. congruence.
  - destruct Hc as [Hrej Hall].
    destruct Hcases as [->|[e ->]].
    + destruct (forallb is_fulfilled (set_nth (fst d) Fulfilled (branches st)))
        eqn:Hall'; auto.
      split; auto. now apply first_rejected_set_fulfilled.
    + exists (fst d). eapply nth_error_set_nth_same; eassumption.
Qed.

Lemma await_settled (sched : list (nat * reply)) (st : Joined)
      (r : result unit) :
  outcome st = Some r -> await st sched = ([], st, sched).
Proof. intros Ho. destruct sched; simpl; now rewrite Ho. Qed.

Lemma await_consistent (sched : list (nat * reply)) (st : Joined) :
  consistent st -> consistent (snd (fst (await st sched))).
Proof.
  revert st. induction sched as [|d sched IH]; intros st Hc; simpl.
  - destruct (outcome st); assumption.
  - destruct (outcome st) eqn:Ho; [assumption|].
    pose proof (step_consistent st d Hc) as Hc'.
    destruct (step st d) as [t st']. simpl in Hc'.
    specialize (IH st' Hc').
    destruct (await st' sched) as [[t' st''] rest]. assumption.
Qed.

Lemma await_length (sched : list (nat * reply)) (st : Joined) :
  length (branches (snd (fst (await st sched)))) = length (branches st).
Proof.
  revert st. induction sched as [|d sched IH]; intros st; simpl.
  - destruct (outcome st); reflexivity.
  - destruct (outcome st); [reflexivity|].
    pose proof (step_length st d) as Hl.
    destruct (step st d) as [t st']. simpl in Hl.
    specialize (IH st').
    destruct (await st' sched) as [[t' st''] rest]. simpl in *. congruence.
Qed.



Section Requests.

Context {RawRelease : Type}.
Variable JSON_parse : string -> attempt value.
Variable yaml_parse : string -> attempt value.

(** The requests of [updateWeb] are those of its synchronous part: the
    replies and their order change nothing about what is sent. *)
Lemma updateWeb_dispatched (w : World RawRelease) (bnd : string)
      (sched : list (nat * reply)) :
  dispatched (fst (updateWeb JSON_parse yaml_parse w bnd sched))
  = dispatched (fst (fanout JSON_parse yaml_parse w bnd)).
Proof.
  unfold updateWeb.
  pose proof (fanout_launched JSON_parse yaml_parse w bnd) as Hl.
  destruct (fanout JSON_parse yaml_parse w bnd) as [t [bs|e]]; auto.
  destruct Hl as (_ & Hq & _).
  pose proof (await_quiet sched (Promise_all bs) Hq) as Ha.
  destruct (await (Promise_all bs) sched) as [[t' st] rest].
  simpl in *.
  destruct (outcome st) as [[[]|e]|]; simpl;
    rewrite ?dispatched_app, Ha, ?app_nil_r; reflexivity.
Qed.

End Requests.

(** ** Joining the branches *)

Section Join.

Context {RawRelease : Type}.
Variable JSON_parse : string -> attempt value.
Variable yaml_parse : string -> attempt value.

Implicit Types (w : World RawRelease).

Lemma updateWeb_outcome w (bnd : string) (sched : list (nat * reply))
      (t0 t1 : trace) (bs : list promise) (st : Joined)
      (rest : list (nat * reply)) :
  fanout JSON_parse yaml_parse w bnd = (t0, Ok bs) ->
  await (Promise_all bs) sched = (t1, st, rest) ->
  snd (updateWeb JSON_parse yaml_parse w bnd sched) = outcome st.
Proof.
  intros Hf Ha. unfold updateWeb. rewrite Hf, Ha.
  destruct (outcome st) as [[[]|e]|]; reflexivity.
Qed.




End Join.

Lemma assets_form_spec (bnd : string) (assets : list string) :
  assets_form bnd assets
  = mkForm bnd (map (fun img => mkPart (Path.basename img) img) assets).
Proof.
  unfold assets_form.
  assert (H : forall acc,
             fold_left (fun data img =>
                          append_part data (Path.basename img) img)
                       assets acc
             = mkForm (boundary acc)
                      (parts acc
                       ++ map (fun img => mkPart (Path.basename img) img)
                              assets)).
  { induction assets as [|img assets IH]; intros [b ps]; simpl.
    - now rewrite app_nil_r.
    - rewrite IH. simpl. now rewrite <- app_assoc. }
  apply H.
Qed.

(** ** Pages and assets *)

Section Uploads.

Context {RawRelease : Type}.
Variable JSON_parse : string -> attempt value.
Variable yaml_parse : string -> attempt value.

Implicit Types (w : World RawRelease).

Lemma parse_page_body w (page : string) (body : value) :
  is_page_body JSON_parse yaml_parse w page body ->
  parse_page JSON_parse yaml_parse w page = ([], Ok body).
Proof.
  intros (content & Hread & Hbody). unfold parse_page.
  rewrite Hread. run_sync.
  destruct Hbody as [[Hext Hparse]|[[Hext Hparse]|(Hj & Hy & ->)]].
  - rewrite Hext, Hparse. reflexivity.
  - rewrite Hext, Hparse. reflexivity.
  - apply String.eqb_neq in Hj, Hy. rewrite Hj, Hy. reflexivity.
Qed.

Lemma mapM_parse_pages w (pages : list string) (bodies : list value) :
  Forall2 (is_page_body JSON_parse yaml_parse w) pages bodies ->
  mapM (parse_page JSON_parse yaml_parse w) pages = ([], Ok bodies).
Proof.
  induction 1 as [|page body pages bodies Hbody _ IH]; auto.
  cbn [mapM]. rewrite (parse_page_body _ _ _ Hbody), IH. reflexivity.
Qed.

Lemma Forall_exists_Forall2 {A B} (R : A -> B -> Prop) (l : list A) :
  Forall (fun a => exists b, R a b) l -> exists l', Forall2 R l l'.
Proof.
  induction 1 as [|a l [b Hb] _ [l' IH]].
  - exists []. constructor.
  - exists (b :: l'). now constructor.
Qed.

(** C6. With the assets directory there and listing [names],
    [updateAssets] sends one PUT to [/pack/assets]; its multipart body
    has one part for each entry, named with the base name of the path
    of the entry, which is the name of the entry itself. *)
Theorem updateAssets_one_multipart_put
        w (api : Api) (bnd : string) (names : list string) :
  getApi w = Ok api ->
  existsSync w (local_path Assets) = true ->
  readdirSync w (local_path Assets) = Done names ->
  let form :=
    mkForm bnd
      (map (fun f =>
              mkPart (Path.basename (Path.join [local_path Assets; f]))
                     (Path.join [local_path Assets; f])) names) in
  updateAssets w bnd
  = ([Put (request (assets_upload api form))],
     Ok (InFlight (assets_upload api form))) /\
  dispatched (fst (updateAssets w bnd))
  = [mkRequest api "/pack/assets" (Multipart form)
               (Some (getHeaders form))] /\
  length (parts form) = length names /\
  (Forall (fun f => entry_name f = true) names ->
   map field (parts form) = names /\
   map stream (parts form) = map (fun f => "web/assets/" +++ f) names).
Proof.
  intros Hapi Hex Hdir form.
  assert (Hrun : updateAssets w bnd
                 = ([Put (request (assets_upload api form))],
                    Ok (InFlight (assets_upload api form)))).
  { unfold updateAssets. unfold local_path in Hex, Hdir.
    rewrite Hapi. run_sync. rewrite Hex, Hdir. run_sync.
    rewrite assets_form_spec, map_map. reflexivity. }
  split; [exact Hrun|]. split; [now rewrite Hrun|]. split.
  - unfold form. cbn [parts]. apply length_map.
  - intros Hnames. unfold form. cbn [parts]. rewrite !map_map.
    cbn [field stream]. unfold local_path.
    split.
    + rewrite <- (map_id names) at 2. apply map_ext_in.
      intros f Hf. rewrite Forall_forall in Hnames.
      now apply join_assets_entry, Hnames.
    + apply map_ext_in. intros f Hf. rewrite Forall_forall in Hnames.
      now apply join_assets_entry, Hnames.
Qed.

Lemma updateAssets_same_shape w (bnd1 bnd2 : string) :
  Forall2 same_shape (dispatched (fst (updateAssets w bnd1)))
                     (dispatched (fst (updateAssets w bnd2))).
Proof.
  unfold updateAssets.
  destruct (getApi w) as [api|e]; [|constructor].
  destruct (existsSync w (Path.join [webDir; "assets"])); [|constructor].
  destruct (readdirSync w (Path.join [webDir; "assets"])) as [names|m];
    [|constructor].
  run_sync. rewrite !assets_form_spec.
  repeat constructor.
Qed.

Lemma Forall2_same (l : list Request) :
  Forall (fun r => same_shape r r) l -> Forall2 same_shape l l.
Proof. induction 1; constructor; auto. Qed.

(** C9. Two invocations of [updateWeb] on the same files and inputs
    send the same requests in the same order, whatever the replies and
    their order in either invocation; the requests differ at most in
    the boundary drawn for the multipart body of the assets, and not at
    all when the same boundary is drawn. *)
Theorem updateWeb_requests_repeat
        w (bnd1 bnd2 : string) (sched1 sched2 : list (nat * reply)) :
  Forall2 same_shape
    (dispatched (fst (updateWeb JSON_parse yaml_parse w bnd1 sched1)))
    (dispatched (fst (updateWeb JSON_parse yaml_parse w bnd2 sched2))) /\
  (bnd1 = bnd2 ->
   dispatched (fst (updateWeb JSON_parse yaml_parse w bnd1 sched1))
   = dispatched (fst (updateWeb JSON_parse yaml_parse w bnd2 sched2))).
Proof.
  rewrite !updateWeb_dispatched. split; [|now intros ->].
  pose proof (updatePages_launched JSON_parse yaml_parse w) as Hp.
  destruct (fanout JSON_parse yaml_parse w bnd1) as [t1 r1] eqn:Hf1.
  destruct (fanout JSON_parse yaml_parse w bnd2) as [t2 r2] eqn:Hf2.
  destruct (fanout_inv _ _ _ _ _ _ Hf1)
    as [(tp1 & e1 & Hp1 & -> & ->)
       |(tp1 & pages1 & td1 & d1 & ta1 & a1 & Hp1 & Hd1 & Ha1 & -> & ->)];
    destruct (fanout_inv _ _ _ _ _ _ Hf2)
      as [(tp2 & e2 & Hp2 & -> & ->)
         |(tp2 & pages2 & td2 & d2 & ta2 & a2 & Hp2 & Hd2 & Ha2 & -> & ->)];
    rewrite Hp1 in Hp2; inversion Hp2; subst; clear Hp2;
    rewrite Hp1 in Hp; unfold launched_to in Hp; cbn [fst].
  - change (dispatched (StartGroup "Updating web" :: tp2))
      with (dispatched tp2). rewrite Hp. constructor.
  - destruct Hp as (Hsent & _ & Hshape).
    destruct (updateData_launched yaml_parse w)
      as (td & d & Hd & Hdsent & _ & Hdshape).
    rewrite Hd in Hd1, Hd2. inversion Hd1; inversion Hd2; subst.
    pose proof (updateAssets_same_shape w bnd1 bnd2) as Ha.
    rewrite Ha1, Ha2 in Ha. cbn [fst] in Ha.
    change (dispatched (StartGroup "Updating web" :: ?t))
      with (dispatched t).
    rewrite !dispatched_app.
    repeat apply Forall2_app; auto.
    + rewrite Hsent. apply Forall2_same.
      eapply Forall_impl; [|exact Hshape]. now intros r [_ Hr].
    + rewrite Hdsent. apply Forall2_same.
      eapply Forall_impl; [|exact Hdshape]. now intros r [_ Hr].
Qed.

End Uploads.

(** ** Where errors come from *)


Lemma filterM_error {RawRelease} (w : World RawRelease) (dir : string)
      (addons : list value) (e : error) :
  filterM (addon_present w dir) addons = Err e -> isAxiosError e = false.
Proof.
  induction addons as [|a addons IH]; simpl; [discriminate|].
  unfold addon_present at 1.
  destruct (addon_fileName a) as [fileName|e'] eqn:Hname.
  - destruct (filterM (addon_present w dir) addons); [discriminate|].
    intros H. inversion H; subst. now apply IH.
  - intros H. inversion H; subst. clear -Hname.
    unfold addon_fileName in Hname.
    repeat match type of Hname with
           | match ?x with _ => _ end = _ => destruct x
           end; inversion Hname; reflexivity.
Qed.

Section Locality.

Context {RawRelease : Type}.
Variable JSON_parse : string -> attempt value.
Variable yaml_parse : string -> attempt value.

Implicit Types (w : World RawRelease).







End Locality.

(** ** The top-level flow *)

Section Index.

Context {RawRelease : Type}.
Variable tag_name : RawRelease -> string.
Variable strip : RawRelease -> object.
Variable JSON_parse : string -> attempt value.
Variable yaml_parse : string -> attempt value.
Variable technicRelease : World RawRelease -> Async unit.

Implicit Types (w : World RawRelease) (c : Choices).

(** The three ways [createRelease] can end: an exception before any
    request, a release created, or the transport error of its request. *)
Lemma createRelease_cases w (rel : RawRelease) (dir : string) (rp : reply) :
  (exists e, createRelease tag_name strip JSON_parse w rel dir rp
             = ([], Err e) /\ isAxiosError e = false) \/
  (exists req,
      is_release_request req = true /\
      match rp with
      | Status2xx response =>
          exists m,
          createRelease tag_name strip JSON_parse w rel dir rp
          = ([Put req; Settled req rp; Info m], Ok response)
      | Failure m d =>
          createRelease tag_name strip JSON_parse w rel dir rp
          = ([Put req; Settled req rp], Err (AxiosError m (url req) d))
      end).
Proof.
  unfold createRelease.
  destruct (getApi w) as [api|e] eqn:Hapi.
  2:{ left. exists e. split; auto. eapply getApi_error; eassumption. }
  run_sync.
  destruct (existsSync w (Path.join [dir; "minecraftinstance.json"])).
  2:{ left. eexists. split; reflexivity. }
  run_sync.
  destruct (readFileSync w (Path.join [dir; "minecraftinstance.json"]))
    as [content|m].
  2:{ left. eexists. split; reflexivity. }
  run_sync. destruct (JSON_parse content) as [cfData|m].
  2:{ left. eexists. split; reflexivity. }
  run_sync. destruct (installedAddons_of cfData) as [addons|e] eqn:Haddons.
  2:{ left. exists e. split; auto. clear -Haddons.
      unfold installedAddons_of in Haddons.
      repeat match type of Haddons with
             | match ?x with _ => _ end = _ => destruct x
             end; inversion Haddons; reflexivity. }
  run_sync.
  destruct (filterM (addon_present w dir) addons) as [kept|e] eqn:Hfilter.
  2:{ left. exists e. split; auto. eapply filterM_error; eassumption. }
  right. eexists (mkRequest api ("/pack/release/" +++ tag_name rel) _ None).
  split; [reflexivity|].
  destruct rp; [eexists|]; reflexivity.
Qed.

Lemma createRelease_puts w (rel : RawRelease) (dir : string) (rp : reply)
      (i : nat) (r : Request) :
  nth_error (fst (createRelease tag_name strip JSON_parse w rel dir rp)) i
  = Some (Put r) ->
  is_release_request r = true.
Proof.
  destruct (createRelease_cases w rel dir rp)
    as [(e & -> & _)|(req & Hreq & Hrun)].
  - destruct i; discriminate.
  - destruct rp; [destruct Hrun as [m Hrun]|]; rewrite Hrun; intros H;
      destruct i as [|[|[|[|i]]]]; simpl in H; try discriminate;
      inversion H; subst; auto.
Qed.

(** C7. On a release event, every request of the fan-out of
    [updateWeb] comes in the trace after the moment the release request
    was settled with success: [web] runs [createRelease] to its end
    first, and runs [updateWeb] only when the release was created. *)
Theorem release_settles_before_fanout w c :
  eventName w = "release" ->
  let created :=
    createRelease tag_name strip JSON_parse w (release w) ""
                  (release_reply c) in
  let t := fst (web tag_name strip JSON_parse yaml_parse w c) in
  (exists t2,
      t = fst created ++ t2 /\
      match snd created with
      | Ok _ => t2 = fst (updateWeb JSON_parse yaml_parse w
                                    (form_boundary c) (schedule c))
      | Err _ => t2 = []
      end) /\
  Forall (fun r => is_release_request r = false)
         (dispatched (fst (updateWeb JSON_parse yaml_parse w
                                     (form_boundary c) (schedule c)))) /\
  (forall i r,
      nth_error t i = Some (Put r) ->
      is_release_request r = false ->
      exists j rq response,
        j < i /\
        nth_error t j = Some (Settled rq (Status2xx response)) /\
        is_release_request rq = true).
Proof.
  intros Hevent created t.
  assert (Hsplit : exists t2,
      t = fst created ++ t2 /\
      match snd created with
      | Ok _ => t2 = fst (updateWeb JSON_parse yaml_parse w
                                    (form_boundary c) (schedule c))
      | Err _ => t2 = []
      end).
  { subst t. unfold web. rewrite Hevent. cbn [String.eqb Ascii.eqb Bool.eqb].
    fold created. destruct created as [t1 [response|e]]; run_sync.
    - destruct (updateWeb JSON_parse yaml_parse w (form_boundary c)
                          (schedule c)) as [t2 r2].
      exists t2. rewrite app_nil_r. auto.
    - exists []. now rewrite app_nil_r. }
  split; [exact Hsplit|]. split.
  - rewrite updateWeb_dispatched.
    pose proof (fanout_launched JSON_parse yaml_parse w (form_boundary c))
      as Hl.
    destruct (fanout JSON_parse yaml_parse w (form_boundary c))
      as [t0 [bs|e]]; cbn [fst].
    + destruct Hl as (-> & _ & Hreq).
      eapply Forall_impl; [|exact Hreq].
      intros r [[| |] [Hurl _]]; unfold is_release_request;
        rewrite Hurl; reflexivity.
    + rewrite Hl. constructor.
  - destruct Hsplit as (t2 & Ht & Ht2). intros i r Hi Hr.
    rewrite Ht in Hi.
    destruct (Nat.lt_ge_cases i (length (fst created))) as [Hlt|Hge].
    + rewrite nth_error_app1 in Hi by assumption.
      apply createRelease_puts in Hi. congruence.
    + destruct (createRelease_cases w (release w) "" (release_reply c))
        as [(e & Hrun & _)|(req & Hreq & Hrun)].
      * fold created in Hrun. rewrite Hrun in Ht2, Hi. simpl in Ht2.
        subst t2. destruct i; discriminate.
      * fold created in Hrun.
        destruct (release_reply c) as [response|m d].
        -- destruct Hrun as [m Hrun]. rewrite Hrun in Hge, Ht.
           simpl in Hge. exists 1, req, response.
           repeat split; auto; [lia|]. now rewrite Ht.
        -- rewrite Hrun in Ht2, Hi, Hge. simpl in Ht2, Hge. subst t2.
           destruct i as [|[|i]]; [lia|lia|].
           simpl in Hi. destruct i; discriminate.
Qed.


End Index.

(** * Runs on the sample project *)

Example join_default_dir :
  Path.join [""; "minecraftinstance.json"] = "minecraftinstance.json".
Proof. reflexivity. Qed.

Example extname_samples :
  map Path.extname
      ["web/pages/a.json"; "b.yml"; ".hidden"; "x.tar.gz"; "dir.d/readme";
       ".."; "a."]
  = [".json"; ".yml"; ""; ".gz"; ""; ""; "."].
Proof. reflexivity. Qed.


Lemma createRelease_manifest_missing_witness :
  existsSync Sample.bare (Path.join [""; "minecraftinstance.json"]) = false /\
  exists e,
    createRelease Sample.tag Sample.strip_fields Sample.JSON_parse
                  Sample.bare Sample.v120 "" (Status2xx VNull)
    = ([], Err e) /\
    isAxiosError e = false /\
    dispatched
      (fst (createRelease Sample.tag Sample.strip_fields Sample.JSON_parse
              Sample.bare Sample.v120 "" (Status2xx VNull)))
    = [] /\
    (forall api, getApi Sample.bare = Ok api ->
                 e = Error "minecraftinstance.json file missing").
Proof.
  split; [reflexivity|].
  apply (createRelease_manifest_missing Sample.tag Sample.strip_fields
           Sample.JSON_parse Sample.bare Sample.v120 "" (Status2xx VNull)).
  reflexivity.
Defined.

Lemma createRelease_spread_overrides_witness :
  getApi Sample.released = Ok Sample.api /\
  existsSync Sample.released (Path.join [""; "minecraftinstance.json"])
  = true /\
  readFileSync Sample.released (Path.join [""; "minecraftinstance.json"])
  = Done Sample.manifest_text /\
  Sample.JSON_parse Sample.manifest_text = Done Sample.manifest /\
  installedAddons_of Sample.manifest = Ok Sample.addons /\
  Forall names_file Sample.addons /\
  NoDup (map fst (Sample.strip_all Sample.v120)) /\
  exists payload : object,
    dispatched
      (fst (createRelease Sample.tag Sample.strip_all Sample.JSON_parse
              Sample.released Sample.v120 "" (Status2xx VNull)))
    = [mkRequest Sample.api ("/pack/release/" +++ Sample.tag Sample.v120)
                 (Json (VObj payload)) None] /\
    payload = obj_spread
                [("installedAddons",
                  VArr (filter (shipped Sample.released "") Sample.addons))]
                (Sample.strip_all Sample.v120) /\
    (forall v, obj_get "installedAddons" (Sample.strip_all Sample.v120)
               = Some v ->
               obj_get "installedAddons" payload = Some v) /\
    (obj_get "installedAddons" (Sample.strip_all Sample.v120) = None ->
     obj_get "installedAddons" payload
     = Some (VArr (filter (shipped Sample.released "") Sample.addons))) /\
    (obj_get "installedAddons" payload
     = Some (VArr (filter (shipped Sample.released "") Sample.addons)) ->
     obj_get "installedAddons" (Sample.strip_all Sample.v120) = None \/
     obj_get "installedAddons" (Sample.strip_all Sample.v120)
     = Some (VArr (filter (shipped Sample.released "") Sample.addons))).
Proof.
  assert (Htyped : Forall names_file Sample.addons).
  { repeat constructor; eexists; reflexivity. }
  assert (Hkeys : NoDup (map fst (Sample.strip_all Sample.v120))).
  { repeat constructor; simpl; intuition discriminate. }
  repeat (split; [first [reflexivity | exact Htyped | exact Hkeys]|]).
  apply (createRelease_spread_overrides Sample.tag Sample.strip_all
           Sample.JSON_parse Sample.released Sample.v120 ""
           (Status2xx VNull) Sample.api Sample.manifest_text
           Sample.manifest Sample.addons);
    first [reflexivity | exact Htyped | exact Hkeys].
Defined.

(** The payload of the sample release: the override is visible. *)
Example release_payload_overridden :
  obj_get "installedAddons"
          (release_payload Sample.strip_all
             (filter (shipped Sample.released "") Sample.addons) Sample.v120)
  = Some (VStr "as released").
Proof. reflexivity. Qed.

Example release_payload_filtered :
  release_payload Sample.strip_fields
     (filter (shipped Sample.released "") Sample.addons) Sample.v120
  = [("installedAddons", VArr [Sample.addon 1 "mod1.jar"]);
     ("name", VStr "Spring update"); ("body", VStr "New mods");
     ("prerelease", VBool false)].
Proof. reflexivity. Qed.



(** The assets request is then settled, and [updateAssets] goes on to
    its [info], after [updateWeb] was rejected. *)
Example drain_after_rejection :
  drain Sample.at_rejection [(1, Status2xx (VObj []))]
  = ([Settled (request Sample.assets) (Status2xx (VObj []));
      Info [Lit "Updated assets"]],
     {| branches := [Rejected Sample.metadata_error; Fulfilled];
        outcome := Some (Err Sample.metadata_error) |}).
Proof. reflexivity. Qed.




(** The three pages of the sample project: three PUTs, the last one
    with the empty object. *)
Example three_pages_three_puts :
  map data (dispatched (fst (updatePages Sample.JSON_parse Sample.yaml_parse
                                         Sample.released)))
  = [Json (VObj [("title", VStr "Home")]);
     Json (VObj [("title", VStr "About")]);
     Json (VObj [])].
Proof. reflexivity. Qed.

(** A page that does not parse: no page is sent at all. *)
Example unparsable_page_fails_the_batch :
  updatePages Sample.JSON_parse Sample.yaml_parse
    (Sample.world_on
       [("web/pages", Sample.Dir ["home.json"; "notes.txt"]);
        ("web/pages/home.json", Sample.File "{");
        ("web/pages/notes.txt", Sample.File "to do")] "push")
  = ([], Err (Error "Unexpected token")).
Proof. reflexivity. Qed.

Lemma updateAssets_one_multipart_put_witness :
  getApi Sample.released = Ok Sample.api /\
  existsSync Sample.released (local_path Assets) = true /\
  readdirSync Sample.released (local_path Assets)
  = Done ["logo.png"; "icon.svg"] /\
  let form :=
    mkForm "B1"
      (map (fun f =>
              mkPart (Path.basename (Path.join [local_path Assets; f]))
                     (Path.join [local_path Assets; f]))
           ["logo.png"; "icon.svg"]) in
  updateAssets Sample.released "B1"
  = ([Put (request (assets_upload Sample.api form))],
     Ok (InFlight (assets_upload Sample.api form))) /\
  dispatched (fst (updateAssets Sample.released "B1"))
  = [mkRequest Sample.api "/pack/assets" (Multipart form)
               (Some (getHeaders form))] /\
  length (parts form) = length ["logo.png"; "icon.svg"] /\
  (Forall (fun f => entry_name f = true) ["logo.png"; "icon.svg"] ->
   map field (parts form) = ["logo.png"; "icon.svg"] /\
   map stream (parts form)
   = map (fun f => "web/assets/" +++ f) ["logo.png"; "icon.svg"]).
Proof.
  split; [reflexivity|]. split; [reflexivity|]. split; [reflexivity|].
  apply (updateAssets_one_multipart_put
           Sample.released Sample.api "B1" ["logo.png"; "icon.svg"]);
    reflexivity.
Defined.

(** The two assets of the sample project, in one multipart body. *)
Example two_assets_one_put :
  dispatched (fst (updateAssets Sample.released "B1"))
  = [mkRequest Sample.api "/pack/assets"
       (Multipart
          (mkForm "B1" [mkPart "logo.png" "web/assets/logo.png";
                        mkPart "icon.svg" "web/assets/icon.svg"]))
       (Some [("content-type", "multipart/form-data; boundary=B1")])].
Proof. reflexivity. Qed.

Lemma release_settles_before_fanout_witness :
  eventName Sample.released = "release" /\
  let created :=
    createRelease Sample.tag Sample.strip_fields Sample.JSON_parse
                  Sample.released (release Sample.released) ""
                  (release_reply Sample.choices) in
  let t := fst (web Sample.tag Sample.strip_fields Sample.JSON_parse
                    Sample.yaml_parse Sample.released Sample.choices) in
  (exists t2,
      t = fst created ++ t2 /\
      match snd created with
      | Ok _ => t2 = fst (updateWeb Sample.JSON_parse Sample.yaml_parse
                                    Sample.released
                                    (form_boundary Sample.choices)
                                    (schedule Sample.choices))
      | Err _ => t2 = []
      end) /\
  Forall (fun r => is_release_request r = false)
         (dispatched
            (fst (updateWeb Sample.JSON_parse Sample.yaml_parse
                            Sample.released
                            (form_boundary Sample.choices)
                            (schedule Sample.choices)))) /\
  (forall i r,
      nth_error t i = Some (Put r) ->
      is_release_request r = false ->
      exists j rq response,
        j < i /\
        nth_error t j = Some (Settled rq (Status2xx response)) /\
        is_release_request rq = true).
Proof.
  split; [reflexivity|].
  apply (release_settles_before_fanout
           Sample.tag Sample.strip_fields Sample.JSON_parse
           Sample.yaml_parse Sample.released Sample.choices).
  reflexivity.
Defined.

(** On the sample release the four kinds of request come in this
    order. *)
Example release_then_categories :
  map url (dispatched
             (fst (web Sample.tag Sample.strip_fields Sample.JSON_parse
                       Sample.yaml_parse Sample.released Sample.choices)))
  = ["/pack/release/v1.2.0"; "pack/page"; "pack/page"; "pack/page";
     "/pack"; "/pack/assets"].
Proof. reflexivity. Qed.

(** The transport error of the sample run: what is written, and how
    the chain ends. *)
Example transport_error_logged_and_rethrown :
  main Sample.tag Sample.strip_fields Sample.JSON_parse Sample.yaml_parse
       Sample.no_technic Sample.pushed Sample.choices
  = (Sample.launch
       ++ [Settled (request Sample.metadata) Sample.server_error;
           ConsoleError [Lit "API Request failed: "; Lit "/pack"];
           ConsoleError [Lit "   ";
                         Interp (Some (VStr "Internal Server Error"))]],
     Some (Err Sample.metadata_error)).
Proof. reflexivity. Qed.

(** An error of the program itself goes to [core.setFailed]. *)
Example missing_manifest_sets_failed :
  main Sample.tag Sample.strip_fields Sample.JSON_parse Sample.yaml_parse
       Sample.no_technic Sample.bare Sample.choices
  = ([SetFailed "minecraftinstance.json file missing"], Some (Ok tt)).
Proof. reflexivity. Qed.

(** The same counts hold in [updateWeb] as a whole on the sample
    project: three page requests, one metadata request, one assets
    request. *)
Example updateWeb_request_counts :
  map (fun c =>
         length (requests_to c
                   (fst (updateWeb Sample.JSON_parse Sample.yaml_parse
                                   Sample.released "B1" []))))
      [Pages; Metadata; Assets]
  = [3; 1; 1].
Proof. reflexivity. Qed.

(** With nothing to synchronise [updateWeb] warns three times and is
    fulfilled without any request. *)
Example updateWeb_nothing_to_do :
  updateWeb Sample.JSON_parse Sample.yaml_parse Sample.bare "B1" []
  = ([StartGroup "Updating web"; Warning "No pages defined";
      Warning "Skip updating pack data"; Warning "No assets defined";
      EndGroup],
     Some (Ok tt)).
Proof. reflexivity. Qed.

(** * Further properties *)

(** ** The shape of what the categories launch *)

Section Shapes.

Context {RawRelease : Type}.
Variable JSON_parse : string -> attempt value.
Variable yaml_parse : string -> attempt value.

Implicit Types (w : World RawRelease).

Lemma parse_page_cases w (page : string) :
  (exists body, parse_page JSON_parse yaml_parse w page = ([], Ok body)) \/
  (exists m, parse_page JSON_parse yaml_parse w page = ([], Err (Error m))).
Proof.
  unfold parse_page.
  destruct (readFileSync w page) as [content|m]; run_sync; eauto.
  destruct (String.eqb (Path.extname page) ".json");
    [destruct (JSON_parse content); run_sync; eauto|].
  destruct (String.eqb (Path.extname page) ".yml");
    [destruct (yaml_parse content)|]; run_sync; eauto.
Qed.

Lemma mapM_parse_cases w (pages : list string) :
  (exists bodies,
      mapM (parse_page JSON_parse yaml_parse w) pages = ([], Ok bodies)) \/
  (exists m,
      mapM (parse_page JSON_parse yaml_parse w) pages = ([], Err (Error m))).
Proof.
  induction pages as [|page pages IH].
  - left. now exists [].
  - cbn [mapM].
    destruct (parse_page_cases w page) as [[body ->]|[m ->]];
      [|right; now exists m].
    destruct IH as [[bodies ->]|[m ->]].
    + left. now exists (body :: bodies).
    + right. now exists m.
Qed.

(** The three ways [updatePages] ends when the client is there. *)
Lemma updatePages_cases w (api : Api) :
  getApi w = Ok api ->
  (existsSync w (local_path Pages) = false /\
   updatePages JSON_parse yaml_parse w
   = ([Warning "No pages defined"], Ok [])) \/
  (existsSync w (local_path Pages) = true /\
   exists m, updatePages JSON_parse yaml_parse w = ([], Err (Error m))) \/
  (existsSync w (local_path Pages) = true /\
   exists bodies,
     updatePages JSON_parse yaml_parse w
     = (map (fun body => Put (request (page_upload api body))) bodies,
        Ok (map (fun body => InFlight (page_upload api body)) bodies))).
Proof.
  intros Hapi. unfold updatePages, local_path. rewrite Hapi. run_sync.
  destruct (existsSync w (Path.join [webDir; "pages"])); run_sync; auto.
  right.
  destruct (readdirSync w (Path.join [webDir; "pages"])) as [names|m];
    run_sync; [|left; eauto].
  destruct (mapM_parse_cases w
              (map (fun f => Path.join [Path.join [webDir; "pages"]; f])
                   names)) as [[bodies ->]|[m ->]]; run_sync.
  - right. split; auto. exists bodies. now rewrite mapM_upload_page.
  - left. eauto.
Qed.

Lemma updateData_cases w (api : Api) :
  getApi w = Ok api ->
  (existsSync w (local_path Metadata) = false /\
   updateData yaml_parse w
   = ([Warning "Skip updating pack data"], Ok Fulfilled)) \/
  (existsSync w (local_path Metadata) = true /\
   exists m, updateData yaml_parse w = ([], Ok (Rejected (Error m)))) \/
  (existsSync w (local_path Metadata) = true /\
   exists packData,
     updateData yaml_parse w
     = ([Put (request (data_upload api packData))],
        Ok (InFlight (data_upload api packData)))).
Proof.
  intros Hapi. unfold updateData, local_path. rewrite Hapi. run_sync.
  destruct (existsSync w (Path.join [webDir; "pack.yml"])); run_sync; auto.
  right.
  destruct (readFileSync w (Path.join [webDir; "pack.yml"])) as [content|m];
    run_sync; [|left; eauto].
  destruct (yaml_parse content) as [packData|m]; run_sync;
    [right|left]; eauto.
Qed.

Lemma updateAssets_cases w (api : Api) (bnd : string) :
  getApi w = Ok api ->
  (existsSync w (local_path Assets) = false /\
   updateAssets w bnd = ([Warning "No assets defined"], Ok Fulfilled)) \/
  (existsSync w (local_path Assets) = true /\
   exists m, updateAssets w bnd = ([], Ok (Rejected (Error m)))) \/
  (existsSync w (local_path Assets) = true /\
   exists form,
     updateAssets w bnd
     = ([Put (request (assets_upload api form))],
        Ok (InFlight (assets_upload api form)))).
Proof.
  intros Hapi. unfold updateAssets, local_path. rewrite Hapi. run_sync.
  destruct (existsSync w (Path.join [webDir; "assets"])); run_sync; auto.
  right.
  destruct (readdirSync w (Path.join [webDir; "assets"])) as [names|m];
    run_sync; [right|left]; eauto.
Qed.

Lemma uploads_via (api : Api) (p : Pending) :
  uploads api p -> via (request p) = api.
Proof. now destruct 1. Qed.

(** The rest of an upload writes one [info] line at most, and fails
    only for a page whose document is [null]. *)
Lemma uploads_resume (api : Api) (p : Pending) :
  uploads api p ->
  (exists m, resume p = ([Info m], Ok tt)) \/
  (p = page_upload api VNull /\
   resume p = ([], Err (TypeError "Cannot read property 'title' of null"))).
Proof.
  destruct 1 as [content| |];
    [destruct content|..];
    first [ left; eexists; reflexivity | right; split; reflexivity ].
Qed.

Lemma page_branches (api : Api) (bodies : list value) :
  Forall (branch_from api)
         (map (fun body => InFlight (page_upload api body)) bodies).
Proof.
  induction bodies; constructor; auto. simpl. constructor.
Qed.

Lemma page_puts (api : Api) (bodies : list value) :
  Forall (web_event api)
         (map (fun body => Put (request (page_upload api body))) bodies).
Proof.
  induction bodies; constructor; auto. reflexivity.
Qed.

(** What [updateWeb] has done when it reaches its [await], for a client
    that is there: its events go through the client, and its branches
    are skips, local failures and uploads. *)
Lemma fanout_shape w (api : Api) (bnd : string) (t : trace)
      (r : result (list promise)) :
  getApi w = Ok api ->
  fanout JSON_parse yaml_parse w bnd = (t, r) ->
  Forall (web_event api) t /\
  existsb is_EndGroup t = false /\
  match r with
  | Ok bs => Forall (branch_from api) bs
  | Err e => exists m, e = Error m
  end.
Proof.
  intros Hapi Hf.
  destruct (fanout_inv _ _ _ _ _ _ Hf)
    as [(tp & e & Hp & -> & ->)
       |(tp & pages & td & d & ta & a & Hp & Hd & Ha & -> & ->)].
  - destruct (updatePages_cases w api Hapi)
      as [[_ Hp']|[[_ [m Hp']]|[_ [bodies Hp']]]];
      rewrite Hp' in Hp; inversion Hp; subst.
    repeat split; eauto. repeat constructor.
  - assert (Hpages : Forall (web_event api) tp /\
                     existsb is_EndGroup tp = false /\
                     Forall (branch_from api) pages).
    { destruct (updatePages_cases w api Hapi)
        as [[_ Hp']|[[_ [m Hp']]|[_ [bodies Hp']]]];
        rewrite Hp' in Hp; inversion Hp; subst.
      - repeat split; repeat constructor.
      - repeat split.
        + apply page_puts.
        + clear. induction bodies; auto.
        + apply page_branches. }
    assert (Hdata : Forall (web_event api) td /\
                    existsb is_EndGroup td = false /\ branch_from api d).
    { destruct (updateData_cases w api Hapi)
        as [[_ Hd']|[[_ [m Hd']]|[_ [v Hd']]]];
        rewrite Hd' in Hd; inversion Hd; subst;
        repeat split; repeat constructor; simpl; eauto. }
    assert (Hassets : Forall (web_event api) ta /\
                      existsb is_EndGroup ta = false /\ branch_from api a).
    { destruct (updateAssets_cases w api bnd Hapi)
        as [[_ Ha']|[[_ [m Ha']]|[_ [f Ha']]]];
        rewrite Ha' in Ha; inversion Ha; subst;
        repeat split; repeat constructor; simpl; eauto. }
    destruct Hpages as (P1 & P2 & P3), Hdata as (D1 & D2 & D3),
             Hassets as (A1 & A2 & A3).
    repeat split.
    + constructor; [exact I|]. rewrite !Forall_app. auto.
    + simpl. rewrite !existsb_app, P2, D2, A2. reflexivity.
    + rewrite Forall_app. auto.
Qed.

End Shapes.

(** ** The event loop on uploads *)

Lemma branch_from_pending (api : Api) (bs : list promise) :
  Forall (branch_from api) bs -> Forall (pending_from api) bs.
Proof.
  intros H. eapply Forall_impl; [|exact H]. intros [| |]; simpl; auto.
Qed.

Lemma settle_shape (api : Api) (p : Pending) (rp : reply) :
  uploads api p ->
  Forall (web_event api) (fst (settle p rp)) /\
  existsb is_EndGroup (fst (settle p rp)) = false /\
  is_in_flight (snd (settle p rp)) = false.
Proof.
  intros Hp. pose proof (uploads_via api p Hp) as Hvia.
  unfold settle.
  destruct rp as [response|m d]; [|repeat split; repeat constructor; auto].
  destruct (uploads_resume api p Hp) as [[m ->]|[_ ->]];
    repeat split; repeat constructor; auto.
Qed.

Lemma step_shape (api : Api) (st : Joined) (d : nat * reply) :
  Forall (pending_from api) (branches st) ->
  Forall (web_event api) (fst (step st d)) /\
  existsb is_EndGroup (fst (step st d)) = false /\
  Forall (pending_from api) (branches (snd (step st d))).
Proof.
  intros Hb. unfold step.
  destruct (nth_error (branches st) (fst d)) as [[| |p]|] eqn:Hnth;
    try (repeat split; auto; constructor).
  assert (Hp : uploads api p).
  { rewrite Forall_forall in Hb.
    exact (Hb _ (nth_error_In _ _ Hnth)). }
  destruct (settle_shape api p (snd d) Hp) as (H1 & H2 & H3).
  destruct (settle p (snd d)) as [t b]. simpl in *.
  repeat split; auto. apply set_nth_Forall; auto.
  destruct b; simpl; auto. discriminate.
Qed.

Lemma await_shape (api : Api) (sched : list (nat * reply)) (st : Joined) :
  Forall (pending_from api) (branches st) ->
  Forall (web_event api) (fst (fst (await st sched))) /\
  existsb is_EndGroup (fst (fst (await st sched))) = false.
Proof.
  revert st. induction sched as [|d sched IH]; intros st Hb; simpl.
  - destruct (outcome st); split; auto; constructor.
  - destruct (outcome st); [split; auto; constructor|].
    destruct (step_shape api st d Hb) as (H1 & H2 & H3).
    destruct (step st d) as [t st']. simpl in *.
    destruct (IH st' H3) as [I1 I2].
    destruct (await st' sched) as [[t' st''] rest]. simpl in *.
    split.
    + apply Forall_app. auto.
    + rewrite existsb_app, H2, I2. reflexivity.
Qed.

(** Running the event loop to the end of the schedule is the same as
    running it until the combined promise settles and then going on
    with what is left. *)
Lemma drain_await (sched : list (nat * reply)) (st : Joined) :
  drain st sched
  = (fst (fst (await st sched))
       ++ fst (drain (snd (fst (await st sched))) (snd (await st sched))),
     snd (drain (snd (fst (await st sched))) (snd (await st sched)))).
Proof.
  revert st. induction sched as [|d sched IH]; intros st.
  - simpl. destruct (outcome st); reflexivity.
  - cbn [await]. destruct (outcome st).
    + cbn [fst snd app]. now destruct (drain st (d :: sched)).
    + cbn [drain]. destruct (step st d) as [t st'].
      rewrite (IH st').
      destruct (await st' sched) as [[t' st''] rest]. cbn [fst snd].
      destruct (drain st'' rest) as [t2 st2]. cbn [fst snd].
      now rewrite app_assoc.
Qed.

Lemma step_settles (st : Joined) (d : nat * reply) (p : Pending) :
  nth_error (branches (snd (step st d))) (fst d) <> Some (InFlight p).
Proof.
  unfold step.
  destruct (nth_error (branches st) (fst d)) as [[| |q]|] eqn:Hnth;
    try (simpl; congruence).
  pose proof (settle_cases q (snd d)) as Hc.
  destruct (settle q (snd d)) as [t b]. simpl in *.
  erewrite nth_error_set_nth_same by eassumption.
  destruct Hc as [->|[e ->]]; discriminate.
Qed.

Lemma step_not_in_flight (st : Joined) (d : nat * reply) (j : nat) :
  (forall p, nth_error (branches st) j <> Some (InFlight p)) ->
  forall p, nth_error (branches (snd (step st d))) j <> Some (InFlight p).
Proof.
  intros Hj p. destruct (Nat.eq_dec (fst d) j) as [<-|Hne].
  - apply step_settles.
  - unfold step.
    destruct (nth_error (branches st) (fst d)) as [[| |q]|] eqn:Hnth;
      try apply Hj.
    destruct (settle q (snd d)) as [t b]. simpl.
    rewrite nth_error_set_nth_other by assumption. apply Hj.
Qed.

Lemma drain_not_in_flight (sched : list (nat * reply)) (st : Joined)
      (j : nat) :
  (forall p, nth_error (branches st) j <> Some (InFlight p)) ->
  forall p, nth_error (branches (snd (drain st sched))) j
            <> Some (InFlight p).
Proof.
  revert st. induction sched as [|d sched IH]; intros st Hj; simpl; auto.
  pose proof (step_not_in_flight st d j Hj) as Hs.
  destruct (step st d) as [t st']. simpl in Hs.
  specialize (IH st' Hs).
  destruct (drain st' sched) as [t' st'']. exact IH.
Qed.

Lemma drain_settles (sched : list (nat * reply)) (st : Joined) (i : nat) :
  In i (map fst sched) ->
  forall p, nth_error (branches (snd (drain st sched))) i
            <> Some (InFlight p).
Proof.
  revert st. induction sched as [|d sched IH]; intros st Hin; [easy|].
  simpl in Hin. simpl.
  pose proof (step_settles st d) as Hs.
  destruct (step st d) as [t st'] eqn:Hstep. simpl in Hs.
  destruct Hin as [<-|Hin].
  - pose proof (drain_not_in_flight sched st' (fst d) Hs) as Hd.
    destruct (drain st' sched) as [t' st'']. exact Hd.
  - specialize (IH st' Hin).
    destruct (drain st' sched) as [t' st'']. exact IH.
Qed.

Lemma await_rest_suffix (sched : list (nat * reply)) (st : Joined) :
  exists done, sched = done ++ snd (await st sched).
Proof.
  revert st. induction sched as [|d sched IH]; intros st; simpl.
  - exists []. now destruct (outcome st).
  - destruct (outcome st); [now exists []|].
    destruct (step st d) as [t st'].
    destruct (IH st') as [done Hdone].
    destruct (await st' sched) as [[t' st''] rest]. simpl in *.
    exists (d :: done). simpl. now f_equal.
Qed.

(** Every reply that is only successes, to branches that resume well,
    fulfils the combined promise once all the branches in flight have
    had theirs. *)
Lemma await_all_succeed (sched : list (nat * reply)) :
  forall st : Joined,
    consistent st ->
    Forall resumes_well (branches st) ->
    forallb (fun d => is_2xx (snd d)) sched = true ->
    (forall i p, nth_error (branches st) i = Some (InFlight p) ->
                 In i (map fst sched)) ->
    outcome (snd (fst (await st sched))) = Some (Ok tt).
Proof.
  assert (Hsettled : forall st r,
             consistent st -> Forall resumes_well (branches st) ->
             outcome st = Some r -> r = Ok tt).
  { intros st [[]|e] Hc Hw Ho; auto.
    unfold consistent in Hc. rewrite Ho in Hc. destruct Hc as [i Hi].
    rewrite Forall_forall in Hw.
    specialize (Hw _ (nth_error_In _ _ Hi)). destruct Hw. }
  induction sched as [|d sched IH]; intros st Hc Hw H2xx Hcover.
  - simpl. destruct (outcome st) as [r|] eqn:Ho.
    + simpl. rewrite Ho. f_equal. eapply Hsettled; eassumption.
    + exfalso. unfold consistent in Hc. rewrite Ho in Hc.
      destruct Hc as [_ Hnot].
      assert (Hall : forallb is_fulfilled (branches st) = true).
      { apply forallb_forall. intros b Hb.
        destruct (In_nth_error _ _ Hb) as [i Hi].
        rewrite Forall_forall in Hw. specialize (Hw b Hb).
        destruct b as [|e|p];
          [reflexivity | destruct Hw | destruct (Hcover i p Hi)]. }
      congruence.
  - cbn [await]. destruct (outcome st) as [r|] eqn:Ho.
    + simpl. rewrite Ho. f_equal. eapply Hsettled; eassumption.
    + simpl in H2xx. apply andb_true_iff in H2xx. destruct H2xx as [Hd H2xx].
      pose proof (step_consistent st d Hc) as Hc'.
      assert (Hnext :
        Forall resumes_well (branches (snd (step st d))) /\
        (forall i p,
            nth_error (branches (snd (step st d))) i = Some (InFlight p) ->
            In i (map fst sched))).
      { destruct (nth_error (branches st) (fst d)) as [b|] eqn:Hnth.
        2:{ rewrite step_ignored by (intros p; rewrite Hnth; discriminate).
            cbn [snd]. split; auto. intros i p Hi.
            destruct (Hcover i p Hi) as [Heq|]; auto.
            simpl in Heq. congruence. }
        destruct b as [|e|p].
        1,2: rewrite step_ignored by (intros p; rewrite Hnth; discriminate);
             cbn [snd]; split; auto; intros i p Hi;
             destruct (Hcover i p Hi) as [Heq|]; auto;
             simpl in Heq; congruence.
        destruct d as [i rp]. simpl in Hnth, Hd.
        destruct (step_in_flight st i rp p Hnth) as [_ Hbs].
        rewrite Hbs.
        assert (Hful : snd (settle p rp) = Fulfilled).
        { rewrite Forall_forall in Hw.
          specialize (Hw _ (nth_error_In _ _ Hnth)). simpl in Hw.
          unfold settle. destruct rp; [|discriminate].
          destruct (resume p) as [t r]. simpl in Hw. now subst r. }
        rewrite Hful. split.
        - apply set_nth_Forall; simpl; auto.
        - intros j q Hj. destruct (Nat.eq_dec i j) as [<-|Hne].
          + erewrite nth_error_set_nth_same in Hj by eassumption.
            discriminate.
          + rewrite nth_error_set_nth_other in Hj by assumption.
            destruct (Hcover j q Hj) as [Heq|]; auto.
            simpl in Heq. congruence. }
      destruct Hnext as [Hw' Hcover'].
      destruct (step st d) as [t st']. simpl in *.
      specialize (IH st' Hc' Hw' H2xx Hcover').
      destruct (await st' sched) as [[t' st''] rest]. exact IH.
Qed.

(** A branch whose rest fails never becomes fulfilled. *)
Lemma await_keeps_failing (sched : list (nat * reply)) (p : Pending)
      (e : error) (i : nat) :
  snd (resume p) = Err e ->
  forall st : Joined,
    nth_error (branches st) i = Some (InFlight p) \/
    (exists e', nth_error (branches st) i = Some (Rejected e')) ->
    nth_error (branches (snd (fst (await st sched)))) i
    <> Some Fulfilled.
Proof.
  intros Hres.
  induction sched as [|d sched IH]; intros st Hi.
  - simpl. destruct (outcome st); simpl;
      destruct Hi as [Hi|[e' Hi]]; rewrite Hi; discriminate.
  - cbn [await]. destruct (outcome st).
    + simpl. destruct Hi as [Hi|[e' Hi]]; rewrite Hi; discriminate.
    + assert (Hnext :
        nth_error (branches (snd (step st d))) i = Some (InFlight p) \/
        (exists e', nth_error (branches (snd (step st d))) i
                    = Some (Rejected e'))).
      { destruct Hi as [Hi|[e' Hi]].
        - destruct d as [j rp]. destruct (Nat.eq_dec j i) as [->|Hne].
          + destruct (step_in_flight st i rp p Hi) as [_ Hbs].
            rewrite Hbs. right.
            erewrite nth_error_set_nth_same by eassumption.
            unfold settle.
            destruct rp;
              [destruct (resume p) as [t r]; simpl in Hres; subst r|];
              simpl; eauto.
          + left. unfold step. simpl.
            destruct (nth_error (branches st) j) as [[| |q]|]; auto.
            destruct (settle q rp) as [t b]. simpl.
            now rewrite nth_error_set_nth_other.
        - right. exists e'. now apply step_keeps. }
      destruct (step st d) as [t st']. simpl in Hnext.
      specialize (IH st' Hnext).
      destruct (await st' sched) as [[t' st''] rest]. exact IH.
Qed.

(** ** Inputs of the action *)

Section Further.

Context {RawRelease : Type}.
Variable tag_name : RawRelease -> string.
Variable strip : RawRelease -> object.
Variable JSON_parse : string -> attempt value.
Variable yaml_parse : string -> attempt value.
Variable technicRelease : World RawRelease -> Async unit.

Implicit Types (w : World RawRelease) (c : Choices).

Lemma getApi_without_token w :
  inputs w "web_token" = "" ->
  getApi w = Err (Error "Input required and not supplied: web_token").
Proof. intros H. unfold getApi, getInput. now rewrite H. Qed.

Lemma fanout_without_client w (bnd : string) (e : error) :
  getApi w = Err e ->
  fanout JSON_parse yaml_parse w bnd
  = ([StartGroup "Updating web"], Err e).
Proof.
  intros H. unfold fanout, updatePages. rewrite H. reflexivity.
Qed.

(** X1. Without the [web_token] input nothing reaches the network:
    [createRelease] throws the input error at once, and [updateWeb] is
    rejected with it right after opening its log group, before the
    metadata and the assets are looked at. *)
Theorem no_token_no_request w c (rel : RawRelease) (dir bnd : string)
        (rp : reply) (sched : list (nat * reply)) :
  inputs w "web_token" = "" ->
  createRelease tag_name strip JSON_parse w rel dir rp
  = ([], Err (Error "Input required and not supplied: web_token")) /\
  updateWeb JSON_parse yaml_parse w bnd sched
  = ([StartGroup "Updating web"],
     Some (Err (Error "Input required and not supplied: web_token"))) /\
  dispatched (fst (web tag_name strip JSON_parse yaml_parse w c)) = [] /\
  snd (web tag_name strip JSON_parse yaml_parse w c)
  = Some (Err (Error "Input required and not supplied: web_token")).
Proof.
  intros Htoken. pose proof (getApi_without_token w Htoken) as Hapi.
  assert (Hrelease : forall rel dir rp,
             createRelease tag_name strip JSON_parse w rel dir rp
             = ([], Err (Error "Input required and not supplied: web_token"))).
  { intros. unfold createRelease. now rewrite Hapi. }
  assert (Hupdate : forall bnd sched,
             updateWeb JSON_parse yaml_parse w bnd sched
             = ([StartGroup "Updating web"],
                Some (Err (Error
                  "Input required and not supplied: web_token")))).
  { intros. unfold updateWeb.
    now rewrite (fanout_without_client w _ _ Hapi). }
  split; [apply Hrelease|]. split; [apply Hupdate|].
  unfold web. rewrite Hrelease, Hupdate.
  destruct (String.eqb (eventName w) "release"); split; reflexivity.
Qed.

(** X2. An action that is neither [web] nor [technic], once the white
    space at its two ends is taken off, does no work at all: the run
    ends with one [core.setFailed], which names the action, or says
    that the input is required when it is empty. *)
Theorem unknown_action_sets_failed w c (action : string) :
  trimmed_of (inputs w "action") action ->
  action <> "web" ->
  action <> "technic" ->
  main tag_name strip JSON_parse yaml_parse technicRelease w c
  = ([SetFailed
        (if Path.nonempty (inputs w "action")
         then "Invalid action '" +++ action +++ "'"
         else "Input required and not supplied: action")],
     Some (Ok tt)).
Proof.
  intros Htrim Hweb Htechnic. apply trim_trimmed in Htrim.
  unfold main, run, getInput. rewrite Htrim.
  destruct (Path.nonempty (inputs w "action")); simpl; [|reflexivity].
  apply String.eqb_neq in Hweb, Htechnic.
  rewrite Hweb, Htechnic. reflexivity.
Qed.

(** ** What the web flow writes and sends *)

Lemma createRelease_events w (api : Api) (rel : RawRelease) (dir : string)
      (rp : reply) :
  getApi w = Ok api ->
  Forall (web_event api)
         (fst (createRelease tag_name strip JSON_parse w rel dir rp)).
Proof.
  intros Hapi. unfold createRelease. rewrite Hapi. run_sync.
  destruct (existsSync w (Path.join [dir; "minecraftinstance.json"]));
    run_sync; [|constructor].
  destruct (readFileSync w (Path.join [dir; "minecraftinstance.json"]))
    as [content|m]; run_sync; [|constructor].
  destruct (JSON_parse content) as [cfData|m]; run_sync; [|constructor].
  destruct (installedAddons_of cfData) as [addons|e];
    run_sync; [|constructor].
  destruct (filterM (addon_present w dir) addons) as [kept|e];
    run_sync; [|constructor].
  destruct rp; repeat constructor.
Qed.

Lemma updateWeb_events w (api : Api) (bnd : string)
      (sched : list (nat * reply)) :
  getApi w = Ok api ->
  Forall (web_event api) (fst (updateWeb JSON_parse yaml_parse w bnd sched)).
Proof.
  intros Hapi. unfold updateWeb.
  destruct (fanout JSON_parse yaml_parse w bnd) as [t0 r] eqn:Hf.
  destruct (fanout_shape _ _ w api bnd t0 r Hapi Hf) as (H1 & _ & H3).
  destruct r as [bs|e]; [|exact H1].
  pose proof (await_shape api sched (Promise_all bs)
                (branch_from_pending api bs H3)) as [Ha _].
  destruct (await (Promise_all bs) sched) as [[t1 st] rest]. simpl in Ha.
  destruct (outcome st) as [[[]|e]|]; cbn [fst];
    rewrite ?Forall_app; repeat split; auto; repeat constructor.
Qed.

Lemma web_events w c (api : Api) :
  getApi w = Ok api ->
  Forall (web_event api)
         (fst (web tag_name strip JSON_parse yaml_parse w c)).
Proof.
  intros Hapi. unfold web.
  pose proof (createRelease_events w api (release w) "" (release_reply c)
                Hapi) as Hr.
  pose proof (updateWeb_events w api (form_boundary c) (schedule c) Hapi)
    as Hu.
  destruct (updateWeb JSON_parse yaml_parse w (form_boundary c)
                      (schedule c)) as [t2 r2].
  destruct (String.eqb (eventName w) "release"); run_sync; [|exact Hu].
  destruct (createRelease tag_name strip JSON_parse w (release w) ""
                          (release_reply c)) as [t1 [v|e]];
    run_sync; cbn [fst] in *; rewrite ?app_nil_r; auto.
  apply Forall_app. auto.
Qed.

Lemma web_without_client w c (e : error) :
  getApi w = Err e ->
  snd (web tag_name strip JSON_parse yaml_parse w c) = Some (Err e).
Proof.
  intros Hapi. unfold web, createRelease, updateWeb.
  rewrite (fanout_without_client w _ _ Hapi), Hapi.
  destruct (String.eqb (eventName w) "release"); reflexivity.
Qed.

Lemma getApi_trimmed w (token base : string) :
  inputs w "web_token" <> "" ->
  trimmed_of (inputs w "web_token") token ->
  trimmed_of (inputs w "api") base ->
  getApi w
  = Ok {| baseURL := base;
          headers := [("Content-Type", "application/json");
                      ("Authorization", "Bearer " +++ token)] |}.
Proof.
  intros Hthere Htoken Hbase.
  apply trim_trimmed in Htoken, Hbase.
  unfold getApi, getInput. rewrite Htoken, Hbase.
  destruct (inputs w "web_token"); [congruence|reflexivity].
Qed.

(** X3. With a [web_token], every request of the web flow, the release
    request included, goes through one client: its base URL is the
    [api] input and its bearer token the [web_token] input, each
    without the white space at its two ends.  The functions of
    [web.ts] write only to the log of the action: no [console.error],
    no [core.setFailed]. *)
Theorem web_uses_the_client w c (token base : string) :
  inputs w "web_token" <> "" ->
  trimmed_of (inputs w "web_token") token ->
  trimmed_of (inputs w "api") base ->
  let api := {| baseURL := base;
                headers := [("Content-Type", "application/json");
                            ("Authorization", "Bearer " +++ token)] |} in
  Forall (web_event api)
         (fst (web tag_name strip JSON_parse yaml_parse w c)) /\
  Forall (fun r => via r = api)
         (dispatched (fst (web tag_name strip JSON_parse yaml_parse w c))).
Proof.
  intros Hthere Htoken Hbase api.
  pose proof (getApi_trimmed w token base Hthere Htoken Hbase) as Hapi.
  fold api in Hapi.
  pose proof (web_events w c api Hapi) as Hev.
  split; [exact Hev|].
  induction Hev as [|ev t Hev _ IH]; [constructor|].
  destruct ev; simpl; auto.
Qed.

(** X4. [updateWeb] closes its log group exactly when it is fulfilled,
    as its last event; a rejected or pending [updateWeb] leaves the
    group open. *)
Theorem updateWeb_closes_group_on_success
        w (bnd : string) (sched : list (nat * reply)) :
  (snd (updateWeb JSON_parse yaml_parse w bnd sched) = Some (Ok tt) ->
   exists t,
     fst (updateWeb JSON_parse yaml_parse w bnd sched) = t ++ [EndGroup] /\
     existsb is_EndGroup t = false) /\
  (snd (updateWeb JSON_parse yaml_parse w bnd sched) <> Some (Ok tt) ->
   existsb is_EndGroup (fst (updateWeb JSON_parse yaml_parse w bnd sched))
   = false).
Proof.
  unfold updateWeb.
  destruct (getApi w) as [api|e] eqn:Hapi.
  2:{ rewrite (fanout_without_client w _ _ Hapi). split; [discriminate|auto]. }
  destruct (fanout JSON_parse yaml_parse w bnd) as [t0 r] eqn:Hf.
  destruct (fanout_shape _ _ w api bnd t0 r Hapi Hf) as (_ & H2 & H3).
  destruct r as [bs|e]; [|split; [discriminate|auto]].
  pose proof (await_shape api sched (Promise_all bs)
                (branch_from_pending api bs H3)) as [_ Ha].
  destruct (await (Promise_all bs) sched) as [[t1 st] rest]. simpl in Ha.
  destruct (outcome st) as [[[]|e]|]; cbn [fst snd]; split;
    try discriminate; try congruence;
    try (intros _; rewrite existsb_app, H2, Ha; reflexivity).
  intros _. exists (t0 ++ t1). split; [now rewrite app_assoc|].
  rewrite existsb_app, H2, Ha. reflexivity.
Qed.

(** X5. When no branch of [updateWeb] failed before the first reply,
    no page is [null], every reply is a 2xx, and every request in
    flight gets one, [updateWeb] is fulfilled, in whatever order the
    replies come. *)
Theorem updateWeb_fulfilled_when_all_succeed
        w (bnd : string) (sched : list (nat * reply)) (bs : list promise) :
  snd (fanout JSON_parse yaml_parse w bnd) = Ok bs ->
  Forall resumes_well bs ->
  forallb (fun d => is_2xx (snd d)) sched = true ->
  (forall i p, nth_error bs i = Some (InFlight p) ->
               In i (map fst sched)) ->
  snd (updateWeb JSON_parse yaml_parse w bnd sched) = Some (Ok tt).
Proof.
  intros Hf Hw H2xx Hcover.
  destruct (fanout JSON_parse yaml_parse w bnd) as [t0 r] eqn:Hfan.
  simpl in Hf. subst r.
  pose proof (await_all_succeed sched (Promise_all bs)
                (Promise_all_consistent bs) Hw H2xx Hcover) as Ho.
  destruct (await (Promise_all bs) sched) as [[t1 st] rest] eqn:Ha.
  rewrite (updateWeb_outcome _ _ _ _ _ _ _ _ _ _ Hfan Ha). exact Ho.
Qed.


(** ** Pages, metadata and assets that fail locally *)

Lemma mapM_Ok_Forall2 {A B} (f : A -> Sync B) (l : list A) (t : trace)
      (bs : list B) :
  mapM f l = (t, Ok bs) ->
  Forall2 (fun a b => exists ta, f a = (ta, Ok b)) l bs.
Proof.
  revert t bs. induction l as [|a l IH]; intros t bs; simpl.
  - intros H. inversion H. constructor.
  - intros H. apply bind_inv in H.
    destruct H as [(e & _ & Heq)|(t1 & b & t2 & Hfa & Hrest & ->)];
      [discriminate|].
    apply bind_inv in Hrest.
    destruct Hrest as [(e & _ & Heq)|(t3 & bs' & t4 & Hm & Hret & ->)];
      [discriminate|].
    inversion Hret; subst. constructor; eauto.
Qed.

Lemma parse_page_inv w (page : string) (t : trace) (body : value) :
  parse_page JSON_parse yaml_parse w page = (t, Ok body) ->
  is_page_body JSON_parse yaml_parse w page body.
Proof.
  unfold parse_page, is_page_body.
  destruct (readFileSync w page) as [content|m]; run_sync; [|discriminate].
  intros H. exists content. split; auto.
  destruct (String.eqb_spec (Path.extname page) ".json") as [Hj|Hj].
  - left. split; auto.
    destruct (JSON_parse content); inversion H; reflexivity.
  - destruct (String.eqb_spec (Path.extname page) ".yml") as [Hy|Hy].
    + right. left. split; auto.
      destruct (yaml_parse content); inversion H; reflexivity.
    + right. right. inversion H. auto.
Qed.

Lemma first_rejected_pages (api : Api) (bodies : list value)
      (rest : list promise) :
  first_rejected
    (map (fun body => InFlight (page_upload api body)) bodies ++ rest)
  = first_rejected rest.
Proof. induction bodies; simpl; auto. Qed.

(** X6. A page whose document is [null] is sent like any other page,
    and then [updateWeb] cannot be fulfilled any more, whatever the
    replies: the function that uploaded the page fails on
    [content.title] once its request has succeeded. *)
Theorem null_page_is_sent_and_fails
        w (api : Api) (names : list string) (bodies : list value)
        (bnd : string) (sched : list (nat * reply)) :
  getApi w = Ok api ->
  existsSync w (local_path Pages) = true ->
  readdirSync w (local_path Pages) = Done names ->
  Forall2 (fun f body =>
             is_page_body JSON_parse yaml_parse w
                          (Path.join [local_path Pages; f]) body)
          names bodies ->
  In VNull bodies ->
  In (mkRequest api "pack/page" (Json VNull) None)
     (dispatched (fst (updateWeb JSON_parse yaml_parse w bnd sched))) /\
  snd (updateWeb JSON_parse yaml_parse w bnd sched) <> Some (Ok tt) /\
  forall response,
    settle (page_upload api VNull) (Status2xx response)
    = ([Settled (mkRequest api "pack/page" (Json VNull) None)
                (Status2xx response)],
       Rejected (TypeError "Cannot read property 'title' of null")).
Proof.
  intros Hapi Hex Hdir Hbodies Hnull.
  assert (Hpages : updatePages JSON_parse yaml_parse w
                   = (map (fun body => Put (request (page_upload api body)))
                          bodies,
                      Ok (map (fun body => InFlight (page_upload api body))
                              bodies))).
  { unfold updatePages. unfold local_path in Hex, Hdir.
    rewrite Hapi. run_sync. rewrite Hex, Hdir. run_sync.
    rewrite (mapM_parse_pages _ _ w _ bodies).
    - run_sync. now rewrite mapM_upload_page.
    - clear -Hbodies. induction Hbodies; constructor; auto. }
  destruct (fanout JSON_parse yaml_parse w bnd) as [t0 r] eqn:Hf.
  destruct (fanout_inv _ _ _ _ _ _ Hf)
    as [(tp & e & Hp & -> & ->)
       |(tp & pages & td & d & ta & a & Hp & Hd & Ha & -> & ->)];
    rewrite Hpages in Hp; inversion Hp; subst tp pages; clear Hp.
  set (bs := map (fun body => InFlight (page_upload api body)) bodies
             ++ [d; a]) in *.
  assert (Hin : In (InFlight (page_upload api VNull)) bs).
  { apply in_or_app. left.
    apply (in_map (fun body => InFlight (page_upload api body))) in Hnull.
    exact Hnull. }
  split; [|split; [|reflexivity]].
  - rewrite updateWeb_dispatched, Hf. cbn [fst].
    pose proof (fanout_launched JSON_parse yaml_parse w bnd) as Hl.
    rewrite Hf in Hl. destruct Hl as (-> & _ & _).
    unfold awaited. apply in_flat_map.
    exists (InFlight (page_upload api VNull)). split; auto. now left.
  - destruct (In_nth_error _ _ Hin) as [i Hi].
    destruct (await (Promise_all bs) sched) as [[t1 st] rest] eqn:Haw.
    rewrite (updateWeb_outcome _ _ _ _ _ _ _ _ _ _ Hf Haw).
    intros Ho.
    pose proof (await_consistent sched _ (Promise_all_consistent bs)) as Hc.
    rewrite Haw in Hc. simpl in Hc. unfold consistent in Hc.
    rewrite Ho in Hc.
    pose proof (await_keeps_failing sched (page_upload api VNull)
                  (TypeError "Cannot read property 'title' of null") i
                  eq_refl (Promise_all bs) (or_introl Hi)) as Hkeep.
    rewrite Haw in Hkeep. simpl in Hkeep.
    destruct (nth_error (branches st) i) as [b|] eqn:Hb.
    + apply (all_fulfilled_nth _ _ _ Hc) in Hb. congruence.
    + pose proof (await_length sched (Promise_all bs)) as Hlen.
      rewrite Haw in Hlen. simpl in Hlen.
      apply nth_error_None in Hb.
      assert (Hlt : i < length bs)
        by (apply nth_error_Some; congruence).
      lia.
Qed.

(** X7. Metadata that is there and does not parse rejects [updateWeb]
    with the error of the parser before any reply is awaited.  By then
    the pages and the assets have been sent: their requests are in the
    trace, and none is sent for the metadata. *)
Theorem broken_metadata_rejects_after_sending
        w (api : Api) (content m : string) (tp : trace)
        (pages : list promise) (bnd : string) (sched : list (nat * reply)) :
  getApi w = Ok api ->
  updatePages JSON_parse yaml_parse w = (tp, Ok pages) ->
  existsSync w (local_path Metadata) = true ->
  readFileSync w (local_path Metadata) = Done content ->
  yaml_parse content = Threw m ->
  updateWeb JSON_parse yaml_parse w bnd sched
  = (StartGroup "Updating web" :: tp ++ fst (updateAssets w bnd),
     Some (Err (Error m))) /\
  dispatched (fst (updateWeb JSON_parse yaml_parse w bnd sched))
  = awaited pages ++ dispatched (fst (updateAssets w bnd)) /\
  requests_to Metadata (fst (updateWeb JSON_parse yaml_parse w bnd sched))
  = [].
Proof.
  intros Hapi Hpages Hex Hread Hparse.
  assert (Hdata : updateData yaml_parse w = ([], Ok (Rejected (Error m)))).
  { unfold updateData. unfold local_path in Hex, Hread.
    rewrite Hapi. run_sync. rewrite Hex, Hread. run_sync.
    rewrite Hparse. reflexivity. }
  destruct (updateAssets_launched w bnd)
    as (ta & a & Ha & Ha1 & _ & Ha3).
  assert (Hf : fanout JSON_parse yaml_parse w bnd
               = (StartGroup "Updating web" :: tp ++ ta,
                  Ok (pages ++ [Rejected (Error m); a]))).
  { unfold fanout. run_sync. rewrite Hpages. run_sync.
    rewrite Hdata. run_sync. rewrite Ha. run_sync.
    now rewrite app_nil_r. }
  assert (Hfirst : first_rejected (pages ++ [Rejected (Error m); a])
                   = Some (Error m)).
  { destruct (updatePages_cases JSON_parse yaml_parse w api Hapi)
      as [[_ Hp]|[[_ [m' Hp]]|[_ [bodies Hp]]]];
      rewrite Hp in Hpages; inversion Hpages; subst; auto.
    now rewrite first_rejected_pages. }
  assert (Hrun : updateWeb JSON_parse yaml_parse w bnd sched
                 = (StartGroup "Updating web" :: tp ++ ta,
                    Some (Err (Error m)))).
  { unfold updateWeb. rewrite Hf.
    assert (Ho : outcome (Promise_all (pages ++ [Rejected (Error m); a]))
                 = Some (Err (Error m))).
    { unfold Promise_all. simpl. now rewrite Hfirst. }
    rewrite (await_settled sched _ _ Ho). rewrite Ho.
    now rewrite app_nil_r. }
  pose proof (updatePages_launched JSON_parse yaml_parse w) as Hpl.
  rewrite Hpages in Hpl. destruct Hpl as (Hp1 & _ & Hp3).
  rewrite Hrun, Ha. cbn [fst].
  split; [reflexivity|].
  assert (Hsent : dispatched (StartGroup "Updating web" :: tp ++ ta)
                  = awaited pages ++ dispatched ta).
  { change (dispatched (StartGroup "Updating web" :: tp ++ ta))
      with (dispatched (tp ++ ta)).
    now rewrite dispatched_app, Hp1. }
  split; [exact Hsent|].
  unfold requests_to. rewrite Hsent, filter_app, Ha1.
  assert (Hnone : forall (k : category) l,
             k <> Metadata -> Forall (request_to k) l ->
             filter (fun r => String.eqb (url r) (endpoint Metadata)) l = []).
  { intros k l Hk Hl. induction Hl as [|r l [Hr _] _ IH]; auto.
    cbn [filter]. rewrite Hr.
    destruct k; [exact IH|congruence|exact IH]. }
  rewrite (Hnone Pages), (Hnone Assets); auto; discriminate.
Qed.

(** X8. One page that cannot be read or parsed stops [updateWeb]
    before anything is sent: no page goes out, and the metadata and the
    assets are not even looked at. *)
Theorem broken_page_sends_nothing
        w (api : Api) (names : list string) (bnd : string)
        (sched : list (nat * reply)) :
  getApi w = Ok api ->
  existsSync w (local_path Pages) = true ->
  readdirSync w (local_path Pages) = Done names ->
  Exists (fun f => forall body,
              ~ is_page_body JSON_parse yaml_parse w
                             (Path.join [local_path Pages; f]) body)
         names ->
  exists m,
    updateWeb JSON_parse yaml_parse w bnd sched
    = ([StartGroup "Updating web"], Some (Err (Error m))).
Proof.
  intros Hapi Hex Hdir Hbad.
  set (pages := map (fun f => Path.join [Path.join [webDir; "pages"]; f])
                    names).
  destruct (mapM_parse_cases JSON_parse yaml_parse w pages)
    as [[bodies Hok]|[m Herr]].
  - exfalso. apply mapM_Ok_Forall2 in Hok.
    apply Exists_exists in Hbad. destruct Hbad as (f & Hf & Hnot).
    assert (Hall : forall page, In page pages ->
               exists body,
                 is_page_body JSON_parse yaml_parse w page body).
    { clear -Hok. induction Hok as [|page body l l' [ta Hp] _ IH];
        intros page' Hin; simpl in Hin; [contradiction|].
      destruct Hin as [<-|Hin]; eauto.
      exists body. eapply parse_page_inv; eassumption. }
    destruct (Hall (Path.join [local_path Pages; f])) as [body Hbody].
    + unfold pages, local_path.
      apply (in_map (fun f => Path.join [Path.join [webDir; "pages"]; f])).
      exact Hf.
    + exact (Hnot body Hbody).
  - exists m. unfold updateWeb, fanout, updatePages.
    unfold local_path in Hex, Hdir.
    rewrite Hapi. run_sync. rewrite Hex, Hdir. run_sync.
    fold pages. rewrite Herr. reflexivity.
Qed.

(** X11. A directory that is there and empty: for the pages nothing
    happens, not even a warning; for the assets a request with an empty
    form is still sent. *)
Theorem empty_directories_differ
        w (api : Api) (bnd : string) :
  getApi w = Ok api ->
  existsSync w (local_path Pages) = true ->
  readdirSync w (local_path Pages) = Done [] ->
  existsSync w (local_path Assets) = true ->
  readdirSync w (local_path Assets) = Done [] ->
  updatePages JSON_parse yaml_parse w = ([], Ok []) /\
  dispatched (fst (updateAssets w bnd))
  = [mkRequest api "/pack/assets" (Multipart (mkForm bnd []))
               (Some [("content-type",
                       "multipart/form-data; boundary=" +++ bnd)])] /\
  requests_to Pages (fst (fanout JSON_parse yaml_parse w bnd)) = [] /\
  length (requests_to Assets (fst (fanout JSON_parse yaml_parse w bnd))) = 1.
Proof.
  intros Hapi Hpe Hpd Hae Had.
  assert (Hpages : updatePages JSON_parse yaml_parse w = ([], Ok [])).
  { unfold updatePages. unfold local_path in Hpe, Hpd.
    rewrite Hapi. run_sync. now rewrite Hpe, Hpd. }
  assert (Hassets : updateAssets w bnd
                    = ([Put (request (assets_upload api (mkForm bnd [])))],
                       Ok (InFlight (assets_upload api (mkForm bnd []))))).
  { unfold updateAssets. unfold local_path in Hae, Had.
    rewrite Hapi. run_sync. now rewrite Hae, Had. }
  split; [exact Hpages|]. split; [now rewrite Hassets|].
  destruct (updateData_cases yaml_parse w api Hapi)
    as [[_ Hd]|[[_ [m Hd]]|[_ [v Hd]]]];
    unfold fanout; run_sync; rewrite Hpages; run_sync;
    rewrite Hd; run_sync; rewrite Hassets; split; reflexivity.
Qed.

(** ** The release request *)

(** The ways [createRelease] ends, with the request it sends. *)
Lemma createRelease_outcomes w (rel : RawRelease) (dir : string)
      (rp : reply) :
  (exists e, createRelease tag_name strip JSON_parse w rel dir rp
             = ([], Err e) /\ isAxiosError e = false) \/
  (exists api payload,
      match rp with
      | Status2xx response =>
          createRelease tag_name strip JSON_parse w rel dir rp
          = ([Put (mkRequest api ("/pack/release/" +++ tag_name rel)
                             (Json (VObj payload)) None);
              Settled (mkRequest api ("/pack/release/" +++ tag_name rel)
                                 (Json (VObj payload)) None) rp;
              Info [Lit ("Created release for version '"
                         +++ tag_name rel +++ "'")]],
             Ok response)
      | Failure m d =>
          createRelease tag_name strip JSON_parse w rel dir rp
          = ([Put (mkRequest api ("/pack/release/" +++ tag_name rel)
                             (Json (VObj payload)) None);
              Settled (mkRequest api ("/pack/release/" +++ tag_name rel)
                                 (Json (VObj payload)) None) rp],
             Err (AxiosError m ("/pack/release/" +++ tag_name rel) d))
      end).
Proof.
  unfold createRelease.
  destruct (getApi w) as [api|e] eqn:Hapi.
  2:{ left. exists e. split; auto. eapply getApi_error; eassumption. }
  run_sync.
  destruct (existsSync w (Path.join [dir; "minecraftinstance.json"])).
  2:{ left. eexists. split; reflexivity. }
  run_sync.
  destruct (readFileSync w (Path.join [dir; "minecraftinstance.json"]))
    as [content|m].
  2:{ left. eexists. split; reflexivity. }
  run_sync. destruct (JSON_parse content) as [cfData|m].
  2:{ left. eexists. split; reflexivity. }
  run_sync. destruct (installedAddons_of cfData) as [addons|e] eqn:Haddons.
  2:{ left. exists e. split; auto. clear -Haddons.
      unfold installedAddons_of in Haddons.
      repeat match type of Haddons with
             | match ?x with _ => _ end = _ => destruct x
             end; inversion Haddons; reflexivity. }
  run_sync.
  destruct (filterM (addon_present w dir) addons) as [kept|e] eqn:Hfilter.
  2:{ left. exists e. split; auto. eapply filterM_error; eassumption. }
  right. exists api, (release_payload strip kept rel).
  destruct rp; reflexivity.
Qed.

(** X10. [createRelease] sends one request at most, a PUT to
    [/pack/release/<tag>].  It returns exactly when that request got a
    2xx reply, and then returns the body of the reply after logging
    the tag; a transport error is the failure of that request; any
    other error is thrown before the request, with an empty trace. *)
Theorem createRelease_one_request w (rel : RawRelease) (dir : string)
        (rp : reply) :
  (dispatched (fst (createRelease tag_name strip JSON_parse w rel dir rp))
   = [] \/
   exists api payload,
     dispatched (fst (createRelease tag_name strip JSON_parse w rel dir rp))
     = [mkRequest api ("/pack/release/" +++ tag_name rel)
                  (Json (VObj payload)) None]) /\
  (forall v,
      snd (createRelease tag_name strip JSON_parse w rel dir rp) = Ok v ->
      rp = Status2xx v /\
      exists req,
        fst (createRelease tag_name strip JSON_parse w rel dir rp)
        = [Put req; Settled req rp;
           Info [Lit ("Created release for version '"
                      +++ tag_name rel +++ "'")]]) /\
  (forall e,
      snd (createRelease tag_name strip JSON_parse w rel dir rp) = Err e ->
      if isAxiosError e
      then exists m d,
             rp = Failure m d /\
             e = AxiosError m ("/pack/release/" +++ tag_name rel) d
      else fst (createRelease tag_name strip JSON_parse w rel dir rp) = []).
Proof.
  destruct (createRelease_outcomes w rel dir rp)
    as [(e & -> & Hlocal)|(api & payload & Hrun)].
  - split; [now left|]. split; [discriminate|].
    intros e' He. inversion He; subst. now rewrite Hlocal.
  - destruct rp as [response|m d]; rewrite Hrun; cbn [fst snd].
    + split; [right; now exists api, payload|].
      split; [|discriminate].
      intros v Hv. inversion Hv; subst. split; eauto.
    + split; [right; now exists api, payload|].
      split; [discriminate|].
      intros e He. inversion He; subst. simpl. eauto.
Qed.

Lemma updateWeb_no_release_request w (bnd : string)
      (sched : list (nat * reply)) :
  filter is_release_request
         (dispatched (fst (updateWeb JSON_parse yaml_parse w bnd sched)))
  = [].
Proof.
  rewrite updateWeb_dispatched.
  pose proof (fanout_launched JSON_parse yaml_parse w bnd) as Hl.
  destruct (fanout JSON_parse yaml_parse w bnd) as [t0 [bs|e]]; cbn [fst].
  - destruct Hl as (-> & _ & Hreq).
    induction Hreq as [|r l [k [Hurl _]] _ IH]; auto.
    cbn [filter]. unfold is_release_request at 1. rewrite Hurl.
    destruct k; exact IH.
  - now rewrite Hl.
Qed.

(** X14. A release request is sent only on a release event, once at
    most, to the tag of the event, and before any other request. *)
Theorem release_request_only_on_release w c :
  (eventName w <> "release" ->
   filter is_release_request
          (dispatched (fst (web tag_name strip JSON_parse yaml_parse w c)))
   = []) /\
  length (filter is_release_request
            (dispatched (fst (web tag_name strip JSON_parse yaml_parse
                                  w c)))) <= 1 /\
  (forall r,
      In r (filter is_release_request
              (dispatched (fst (web tag_name strip JSON_parse yaml_parse
                                    w c)))) ->
      url r = "/pack/release/" +++ tag_name (release w) /\
      hd_error (dispatched (fst (web tag_name strip JSON_parse yaml_parse
                                     w c))) = Some r).
Proof.
  unfold web.
  pose proof (updateWeb_no_release_request w (form_boundary c) (schedule c))
    as Hu.
  destruct (updateWeb JSON_parse yaml_parse w (form_boundary c) (schedule c))
    as [t2 r2]. cbn [fst] in Hu.
  destruct (String.eqb_spec (eventName w) "release") as [Hev|Hev].
  2:{ run_sync. rewrite Hu. repeat split; auto; try contradiction. }
  destruct (createRelease_outcomes w (release w) "" (release_reply c))
    as [(e & -> & _)|(api & payload & Hrun)].
  - run_sync. repeat split; auto; try contradiction.
  - assert (Hrel : is_release_request
                     (mkRequest api
                        ("/pack/release/" +++ tag_name (release w))
                        (Json (VObj payload)) None) = true) by reflexivity.
    destruct (release_reply c) as [response|m d]; rewrite Hrun; run_sync;
      rewrite ?app_nil_r;
      [ change (dispatched (?a :: ?b :: ?i :: t2))
          with (mkRequest api ("/pack/release/" +++ tag_name (release w))
                          (Json (VObj payload)) None :: dispatched t2)
      | change (dispatched [?a; ?b])
          with [mkRequest api ("/pack/release/" +++ tag_name (release w))
                          (Json (VObj payload)) None] ];
      cbn [filter]; rewrite Hrel, ?Hu;
      (split; [congruence|]); (split; [simpl; lia|]);
      intros r [<-|[]]; split; reflexivity.
Qed.

(** ** The keys of the payload *)

Lemma obj_update_keys (k : string) (v : value) (o : object) :
  map fst (obj_update k v o) = map fst o.
Proof.
  induction o as [|[k' v'] o IH]; simpl; auto.
  destruct (String.eqb k' k); simpl; [|rewrite IH]; reflexivity.
Qed.

Lemma named_keys_app (o1 o2 : object) :
  named_keys (o1 ++ o2) = named_keys o1 ++ named_keys o2.
Proof. unfold named_keys. now rewrite map_app, filter_app. Qed.

Lemma named_keys_add_index (n : N) (k : string) (v : value) (o : object) :
  array_index k = Some n ->
  named_keys (obj_add_index n k v o) = named_keys o.
Proof.
  intros Hk. assert (Hi : is_index k = true) by (unfold is_index; now rewrite Hk).
  induction o as [|[k' v'] o IH]; unfold named_keys in *; simpl.
  - now rewrite Hi.
  - destruct (array_index k') as [n'|] eqn:Hk';
      [destruct (N.ltb n' n)|]; simpl; rewrite ?Hi; simpl; auto.
    now rewrite IH.
Qed.

Lemma obj_has_In (k : string) (o : object) :
  obj_has k o = true <-> In k (map fst o).
Proof.
  unfold obj_has. split.
  - intros H. destruct (in_dec string_dec k (map fst o)) as [|Hn]; auto.
    rewrite (obj_get_absent _ _ Hn) in H. discriminate.
  - intros H. destruct (obj_get k o) eqn:E; auto.
    now apply obj_get_None_absent in E.
Qed.

(** What an assignment does to the keys that are not array indices: a
    new one comes last, nothing else changes. *)
Lemma named_keys_set (k : string) (v : value) (o : object) :
  named_keys (obj_set k v o)
  = if obj_has k o || is_index k then named_keys o else named_keys o ++ [k].
Proof.
  unfold obj_set. destruct (obj_has k o); simpl.
  - unfold named_keys. now rewrite obj_update_keys.
  - unfold is_index. destruct (array_index k) as [n|] eqn:Hk.
    + now apply named_keys_add_index.
    + rewrite named_keys_app. unfold named_keys at 2. simpl.
      unfold is_index. now rewrite Hk.
Qed.

Lemma add_index_first (n : N) (k : string) (v : value) (o : object)
      (indices : list string) :
  array_index k = Some n ->
  map fst o = indices ++ named_keys o ->
  Forall (fun k => is_index k = true) indices ->
  Sorted (fun a b => N.le (index_of a) (index_of b)) indices ->
  exists indices',
    map fst (obj_add_index n k v o) = indices' ++ named_keys o /\
    Forall (fun k => is_index k = true) indices' /\
    Sorted (fun a b => N.le (index_of a) (index_of b)) indices' /\
    (forall a, HdRel (fun a b => N.le (index_of a) (index_of b)) a indices ->
               N.le (index_of a) n ->
               HdRel (fun a b => N.le (index_of a) (index_of b)) a indices').
Proof.
  intros Hk.
  assert (Hi : is_index k = true) by (unfold is_index; now rewrite Hk).
  assert (Hn : index_of k = n) by (unfold index_of; now rewrite Hk).
  revert indices.
  induction o as [|[k' v'] o IH]; intros indices Hkeys Hall Hsorted.
  - exists [k]. simpl. repeat split; auto.
    intros a _ Ha. constructor. now rewrite Hn.
  - cbn [obj_add_index].
    destruct (array_index k') as [n'|] eqn:Hk'.
    + assert (Hi' : is_index k' = true) by (unfold is_index; now rewrite Hk').
      assert (Hn' : index_of k' = n') by (unfold index_of; now rewrite Hk').
      assert (Hnamed : named_keys ((k', v') :: o) = named_keys o).
      { unfold named_keys. simpl. now rewrite Hi'. }
      rewrite Hnamed in *.
      destruct indices as [|i indices].
      { exfalso. simpl in Hkeys.
        assert (Hin : In k' (named_keys o)) by (rewrite <- Hkeys; now left).
        unfold named_keys in Hin. apply filter_In in Hin.
        rewrite Hi' in Hin. destruct Hin; discriminate. }
      simpl in Hkeys. injection Hkeys as Hhead Htail. subst i.
      pose proof (Forall_inv_tail Hall) as Hall0.
      destruct (Sorted_inv Hsorted) as [Hsorted0 Hhd].
      destruct (N.ltb_spec n' n) as [Hlt|Hge].
      * destruct (IH indices) as (indices' & Hkeys' & Hall' & Hs' & Hhd');
          auto.
        exists (k' :: indices'). simpl. rewrite Hkeys'.
        repeat split; auto.
        -- constructor; auto. apply Hhd'; auto. rewrite Hn'. lia.
        -- intros a Ha _. inversion Ha; subst. now constructor.
      * exists (k :: k' :: indices). simpl. rewrite Htail.
        repeat split; auto.
        -- constructor; auto. constructor. now rewrite Hn, Hn'.
        -- intros a _ Ha. constructor. now rewrite Hn.
    + simpl in Hkeys.
      assert (Hnil : indices = []).
      { destruct indices as [|i indices]; auto. exfalso.
        simpl in Hkeys. injection Hkeys as Hhead _. subst i.
        pose proof (Forall_inv Hall) as Hbad.
        unfold is_index in Hbad. rewrite Hk' in Hbad. discriminate. }
      subst indices. exists [k]. simpl. simpl in Hkeys. rewrite <- Hkeys.
      repeat split; auto.
      intros a _ Ha. constructor. now rewrite Hn.
Qed.

Lemma indices_first_set (k : string) (v : value) (o : object) :
  indices_first o -> indices_first (obj_set k v o).
Proof.
  intros (indices & Hkeys & Hall & Hsorted). unfold indices_first.
  rewrite named_keys_set. unfold obj_set.
  destruct (obj_has k o) eqn:Hhas; simpl.
  - exists indices. now rewrite obj_update_keys.
  - unfold is_index. destruct (array_index k) as [n|] eqn:Hk.
    + destruct (add_index_first n k v o indices)
        as (indices' & H1 & H2 & H3 & _); eauto.
    + exists indices. rewrite map_app, Hkeys, <- app_assoc. auto.
Qed.

Lemma indices_first_spread (src target : object) :
  indices_first target -> indices_first (obj_spread target src).
Proof.
  unfold obj_spread. revert target.
  induction src as [|[k v] src IH]; intros target Ht; simpl; auto.
  apply IH. now apply indices_first_set.
Qed.

Lemma named_keys_spread (src target : object) :
  NoDup (map fst src) ->
  named_keys (obj_spread target src)
  = named_keys target
    ++ filter (fun k => negb (is_index k) && negb (obj_has k target))
              (map fst src).
Proof.
  unfold obj_spread. revert target.
  induction src as [|[k v] src IH]; intros target Hnd; simpl.
  - now rewrite app_nil_r.
  - inversion Hnd as [|? ? Hnotin Hnd']; subst.
    rewrite IH by assumption. rewrite named_keys_set.
    assert (Hrest : filter (fun k0 => negb (is_index k0)
                                      && negb (obj_has k0 (obj_set k v target)))
                           (map fst src)
                    = filter (fun k0 => negb (is_index k0)
                                        && negb (obj_has k0 target))
                             (map fst src)).
    { apply filter_ext_in. intros k0 Hin.
      assert (k <> k0) by (intros ->; contradiction).
      unfold obj_has. now rewrite obj_get_set_other. }
    rewrite Hrest.
    destruct (obj_has k target); simpl; [now rewrite andb_false_r|].
    destruct (is_index k); simpl; auto.
    now rewrite <- app_assoc.
Qed.

(** X9. The payload of the release request holds the fields of
    [strip(release)] with their values, the filtered list under
    [installedAddons] unless a stripped field has that name, and nothing
    else.  Its keys come in the order of JavaScript: the array indices
    of [strip(release)] in ascending order, then [installedAddons],
    then the other keys of [strip(release)] in their order. *)
Theorem release_payload_fields (rel : RawRelease) (kept : list value) :
  NoDup (map fst (strip rel)) ->
  (forall k,
      obj_get k (release_payload strip kept rel)
      = match obj_get k (strip rel) with
        | Some v => Some v
        | None => if String.eqb k "installedAddons"
                  then Some (VArr kept) else None
        end) /\
  exists indices,
    map fst (release_payload strip kept rel)
    = indices
        ++ "installedAddons"
        :: filter (fun k => negb (is_index k)
                            && negb (String.eqb k "installedAddons"))
                  (map fst (strip rel)) /\
    Forall (fun k => is_index k = true /\ In k (map fst (strip rel)))
           indices /\
    Sorted (fun a b => N.le (index_of a) (index_of b)) indices.
Proof.
  intros Hnodup.
  assert (Hget : forall k,
      obj_get k (release_payload strip kept rel)
      = match obj_get k (strip rel) with
        | Some v => Some v
        | None => if String.eqb k "installedAddons"
                  then Some (VArr kept) else None
        end).
  { intros k. unfold release_payload. rewrite obj_spread_get by assumption.
    destruct (obj_get k (strip rel)); auto.
    simpl. now rewrite String.eqb_sym. }
  split; [exact Hget|].
  destruct (indices_first_spread (strip rel)
              [("installedAddons", VArr kept)])
    as (indices & Hkeys & Hall & Hsorted).
  { exists []. repeat split; auto. }
  fold (release_payload strip kept rel) in Hkeys.
  exists indices. split; [|split; [|exact Hsorted]].
  - rewrite Hkeys. f_equal. unfold release_payload.
    rewrite named_keys_spread by assumption.
    change (named_keys [("installedAddons", VArr kept)])
      with ["installedAddons"].
    cbn [app]. f_equal. apply filter_ext. intros k. f_equal. f_equal.
    unfold obj_has. cbn [obj_get]. rewrite String.eqb_sym.
    destruct (String.eqb k "installedAddons"); reflexivity.
  - rewrite Forall_forall in *. intros k Hin. split; [now apply Hall|].
    assert (Hkey : In k (map fst (release_payload strip kept rel))).
    { rewrite Hkeys. apply in_or_app. now left. }
    apply obj_has_In in Hkey. unfold obj_has in Hkey. rewrite Hget in Hkey.
    destruct (obj_get k (strip rel)) eqn:E.
    + destruct (in_dec string_dec k (map fst (strip rel))) as [|Hn]; auto.
      rewrite (obj_get_absent _ _ Hn) in E. discriminate.
    + destruct (String.eqb_spec k "installedAddons") as [->|];
        [|discriminate].
      specialize (Hall _ Hin). discriminate.
Qed.

(** ** After [updateWeb] has settled *)

Lemma step_outcome_stable (st : Joined) (d : nat * reply) (r : result unit) :
  outcome st = Some r -> outcome (snd (step st d)) = Some r.
Proof.
  intros Ho. unfold step.
  destruct (nth_error (branches st) (fst d)) as [[| |p]|]; auto.
  destruct (settle p (snd d)) as [t b]. simpl. now rewrite Ho.
Qed.

Lemma drain_outcome_stable (sched : list (nat * reply)) (st : Joined)
      (r : result unit) :
  outcome st = Some r -> outcome (snd (drain st sched)) = Some r.
Proof.
  revert st. induction sched as [|d sched IH]; intros st Ho; simpl; auto.
  pose proof (step_outcome_stable st d r Ho) as Hs.
  destruct (step st d) as [t st']. simpl in Hs.
  specialize (IH st' Hs).
  destruct (drain st' sched) as [t' st'']. exact IH.
Qed.

(** X13. A web run that ends well is not marked as failed: the
    callback of [catch] does not run, nothing was given to
    [core.setFailed], and the last event is the closing of the log
    group. *)
Theorem successful_web_run_is_clean w c (t : trace) :
  getInput w "action" true = Ok "web" ->
  run tag_name strip JSON_parse yaml_parse technicRelease w c
  = (t, Some (Ok tt)) ->
  main tag_name strip JSON_parse yaml_parse technicRelease w c
  = (t, Some (Ok tt)) /\
  marked_failed
    (main tag_name strip JSON_parse yaml_parse technicRelease w c) = false /\
  exists t', t = t' ++ [EndGroup].
Proof.
  intros Haction Hrun.
  assert (Hmain : main tag_name strip JSON_parse yaml_parse technicRelease
                       w c = (t, Some (Ok tt))).
  { unfold main. now rewrite Hrun. }
  unfold run in Hrun. rewrite Haction in Hrun.
  cbn [String.eqb Ascii.eqb Bool.eqb] in Hrun.
  split; [exact Hmain|]. rewrite Hmain.
  destruct (getApi w) as [api|e] eqn:Hapi.
  2:{ pose proof (web_without_client w c e Hapi) as Hw.
      rewrite Hrun in Hw. discriminate. }
  pose proof (web_events w c api Hapi) as Hev.
  rewrite Hrun in Hev. cbn [fst] in Hev.
  split.
  - unfold marked_failed. cbn [fst snd].
    clear -Hev. induction Hev as [|ev t Hev _ IH]; auto.
    simpl. rewrite IH. destruct ev; auto. destruct Hev.
  - unfold web in Hrun.
    destruct (updateWeb JSON_parse yaml_parse w (form_boundary c)
                        (schedule c)) as [t2 r2] eqn:Hu.
    assert (Hend : r2 = Some (Ok tt) -> exists t', t2 = t' ++ [EndGroup]).
    { intros ->. unfold updateWeb in Hu.
      destruct (fanout JSON_parse yaml_parse w (form_boundary c))
        as [t0 [bs|e]]; [|discriminate].
      destruct (await (Promise_all bs) (schedule c)) as [[t1 st] rest].
      destruct (outcome st) as [[[]|e]|]; inversion Hu.
      exists (t0 ++ t1). now rewrite app_assoc. }
    destruct (if String.eqb (eventName w) "release"
              then createRelease tag_name strip JSON_parse w (release w) ""
                                 (release_reply c) ;; ret tt
              else ret tt) as [t1 [[]|e]]; inversion Hrun; subst.
    destruct (Hend eq_refl) as [t' ->].
    exists (t1 ++ t'). now rewrite app_assoc.
Qed.


(** ** Requests sent, settled and in flight *)

Lemma awaited_set_nth (bs : list promise) (i : nat) (p : Pending)
      (b : promise) :
  nth_error bs i = Some (InFlight p) ->
  is_in_flight b = false ->
  S (length (awaited (set_nth i b bs))) = length (awaited bs).
Proof.
  revert i. induction bs as [|x bs IH]; intros [|i] Hnth Hb;
    simpl in *; try discriminate.
  - inversion Hnth; subst. destruct b; simpl; auto. discriminate.
  - unfold awaited in *. simpl. rewrite !length_app.
    rewrite <- (IH i Hnth Hb). lia.
Qed.

Lemma step_conserves (api : Api) (st : Joined) (d : nat * reply) :
  Forall (pending_from api) (branches st) ->
  length (filter is_Settled (fst (step st d)))
  + length (awaited (branches (snd (step st d))))
  = length (awaited (branches st)).
Proof.
  intros Hb. unfold step.
  destruct (nth_error (branches st) (fst d)) as [[| |p]|] eqn:Hnth; auto.
  assert (Hp : uploads api p).
  { rewrite Forall_forall in Hb. exact (Hb _ (nth_error_In _ _ Hnth)). }
  destruct (settle_shape api p (snd d) Hp) as (_ & _ & Hs).
  assert (Hone : length (filter is_Settled (fst (settle p (snd d)))) = 1).
  { unfold settle. destruct (snd d); [|reflexivity].
    destruct (uploads_resume api p Hp) as [[m ->]|[_ ->]]; reflexivity. }
  destruct (settle p (snd d)) as [t b]. simpl in *.
  rewrite Hone. simpl. eapply awaited_set_nth; eassumption.
Qed.

Lemma await_conserves (api : Api) (sched : list (nat * reply))
      (st : Joined) :
  Forall (pending_from api) (branches st) ->
  length (filter is_Settled (fst (fst (await st sched))))
  + length (awaited (branches (snd (fst (await st sched)))))
  = length (awaited (branches st)).
Proof.
  revert st. induction sched as [|d sched IH]; intros st Hb; simpl.
  - destruct (outcome st); reflexivity.
  - destruct (outcome st); [reflexivity|].
    pose proof (step_conserves api st d Hb) as Hs.
    destruct (step_shape api st d Hb) as (_ & _ & Hb').
    destruct (step st d) as [t st']. simpl in *.
    specialize (IH st' Hb').
    destruct (await st' sched) as [[t' st''] rest]. simpl in *.
    rewrite filter_app, length_app. lia.
Qed.

(** X15. Up to the end of its [await], [updateWeb] accounts for each
    of its requests: a request that was sent is settled once in the
    trace or is still in flight, never both and never twice. *)
Theorem updateWeb_accounts_for_requests
        w (api : Api) (bnd : string) (sched rest : list (nat * reply))
        (t0 t1 : trace) (bs : list promise) (st : Joined) :
  getApi w = Ok api ->
  fanout JSON_parse yaml_parse w bnd = (t0, Ok bs) ->
  await (Promise_all bs) sched = (t1, st, rest) ->
  length (filter is_Settled t1) + length (awaited (branches st))
  = length (dispatched t0) /\
  filter is_Settled t0 = [] /\
  dispatched t1 = [].
Proof.
  intros Hapi Hf Ha.
  destruct (fanout_shape _ _ w api bnd t0 (Ok bs) Hapi Hf) as (H1 & _ & H3).
  pose proof (fanout_launched JSON_parse yaml_parse w bnd) as Hl.
  rewrite Hf in Hl. destruct Hl as (Hsent & Hquiet & _).
  pose proof (await_conserves api sched (Promise_all bs)
                (branch_from_pending api bs H3)) as Hc.
  pose proof (await_quiet sched (Promise_all bs) Hquiet) as Hq.
  rewrite Ha in Hc, Hq. simpl in Hc, Hq.
  split; [now rewrite Hsent|]. split; [|exact Hq].
  pose proof (updatePages_launched JSON_parse yaml_parse w) as Hp.
  destruct (fanout_inv _ _ _ _ _ _ Hf)
    as [(tp & e & _ & _ & Heq)
       |(tp & pages & td & d & ta & a & Hpages & Hd & Hassets & -> & _)];
    [discriminate|].
  destruct (updatePages_cases JSON_parse yaml_parse w api Hapi)
    as [[_ Hp']|[[_ [m Hp']]|[_ [bodies Hp']]]];
    rewrite Hp' in Hpages; inversion Hpages; subst;
    destruct (updateData_cases yaml_parse w api Hapi)
      as [[_ Hd']|[[_ [m1 Hd']]|[_ [v Hd']]]];
    rewrite Hd' in Hd; inversion Hd; subst;
    destruct (updateAssets_cases w api bnd Hapi)
      as [[_ Ha']|[[_ [m2 Ha']]|[_ [f Ha']]]];
    rewrite Ha' in Hassets; inversion Hassets; subst;
    cbn [filter is_Settled app]; rewrite ?filter_app;
    cbn [filter is_Settled app]; rewrite ?app_nil_r; auto;
    clear; induction bodies; auto.
Qed.

(** X16. What [updateWeb] sends is what its three categories send,
    pages first, in the order of the directory listing, then the
    metadata, then the assets, whenever [updatePages] does not throw;
    the replies have no part in it. *)
Theorem updateWeb_sends_pages_metadata_assets
        w (tp : trace) (pages : list promise) (bnd : string)
        (sched : list (nat * reply)) :
  updatePages JSON_parse yaml_parse w = (tp, Ok pages) ->
  dispatched (fst (updateWeb JSON_parse yaml_parse w bnd sched))
  = dispatched tp
      ++ dispatched (fst (updateData yaml_parse w))
      ++ dispatched (fst (updateAssets w bnd)) /\
  map url (dispatched (fst (updateWeb JSON_parse yaml_parse w bnd sched)))
  = repeat "pack/page" (length (dispatched tp))
      ++ repeat "/pack"
                (length (dispatched (fst (updateData yaml_parse w))))
      ++ repeat "/pack/assets"
                (length (dispatched (fst (updateAssets w bnd)))) /\
  length (dispatched (fst (updateData yaml_parse w))) <= 1 /\
  length (dispatched (fst (updateAssets w bnd))) <= 1.
Proof.
  intros Hpages. rewrite updateWeb_dispatched.
  destruct (updateData_launched yaml_parse w)
    as (td & d & Hd & Hd1 & _ & Hd3).
  destruct (updateAssets_launched w bnd)
    as (ta & a & Ha & Ha1 & _ & Ha3).
  pose proof (updatePages_launched JSON_parse yaml_parse w) as Hp.
  rewrite Hpages in Hp. destruct Hp as (Hp1 & _ & Hp3).
  assert (Hf : fanout JSON_parse yaml_parse w bnd
               = (StartGroup "Updating web" :: tp ++ td ++ ta,
                  Ok (pages ++ [d; a]))).
  { unfold fanout. run_sync. rewrite Hpages. run_sync.
    rewrite Hd. run_sync. rewrite Ha. run_sync. now rewrite app_nil_r. }
  rewrite Hf, Hd, Ha. cbn [fst].
  change (dispatched (StartGroup "Updating web" :: tp ++ td ++ ta))
    with (dispatched (tp ++ td ++ ta)).
  rewrite !dispatched_app.
  assert (Hurls : forall (k : category) l,
             Forall (request_to k) l ->
             map url l = repeat (endpoint k) (length l)).
  { intros k l Hl. induction Hl as [|r l [Hr _] _ IH]; auto.
    simpl. now rewrite Hr, IH. }
  split; [reflexivity|]. split.
  - rewrite !map_app, Hp1, Hd1, Ha1.
    rewrite (Hurls Pages), (Hurls Metadata), (Hurls Assets); auto.
  - rewrite Hd1, Ha1. destruct d, a; simpl; lia.
Qed.

End Further.

(** * Pages by name, errors at the top level *)

(** ** The extension of a page file *)

Lemma has_extension_spec (f ext : string) :
  has_extension f ext = true <-> exists stem, stem <> "" /\ f = stem +++ ext.
Proof.
  induction f as [|c f IH]; simpl.
  - split; [discriminate|]. intros (stem & Hne & H).
    destruct stem; [congruence|discriminate].
  - rewrite orb_true_iff, String.eqb_eq, IH. split.
    + intros [->|(stem & Hne & ->)].
      * exists (String c ""). split; [discriminate|reflexivity].
      * exists (String c stem). split; [discriminate|reflexivity].
    + intros (stem & Hne & H).
      destruct stem as [|c' stem]; [congruence|].
      simpl in H. inversion H; subst.
      destruct stem as [|c'' stem]; [now left|].
      right. exists (String c'' stem). split; [discriminate|reflexivity].
Qed.

Lemma last_dot_stem (s ext : string) (n : nat) :
  Path.last_dot s = Some (n, ext) ->
  exists stem, s = stem +++ ext /\ String.length stem = n.
Proof.
  revert n. induction s as [|c s IH]; intros n; simpl; [discriminate|].
  destruct (Path.last_dot s) as [[m x]|].
  - intros H. inversion H; subst.
    destruct (IH m eq_refl) as (stem & -> & Hlen).
    exists (String c stem). simpl. auto.
  - destruct (Path.is_dot c); [|discriminate].
    intros H. inversion H; subst. now exists "".
Qed.

Lemma last_dot_append (stem e : string) :
  Path.last_dot e = None ->
  Path.last_dot (stem +++ String "." e)
  = Some (String.length stem, String "." e).
Proof.
  intros He. induction stem as [|c stem IH]; simpl.
  - now rewrite He.
  - simpl in IH. now rewrite IH.
Qed.

(** For an entry of the pages directory, [extname] gives [.json] or
    [.yml] exactly when the name of the entry ends in it, after a stem
    that is not empty. *)
Lemma extname_page (f e : string) :
  entry_name f = true ->
  Path.last_dot e = None ->
  Path.extname ("web/pages/" +++ f) = String "." e <->
  has_extension f (String "." e) = true.
Proof.
  intros Hf He.
  destruct (join_pages_entry f Hf) as [_ Hbase].
  destruct (entry_name_inv f Hf) as (_ & _ & _ & _ & Hdots).
  unfold Path.extname. rewrite Hbase, Hdots.
  rewrite has_extension_spec. split.
  - destruct (Path.last_dot f) as [[[|n] x]|] eqn:Hdot; try discriminate.
    intros ->. destruct (last_dot_stem _ _ _ Hdot) as (stem & -> & Hlen).
    exists stem. split; auto. intros ->. discriminate.
  - intros (stem & Hne & ->). rewrite last_dot_append by assumption.
    destruct stem; [congruence|reflexivity].
Qed.

Lemma Forall2_impl_in {A B} (P : A -> Prop) (R R' : A -> B -> Prop)
      (l : list A) (l' : list B) :
  (forall a b, P a -> R a b -> R' a b) ->
  Forall P l -> Forall2 R l l' -> Forall2 R' l l'.
Proof.
  intros Himpl Hall H. induction H as [|a b l l' Hab _ IH]; constructor.
  - apply Himpl; auto. now apply Forall_inv in Hall.
  - apply IH. now apply Forall_inv_tail in Hall.
Qed.

Section Pages.

Context {RawRelease : Type}.
Variable JSON_parse : string -> attempt value.
Variable yaml_parse : string -> attempt value.

Implicit Types (w : World RawRelease).

(** The document of an entry is the body that [updatePages] parses
    from its path. *)
Lemma page_document_body w (f : string) (body : value) :
  entry_name f = true ->
  page_document JSON_parse yaml_parse w f body <->
  is_page_body JSON_parse yaml_parse w
               (Path.join [Path.join [webDir; "pages"]; f]) body.
Proof.
  intros Hf. destruct (join_pages_entry f Hf) as [-> _].
  pose proof (extname_page f "json" Hf eq_refl) as Hj.
  pose proof (extname_page f "yml" Hf eq_refl) as Hy.
  change (String "." "json") with ".json" in Hj.
  change (String "." "yml") with ".yml" in Hy.
  unfold page_document, is_page_body.
  split; intros (content & Hread & Hbody); exists content; split; auto.
  - destruct (has_extension f ".json").
    + left. split; auto. now apply Hj.
    + destruct (has_extension f ".yml").
      * right. left. split; auto. now apply Hy.
      * right. right. repeat split; auto.
        -- intros H. apply Hj in H. discriminate.
        -- intros H. apply Hy in H. discriminate.
  - destruct Hbody as [[Hext Hparse]|[[Hext Hparse]|(Hnj & Hny & ->)]].
    + apply Hj in Hext. now rewrite Hext.
    + destruct (has_extension f ".json").
      * assert (Hboth : Path.extname ("web/pages/" +++ f) = ".json")
          by now apply Hj.
        congruence.
      * apply Hy in Hext. now rewrite Hext.
    + destruct (has_extension f ".json");
        [exfalso; apply Hnj; now apply Hj|].
      destruct (has_extension f ".yml");
        [exfalso; apply Hny; now apply Hy|].
      reflexivity.
Qed.

(** C5. With the pages directory listing [names]: when every entry can
    be read, and parsed when its name ends in [.json] or [.yml],
    [updatePages] sends one PUT for each entry, in the order of the
    listing; its body is the JSON parse of the file for [.json], the
    YAML parse for [.yml], and the empty object for any other name.
    When one entry cannot be read or parsed, [updatePages] throws and
    sends no PUT at all. *)
Theorem updatePages_one_put_per_file
        w (api : Api) (names : list string) :
  getApi w = Ok api ->
  existsSync w "web/pages" = true ->
  readdirSync w "web/pages" = Done names ->
  Forall (fun f => entry_name f = true) names ->
  (forall bodies,
      Forall2 (page_document JSON_parse yaml_parse w) names bodies ->
      updatePages JSON_parse yaml_parse w
      = (map (fun body => Put (mkRequest api "pack/page" (Json body) None))
             bodies,
         Ok (map (fun body => InFlight (page_upload api body)) bodies)) /\
      dispatched (fst (updatePages JSON_parse yaml_parse w))
      = map (fun body => mkRequest api "pack/page" (Json body) None) bodies /\
      length (dispatched (fst (updatePages JSON_parse yaml_parse w)))
      = length names) /\
  (Exists (fun f => forall body,
               ~ page_document JSON_parse yaml_parse w f body) names ->
   exists m,
     updatePages JSON_parse yaml_parse w = ([], Err (Error m))).
Proof.
  intros Hapi Hex Hdir Hnames.
  set (pages := map (fun f => Path.join [Path.join [webDir; "pages"]; f])
                    names).
  assert (Hrun : forall r,
             mapM (parse_page JSON_parse yaml_parse w) pages = ([], r) ->
             updatePages JSON_parse yaml_parse w
             = match r with
               | Ok parsed => mapM (upload_page api) parsed
               | Err e => ([], Err e)
               end).
  { intros r Hr. unfold updatePages. rewrite Hapi. run_sync.
    change (Path.join [webDir; "pages"]) with "web/pages" in *.
    rewrite Hex, Hdir. run_sync. fold pages. rewrite Hr.
    destruct r as [parsed|e]; run_sync; [|reflexivity].
    now destruct (mapM (upload_page api) parsed). }
  split.
  - intros bodies Hbodies.
    assert (Hparsed : mapM (parse_page JSON_parse yaml_parse w) pages
                      = ([], Ok bodies)).
    { apply mapM_parse_pages. unfold pages.
      clear -Hbodies Hnames.
      induction Hbodies as [|f body names bodies Hdoc _ IH];
        constructor.
      - apply page_document_body; auto. now apply Forall_inv in Hnames.
      - apply IH. now apply Forall_inv_tail in Hnames. }
    assert (Hall : updatePages JSON_parse yaml_parse w
                   = (map (fun body => Put (mkRequest api "pack/page"
                                                     (Json body) None))
                          bodies,
                      Ok (map (fun body => InFlight (page_upload api body))
                              bodies))).
    { rewrite (Hrun _ Hparsed). now rewrite mapM_upload_page. }
    assert (Hsent : dispatched (fst (updatePages JSON_parse yaml_parse w))
                    = map (fun body => mkRequest api "pack/page" (Json body)
                                                 None) bodies).
    { rewrite Hall. cbn [fst]. clear.
      induction bodies as [|b bodies IH]; simpl; [|rewrite <- IH]; auto. }
    repeat split; auto.
    rewrite Hsent, length_map. symmetry.
    eapply Forall2_length; eassumption.
  - intros Hbad.
    destruct (mapM_parse_cases JSON_parse yaml_parse w pages)
      as [[bodies Hok]|[m Herr]].
    + exfalso. apply mapM_Ok_Forall2 in Hok.
      apply Exists_exists in Hbad. destruct Hbad as (f & Hf & Hnot).
      assert (Hall : forall page, In page pages ->
                 exists body,
                   is_page_body JSON_parse yaml_parse w page body).
      { clear -Hok. induction Hok as [|page body l l' [ta Hp] _ IH];
          intros page' Hin; simpl in Hin; [contradiction|].
        destruct Hin as [<-|Hin]; eauto.
        exists body. eapply parse_page_inv; eassumption. }
      destruct (Hall (Path.join [Path.join [webDir; "pages"]; f]))
        as [body Hbody].
      * unfold pages.
        apply (in_map (fun f => Path.join [Path.join [webDir; "pages"]; f])).
        exact Hf.
      * apply (Hnot body). apply page_document_body; auto.
        rewrite Forall_forall in Hnames. now apply Hnames.
    + exists m. now rewrite (Hrun _ Herr).
Qed.

End Pages.

(** ** The handler of [index.ts] *)

Section Handler.

Context {RawRelease : Type}.
Variable tag_name : RawRelease -> string.
Variable strip : RawRelease -> object.
Variable JSON_parse : string -> attempt value.
Variable yaml_parse : string -> attempt value.
Variable technicRelease : World RawRelease -> Async unit.

Implicit Types (w : World RawRelease) (c : Choices).



End Handler.

(** * Further runs on the sample worlds *)

Lemma no_token_no_request_witness :
  inputs Edge.anonymous "web_token" = "" /\
  createRelease Sample.tag Sample.strip_fields Sample.JSON_parse
                Edge.anonymous Sample.v120 "" (Status2xx VNull)
  = ([], Err (Error "Input required and not supplied: web_token")) /\
  updateWeb Sample.JSON_parse Sample.yaml_parse Edge.anonymous "B1" []
  = ([StartGroup "Updating web"],
     Some (Err (Error "Input required and not supplied: web_token"))) /\
  dispatched (fst (web Sample.tag Sample.strip_fields Sample.JSON_parse
                       Sample.yaml_parse Edge.anonymous Sample.choices))
  = [] /\
  snd (web Sample.tag Sample.strip_fields Sample.JSON_parse
           Sample.yaml_parse Edge.anonymous Sample.choices)
  = Some (Err (Error "Input required and not supplied: web_token")).
Proof.
  split; [reflexivity|].
  apply (no_token_no_request Sample.tag Sample.strip_fields
           Sample.JSON_parse Sample.yaml_parse Edge.anonymous
           Sample.choices Sample.v120 "" "B1" (Status2xx VNull) []).
  reflexivity.
Defined.

Lemma unknown_action_sets_failed_witness :
  trimmed_of (inputs Edge.deploying "action") "deploy" /\
  "deploy" <> "web" /\
  "deploy" <> "technic" /\
  main Sample.tag Sample.strip_fields Sample.JSON_parse Sample.yaml_parse
       Sample.no_technic Edge.deploying Sample.choices
  = ([SetFailed
        (if Path.nonempty (inputs Edge.deploying "action")
         then "Invalid action '" +++ "deploy" +++ "'"
         else "Input required and not supplied: action")],
     Some (Ok tt)).
Proof.
  assert (Haction : trimmed_of (inputs Edge.deploying "action") "deploy").
  { exact (trim_is_trimmed (inputs Edge.deploying "action")). }
  split; [exact Haction|]. split; [discriminate|]. split; [discriminate|].
  apply (unknown_action_sets_failed Sample.tag Sample.strip_fields
           Sample.JSON_parse Sample.yaml_parse Sample.no_technic
           Edge.deploying Sample.choices "deploy");
    first [exact Haction | discriminate].
Defined.

(** The action of that world ends with a no-break space, which is
    taken off before the action is compared. *)
Example unknown_action_message :
  inputs Edge.deploying "action" = " deploy" +++ utf8 [194; 160] /\
  main Sample.tag Sample.strip_fields Sample.JSON_parse Sample.yaml_parse
       Sample.no_technic Edge.deploying Sample.choices
  = ([SetFailed "Invalid action 'deploy'"], Some (Ok tt)).
Proof. split; reflexivity. Qed.

(** White space of any kind around [web] still selects the web flow. *)
Example padded_action_is_web :
  trim (utf8 [239; 187; 191] +++ " web" +++ utf8 [194; 160; 13; 10])
  = "web".
Proof. reflexivity. Qed.

Lemma web_uses_the_client_witness :
  inputs Edge.padded "web_token" <> "" /\
  trimmed_of (inputs Edge.padded "web_token") "s3cret" /\
  trimmed_of (inputs Edge.padded "api") "https://packs.example/api" /\
  Forall (web_event Sample.api)
         (fst (web Sample.tag Sample.strip_fields Sample.JSON_parse
                   Sample.yaml_parse Edge.padded Sample.choices)) /\
  Forall (fun r => via r = Sample.api)
         (dispatched
            (fst (web Sample.tag Sample.strip_fields Sample.JSON_parse
                      Sample.yaml_parse Edge.padded Sample.choices))).
Proof.
  assert (Htoken : trimmed_of (inputs Edge.padded "web_token") "s3cret").
  { exact (trim_is_trimmed (inputs Edge.padded "web_token")). }
  assert (Hbase : trimmed_of (inputs Edge.padded "api")
                             "https://packs.example/api").
  { exact (trim_is_trimmed (inputs Edge.padded "api")). }
  split; [discriminate|]. split; [exact Htoken|]. split; [exact Hbase|].
  apply (web_uses_the_client Sample.tag Sample.strip_fields
           Sample.JSON_parse Sample.yaml_parse Edge.padded
           Sample.choices "s3cret" "https://packs.example/api");
    first [exact Htoken | exact Hbase | discriminate].
Defined.

Lemma updateWeb_fulfilled_when_all_succeed_witness :
  snd (fanout Sample.JSON_parse Sample.yaml_parse Sample.released "B1")
  = Ok Edge.released_branches /\
  Forall resumes_well Edge.released_branches /\
  forallb (fun d => is_2xx (snd d)) Edge.all_succeed = true /\
  (forall i p, nth_error Edge.released_branches i = Some (InFlight p) ->
               In i (map fst Edge.all_succeed)) /\
  snd (updateWeb Sample.JSON_parse Sample.yaml_parse Sample.released "B1"
                 Edge.all_succeed) = Some (Ok tt).
Proof.
  assert (Hwell : Forall resumes_well Edge.released_branches).
  { repeat constructor. }
  assert (Hcover : forall i p,
             nth_error Edge.released_branches i = Some (InFlight p) ->
             In i (map fst Edge.all_succeed)).
  { intros i p Hi. destruct i as [|[|[|[|[|i]]]]]; simpl; auto 10.
    destruct i; discriminate. }
  split; [reflexivity|]. split; [exact Hwell|]. split; [reflexivity|].
  split; [exact Hcover|].
  apply (updateWeb_fulfilled_when_all_succeed Sample.JSON_parse
           Sample.yaml_parse Sample.released "B1" Edge.all_succeed
           Edge.released_branches);
    first [reflexivity | exact Hwell | exact Hcover].
Defined.

(** The whole trace of that run: the replies come assets first. *)
Example all_succeed_trace :
  map (fun ev => match ev with
                 | Settled r _ => url r
                 | Info _ => "info"
                 | EndGroup => "endGroup"
                 | _ => ""
                 end)
      (skipn 6 (fst (updateWeb Sample.JSON_parse Sample.yaml_parse
                               Sample.released "B1" Edge.all_succeed)))
  = ["/pack/assets"; "info"; "pack/page"; "info"; "/pack"; "info";
     "pack/page"; "info"; "pack/page"; "info"; "endGroup"].
Proof. reflexivity. Qed.

Lemma null_page_is_sent_and_fails_witness :
  getApi Edge.null_page = Ok Sample.api /\
  existsSync Edge.null_page (local_path Pages) = true /\
  readdirSync Edge.null_page (local_path Pages)
  = Done ["home.json"; "empty.json"] /\
  Forall2 (fun f body =>
             is_page_body Sample.JSON_parse Sample.yaml_parse Edge.null_page
                          (Path.join [local_path Pages; f]) body)
          ["home.json"; "empty.json"]
          [VObj [("title", VStr "Home")]; VNull] /\
  In VNull [VObj [("title", VStr "Home")]; VNull] /\
  In (mkRequest Sample.api "pack/page" (Json VNull) None)
     (dispatched (fst (updateWeb Sample.JSON_parse Sample.yaml_parse
                                 Edge.null_page "B1" Edge.all_succeed))) /\
  snd (updateWeb Sample.JSON_parse Sample.yaml_parse Edge.null_page "B1"
                 Edge.all_succeed) <> Some (Ok tt) /\
  forall response,
    settle (page_upload Sample.api VNull) (Status2xx response)
    = ([Settled (mkRequest Sample.api "pack/page" (Json VNull) None)
                (Status2xx response)],
       Rejected (TypeError "Cannot read property 'title' of null")).
Proof.
  assert (Hbodies :
    Forall2 (fun f body =>
               is_page_body Sample.JSON_parse Sample.yaml_parse
                            Edge.null_page
                            (Path.join [local_path Pages; f]) body)
            ["home.json"; "empty.json"]
            [VObj [("title", VStr "Home")]; VNull]).
  { repeat constructor.
    - exists (Sample.json_text "{'title':'Home'}").
      split; [reflexivity|]. left. split; reflexivity.
    - exists "null". split; [reflexivity|]. left. split; reflexivity. }
  assert (Hnull : In VNull [VObj [("title", VStr "Home")]; VNull])
    by (simpl; auto).
  split; [reflexivity|]. split; [reflexivity|]. split; [reflexivity|].
  split; [exact Hbodies|]. split; [exact Hnull|].
  apply (null_page_is_sent_and_fails Sample.JSON_parse Sample.yaml_parse
           Edge.null_page Sample.api ["home.json"; "empty.json"]
           [VObj [("title", VStr "Home")]; VNull] "B1" Edge.all_succeed);
    first [reflexivity | exact Hbodies | exact Hnull].
Defined.

(** With both replies a success the run still ends rejected. *)
Example null_page_rejects :
  snd (updateWeb Sample.JSON_parse Sample.yaml_parse Edge.null_page "B1"
                 [(0, Status2xx VNull); (1, Status2xx VNull)])
  = Some (Err (TypeError "Cannot read property 'title' of null")).
Proof. reflexivity. Qed.

Lemma broken_metadata_rejects_after_sending_witness :
  getApi Edge.broken_metadata = Ok Sample.api /\
  updatePages Sample.JSON_parse Sample.yaml_parse Edge.broken_metadata
  = ([Put (request Edge.home_page)], Ok [InFlight Edge.home_page]) /\
  existsSync Edge.broken_metadata (local_path Metadata) = true /\
  readFileSync Edge.broken_metadata (local_path Metadata) = Done "name: [" /\
  Sample.yaml_parse "name: [" = Threw "Unexpected token" /\
  updateWeb Sample.JSON_parse Sample.yaml_parse Edge.broken_metadata "B1"
            Edge.all_succeed
  = (StartGroup "Updating web"
       :: [Put (request Edge.home_page)]
       ++ fst (updateAssets Edge.broken_metadata "B1"),
     Some (Err (Error "Unexpected token"))) /\
  dispatched (fst (updateWeb Sample.JSON_parse Sample.yaml_parse
                             Edge.broken_metadata "B1" Edge.all_succeed))
  = awaited [InFlight Edge.home_page]
      ++ dispatched (fst (updateAssets Edge.broken_metadata "B1")) /\
  requests_to Metadata
    (fst (updateWeb Sample.JSON_parse Sample.yaml_parse
                    Edge.broken_metadata "B1" Edge.all_succeed))
  = [].
Proof.
  repeat (split; [reflexivity|]).
  apply (broken_metadata_rejects_after_sending Sample.JSON_parse
           Sample.yaml_parse Edge.broken_metadata Sample.api "name: ["
           "Unexpected token" [Put (request Edge.home_page)]
           [InFlight Edge.home_page] "B1" Edge.all_succeed);
    reflexivity.
Defined.

(** What was sent in that run although it failed at once. *)
Example broken_metadata_requests :
  map url (dispatched
             (fst (updateWeb Sample.JSON_parse Sample.yaml_parse
                             Edge.broken_metadata "B1" Edge.all_succeed)))
  = ["pack/page"; "/pack/assets"].
Proof. reflexivity. Qed.

Lemma broken_page_sends_nothing_witness :
  getApi Edge.broken_page = Ok Sample.api /\
  existsSync Edge.broken_page (local_path Pages) = true /\
  readdirSync Edge.broken_page (local_path Pages)
  = Done ["home.json"; "draft.json"] /\
  Exists (fun f => forall body,
              ~ is_page_body Sample.JSON_parse Sample.yaml_parse
                             Edge.broken_page
                             (Path.join [local_path Pages; f]) body)
         ["home.json"; "draft.json"] /\
  exists m,
    updateWeb Sample.JSON_parse Sample.yaml_parse Edge.broken_page "B1"
              Edge.all_succeed
    = ([StartGroup "Updating web"], Some (Err (Error m))).
Proof.
  assert (Hbad :
    Exists (fun f => forall body,
                ~ is_page_body Sample.JSON_parse Sample.yaml_parse
                               Edge.broken_page
                               (Path.join [local_path Pages; f]) body)
           ["home.json"; "draft.json"]).
  { apply Exists_cons_tl, Exists_cons_hd.
    intros body (content & Hread & Hbody).
    vm_compute in Hread. inversion Hread; subst content.
    destruct Hbody as [[_ H]|[[H _]|(H & _)]].
    - vm_compute in H. discriminate.
    - vm_compute in H. discriminate.
    - apply H. reflexivity. }
  split; [reflexivity|]. split; [reflexivity|]. split; [reflexivity|].
  split; [exact Hbad|].
  apply (broken_page_sends_nothing Sample.JSON_parse Sample.yaml_parse
           Edge.broken_page Sample.api ["home.json"; "draft.json"] "B1"
           Edge.all_succeed);
    first [reflexivity | exact Hbad].
Defined.

Lemma release_payload_fields_witness :
  NoDup (map fst (Edge.strip_numbered Sample.v120)) /\
  (forall k,
      obj_get k (release_payload Edge.strip_numbered
                                 [Sample.addon 1 "mod1.jar"] Sample.v120)
      = match obj_get k (Edge.strip_numbered Sample.v120) with
        | Some v => Some v
        | None => if String.eqb k "installedAddons"
                  then Some (VArr [Sample.addon 1 "mod1.jar"]) else None
        end) /\
  exists indices,
    map fst (release_payload Edge.strip_numbered
                             [Sample.addon 1 "mod1.jar"] Sample.v120)
    = indices
        ++ "installedAddons"
        :: filter (fun k => negb (is_index k)
                            && negb (String.eqb k "installedAddons"))
                  (map fst (Edge.strip_numbered Sample.v120)) /\
    Forall (fun k => is_index k = true /\
                     In k (map fst (Edge.strip_numbered Sample.v120)))
           indices /\
    Sorted (fun a b => N.le (index_of a) (index_of b)) indices.
Proof.
  assert (Hkeys : NoDup (map fst (Edge.strip_numbered Sample.v120))).
  { repeat constructor; simpl; intuition discriminate. }
  split; [exact Hkeys|].
  apply (release_payload_fields Edge.strip_numbered Sample.v120
           [Sample.addon 1 "mod1.jar"]).
  exact Hkeys.
Defined.

(** The keys of that payload: [2] and [10] come first, in this order;
    [007] is not an array index and keeps its place. *)
Example release_payload_keys :
  map fst (release_payload Edge.strip_numbered
                           [Sample.addon 1 "mod1.jar"] Sample.v120)
  = ["2"; "10"; "installedAddons"; "name"; "body"; "007"].
Proof. reflexivity. Qed.

Lemma empty_directories_differ_witness :
  getApi Edge.empty_directories = Ok Sample.api /\
  existsSync Edge.empty_directories (local_path Pages) = true /\
  readdirSync Edge.empty_directories (local_path Pages) = Done [] /\
  existsSync Edge.empty_directories (local_path Assets) = true /\
  readdirSync Edge.empty_directories (local_path Assets) = Done [] /\
  updatePages Sample.JSON_parse Sample.yaml_parse Edge.empty_directories
  = ([], Ok []) /\
  dispatched (fst (updateAssets Edge.empty_directories "B1"))
  = [mkRequest Sample.api "/pack/assets" (Multipart (mkForm "B1" []))
               (Some [("content-type",
                       "multipart/form-data; boundary=" +++ "B1")])] /\
  requests_to Pages
    (fst (fanout Sample.JSON_parse Sample.yaml_parse
                 Edge.empty_directories "B1")) = [] /\
  length (requests_to Assets
            (fst (fanout Sample.JSON_parse Sample.yaml_parse
                         Edge.empty_directories "B1"))) = 1.
Proof.
  repeat (split; [reflexivity|]).
  apply (empty_directories_differ Sample.JSON_parse Sample.yaml_parse
           Edge.empty_directories Sample.api "B1"); reflexivity.
Defined.

Lemma successful_web_run_is_clean_witness :
  getInput Sample.released "action" true = Ok "web" /\
  run Sample.tag Sample.strip_fields Sample.JSON_parse Sample.yaml_parse
      Sample.no_technic Sample.released Edge.succeeding
  = (fst (run Sample.tag Sample.strip_fields Sample.JSON_parse
              Sample.yaml_parse Sample.no_technic Sample.released
              Edge.succeeding),
     Some (Ok tt)) /\
  main Sample.tag Sample.strip_fields Sample.JSON_parse Sample.yaml_parse
       Sample.no_technic Sample.released Edge.succeeding
  = (fst (run Sample.tag Sample.strip_fields Sample.JSON_parse
              Sample.yaml_parse Sample.no_technic Sample.released
              Edge.succeeding),
     Some (Ok tt)) /\
  marked_failed
    (main Sample.tag Sample.strip_fields Sample.JSON_parse Sample.yaml_parse
          Sample.no_technic Sample.released Edge.succeeding) = false /\
  exists t',
    fst (run Sample.tag Sample.strip_fields Sample.JSON_parse
             Sample.yaml_parse Sample.no_technic Sample.released
             Edge.succeeding)
    = t' ++ [EndGroup].
Proof.
  split; [reflexivity|]. split; [reflexivity|].
  apply (successful_web_run_is_clean Sample.tag Sample.strip_fields
           Sample.JSON_parse Sample.yaml_parse Sample.no_technic
           Sample.released Edge.succeeding); reflexivity.
Defined.

Lemma updateWeb_accounts_for_requests_witness :
  getApi Sample.pushed = Ok Sample.api /\
  fanout Sample.JSON_parse Sample.yaml_parse Sample.pushed "B1"
  = (Sample.launch, Ok [InFlight Sample.metadata; InFlight Sample.assets]) /\
  await (Promise_all [InFlight Sample.metadata; InFlight Sample.assets])
        Sample.metadata_fails_first
  = ([Settled (request Sample.metadata) Sample.server_error],
     Sample.at_rejection,
     [(1, Status2xx (VObj []))]) /\
  length (filter is_Settled
            [Settled (request Sample.metadata) Sample.server_error])
  + length (awaited (branches Sample.at_rejection))
  = length (dispatched Sample.launch) /\
  filter is_Settled Sample.launch = [] /\
  dispatched [Settled (request Sample.metadata) Sample.server_error] = [].
Proof.
  split; [reflexivity|]. split; [reflexivity|]. split; [reflexivity|].
  apply (updateWeb_accounts_for_requests Sample.JSON_parse Sample.yaml_parse
           Sample.pushed Sample.api "B1" Sample.metadata_fails_first
           [(1, Status2xx (VObj []))] Sample.launch
           [Settled (request Sample.metadata) Sample.server_error]
           [InFlight Sample.metadata; InFlight Sample.assets]
           Sample.at_rejection); reflexivity.
Defined.

Lemma updateWeb_sends_pages_metadata_assets_witness :
  updatePages Sample.JSON_parse Sample.yaml_parse Sample.released
  = (fst (updatePages Sample.JSON_parse Sample.yaml_parse Sample.released),
     Ok Edge.released_pages) /\
  dispatched (fst (updateWeb Sample.JSON_parse Sample.yaml_parse
                             Sample.released "B1" Edge.all_succeed))
  = dispatched
      (fst (updatePages Sample.JSON_parse Sample.yaml_parse Sample.released))
      ++ dispatched (fst (updateData Sample.yaml_parse Sample.released))
      ++ dispatched (fst (updateAssets Sample.released "B1")) /\
  map url (dispatched (fst (updateWeb Sample.JSON_parse Sample.yaml_parse
                                      Sample.released "B1"
                                      Edge.all_succeed)))
  = repeat "pack/page"
           (length (dispatched
                      (fst (updatePages Sample.JSON_parse Sample.yaml_parse
                                        Sample.released))))
      ++ repeat "/pack"
                (length (dispatched
                           (fst (updateData Sample.yaml_parse
                                            Sample.released))))
      ++ repeat "/pack/assets"
                (length (dispatched
                           (fst (updateAssets Sample.released "B1")))) /\
  length (dispatched (fst (updateData Sample.yaml_parse Sample.released)))
  <= 1 /\
  length (dispatched (fst (updateAssets Sample.released "B1"))) <= 1.
Proof.
  split; [reflexivity|].
  apply (updateWeb_sends_pages_metadata_assets Sample.JSON_parse
           Sample.yaml_parse Sample.released
           (fst (updatePages Sample.JSON_parse Sample.yaml_parse
                             Sample.released))
           Edge.released_pages "B1" Edge.all_succeed).
  reflexivity.
Defined.

(** ** Addons, pages and the handler *)

(** Four addons that the filter keeps although none of them names a
    file under [mods]: the paths that are tested are [mods] itself
    (twice), the directory [mods/libs], and the manifest. *)
Example stray_addons_kept :
  dispatched
    (fst (createRelease Sample.tag Sample.strip_fields Edge.stray_parse
            Edge.stray Sample.v120 "" (Status2xx VNull)))
  = [mkRequest Sample.api "/pack/release/v1.2.0"
       (Json (VObj [("installedAddons",
                     VArr [Sample.addon 1 ""; Sample.addon 2 ".";
                           Sample.addon 3 "libs";
                           Sample.addon 4 "../minecraftinstance.json"]);
                    ("name", VStr "Spring update");
                    ("body", VStr "New mods");
                    ("prerelease", VBool false)])) None] /\
  map (fun fileName => Path.join [""; "mods"; fileName])
      [""; "."; "libs"; "../minecraftinstance.json"]
  = ["mods"; "mods"; "mods/libs"; "minecraftinstance.json"] /\
  Forall (fun fileName => ~ file_under_mods Edge.stray "" fileName)
         [""; "."; "libs"; "../minecraftinstance.json"].
Proof.
  split; [reflexivity|]. split; [reflexivity|].
  repeat constructor;
    intros (names & content & Hdir & Hin & Hread);
    inversion Hdir; subst; simpl in Hin;
    try discriminate; intuition discriminate.
Qed.


Lemma updatePages_one_put_per_file_witness :
  getApi Sample.released = Ok Sample.api /\
  existsSync Sample.released "web/pages" = true /\
  readdirSync Sample.released "web/pages"
  = Done ["home.json"; "about.yml"; "notes.txt"] /\
  Forall (fun f => entry_name f = true)
         ["home.json"; "about.yml"; "notes.txt"] /\
  (forall bodies,
      Forall2 (page_document Sample.JSON_parse Sample.yaml_parse
                             Sample.released)
              ["home.json"; "about.yml"; "notes.txt"] bodies ->
      updatePages Sample.JSON_parse Sample.yaml_parse Sample.released
      = (map (fun body => Put (mkRequest Sample.api "pack/page" (Json body)
                                         None)) bodies,
         Ok (map (fun body => InFlight (page_upload Sample.api body))
                 bodies)) /\
      dispatched (fst (updatePages Sample.JSON_parse Sample.yaml_parse
                                   Sample.released))
      = map (fun body => mkRequest Sample.api "pack/page" (Json body) None)
            bodies /\
      length (dispatched (fst (updatePages Sample.JSON_parse
                                           Sample.yaml_parse
                                           Sample.released)))
      = length ["home.json"; "about.yml"; "notes.txt"]) /\
  (Exists (fun f => forall body,
               ~ page_document Sample.JSON_parse Sample.yaml_parse
                               Sample.released f body)
          ["home.json"; "about.yml"; "notes.txt"] ->
   exists m,
     updatePages Sample.JSON_parse Sample.yaml_parse Sample.released
     = ([], Err (Error m))).
Proof.
  assert (Hnames : Forall (fun f => entry_name f = true)
                          ["home.json"; "about.yml"; "notes.txt"]).
  { repeat constructor. }
  repeat (split; [first [reflexivity | exact Hnames]|]).
  apply (updatePages_one_put_per_file Sample.JSON_parse Sample.yaml_parse
           Sample.released Sample.api
           ["home.json"; "about.yml"; "notes.txt"]);
    first [reflexivity | exact Hnames].
Defined.

(** The documents of the three pages of the sample project, by the
    names of the files. *)
Example sample_page_documents :
  Forall2 (page_document Sample.JSON_parse Sample.yaml_parse Sample.released)
          ["home.json"; "about.yml"; "notes.txt"] Edge.page_bodies.
Proof.
  repeat constructor.
  - exists (Sample.json_text "{'title':'Home'}"). split; reflexivity.
  - exists "title: About". split; reflexivity.
  - exists "to do". split; reflexivity.
Qed.

(** One [.json] file that does not parse, one [.yml] file and one file
    of another kind: [updatePages] throws, and no PUT is sent. *)
Example draft_pages_run :
  readdirSync Edge.draft_pages "web/pages"
  = Done ["draft.json"; "about.yml"; "notes.txt"] /\
  updatePages Sample.JSON_parse Sample.yaml_parse Edge.draft_pages
  = ([], Err (Error "Unexpected token")).
Proof. split; reflexivity. Qed.

(** C5, as the specification has it: one PUT would be sent for each
    file of the pages directory.  In the run above the directory has
    three files and no PUT is sent. *)
Lemma unparsable_page_stops_every_put :
  ~ sends_every_page Sample.JSON_parse Sample.yaml_parse Edge.draft_pages.
Proof.
  intros Hall.
  specialize (Hall ["draft.json"; "about.yml"; "notes.txt"] eq_refl).
  discriminate Hall.
Qed.

(** A stripped [installedAddons] that is the list the filter gives:
    the payload carries the filtered list although the key collides. *)
Example strip_same_payload :
  obj_get "installedAddons" (Edge.strip_same Sample.v120)
  = Some (VArr (filter (shipped Sample.released "") Sample.addons)) /\
  map data
    (dispatched
       (fst (createRelease Sample.tag Edge.strip_same Sample.JSON_parse
               Sample.released Sample.v120 "" (Status2xx VNull))))
  = [Json (VObj [("installedAddons", VArr [Sample.addon 1 "mod1.jar"]);
                 ("name", VStr "Spring update");
                 ("body", VStr "New mods");
                 ("prerelease", VBool false)])].
Proof. split; reflexivity. Qed.

(** C10, as the specification has it: the payload would carry the
    filtered list only when no key collides.  In the run above the key
    collides and the payload carries the filtered list. *)
Lemma collision_with_the_filtered_list :
  ~ filtered_list_only_without_collision Sample.tag Edge.strip_same
      Sample.JSON_parse Sample.released Sample.v120 "" (Status2xx VNull).
Proof.
  intros Hall.
  specialize (Hall Sample.manifest_text
                [("installedAddons", VArr Sample.addons)]
                Sample.addons _ _
                eq_refl eq_refl eq_refl eq_refl eq_refl eq_refl).
  discriminate Hall.
Qed.


(** Both requests of the sample run fail.  The first failure escapes:
    it is written with [console.error] and thrown again, and nothing
    marks the run as failed.  No line is written for the second
    failure, which settles its branch afterwards. *)
Example both_requests_fail :
  let final :=
    main Sample.tag Sample.strip_fields Sample.JSON_parse Sample.yaml_parse
         Sample.no_technic Sample.pushed Edge.both_fail in
  final
  = (Sample.launch
       ++ [Settled (request Sample.metadata) Sample.server_error;
           ConsoleError [Lit "API Request failed: "; Lit "/pack"];
           ConsoleError [Lit "   ";
                         Interp (Some (VStr "Internal Server Error"))]],
     Some (Err Sample.metadata_error)) /\
  marked_failed final = false /\
  await (Promise_all [InFlight Sample.metadata; InFlight Sample.assets])
        (schedule Edge.both_fail)
  = ([Settled (request Sample.metadata) Sample.server_error],
     Sample.at_rejection, [(1, Sample.server_error)]) /\
  drain Sample.at_rejection [(1, Sample.server_error)]
  = ([Settled (request Sample.assets) Sample.server_error],
     {| branches := [Rejected Sample.metadata_error;
                     Rejected Edge.assets_error];
        outcome := Some (Err Sample.metadata_error) |}).
Proof. repeat split; reflexivity. Qed.

